(** * Guacamole tunnels (Tunnel.js): a shallow embedding and its properties

    The development follows the layout of
    [guacamole-common-js/src/main/webapp/modules/Tunnel.js]:

    - [JS]: the fragment of JavaScript the tunnels rely on (strings as
      sequences of code units, [substring], [indexOf], [parseInt], the
      number-to-string conversion, arithmetic on possibly undefined or NaN
      index variables);
    - [Codec]: the element encoder shared by both [sendMessage]
      implementations, and the two decoding loops ([socket.onmessage] and
      [parseResponse]) with their tunnel effects abstracted as hooks;
    - [Base]: [Guacamole.Tunnel], its state, UUID and callback slots;
    - [HTTP], [WS], [Chained], [Static]: the four tunnel implementations;
    - [URL]: the URL the constructor of the WebSocket tunnel computes;
    - [Spec], [Views]: the vocabulary of the statements;
    - the properties: the round trip of the codec, the delivery of
      instructions, teardown, failover, the order of long polling, and the
      state machine;
    - the further properties: frames of several instructions, the
      incremental parser and its termination, the order of the output,
      state notifications, the requests of a session and how it ends, the
      socket after [connect], the chain in turn, the static response, and
      the URL of the socket.

    Conventions.  Callbacks installed by the application are observers: a
    slot is either empty or holds a handler, and calling a handler appends
    an event to the trace of the tunnel.  What the browser does (socket
    and request events, timers) is an input of the model; a request that
    has been aborted raises no further event.  Loops that JavaScript may
    run forever take a [fuel] argument and report [Hang] when it is
    exhausted.  Code units are 8-bit characters, the arguments of
    [sendMessage] are strings, and integers are exact (string lengths stay
    far below 2^53). *)

From Stdlib Require Import ZArith List Ascii String Bool Lia Arith.
Import ListNotations.
Local Open Scope Z_scope.

(** ** JavaScript primitives *)

Module JS.

(** A JavaScript string is a finite sequence of code units. *)
Definition jsstring := list ascii.

Definition str (s : string) : jsstring := list_ascii_of_string s.

Definition jslength (s : jsstring) : Z := Z.of_nat (List.length s).

Definition jsstring_eqb (a b : jsstring) : bool :=
  if list_eq_dec ascii_dec a b then true else false.

(** The values taken by the index variables of the decoders: a declared
    but unassigned variable is [undefined], arithmetic on it gives [NaN]. *)
Inductive jsnum :=
| undefined
| NaN
| Num (z : Z).

(** [a + b] on numbers; [undefined] converts to [NaN]. *)
Definition add (a b : jsnum) : jsnum :=
  match a, b with
  | Num x, Num y => Num (x + y)
  | _, _ => NaN
  end.

(** [a < b] and [a >= b]: false as soon as one side is not a number. *)
Definition lt (a b : jsnum) : bool :=
  match a, b with
  | Num x, Num y => x <? y
  | _, _ => false
  end.

Definition ge (a b : jsnum) : bool :=
  match a, b with
  | Num x, Num y => y <=? x
  | _, _ => false
  end.

(** [a === z] for a numeric literal [z]. *)
Definition is_num (a : jsnum) (z : Z) : bool :=
  match a with
  | Num x => x =? z
  | _ => false
  end.

(** ToIntegerOrInfinity on the values above. *)
Definition toInteger (a : jsnum) : Z :=
  match a with
  | Num z => z
  | _ => 0
  end.

Definition clamp (z len : Z) : Z := Z.min (Z.max z 0) len.

(** [s.substring(start, end)]: an undefined [end] means the length, NaN
    means 0, both are clamped to the string and swapped when out of order. *)
Definition substring (s : jsstring) (start_ end_ : jsnum) : jsstring :=
  let len := jslength s in
  let intStart := toInteger start_ in
  let intEnd := match end_ with undefined => len | _ => toInteger end_ end in
  let finalStart := clamp intStart len in
  let finalEnd := clamp intEnd len in
  let from := Z.min finalStart finalEnd in
  let to := Z.max finalStart finalEnd in
  firstn (Z.to_nat (to - from)) (skipn (Z.to_nat from) s).

(** Index of the first [c] in [s], where the head of [s] has index [i]. *)
Fixpoint find_from (c : ascii) (s : jsstring) (i : Z) : Z :=
  match s with
  | [] => -1
  | x :: rest => if Ascii.eqb x c then i else find_from c rest (i + 1)
  end.

(** [s.indexOf(c, position)] for a one-character search string. *)
Definition indexOf (c : ascii) (s : jsstring) (position : jsnum) : Z :=
  let start := clamp (toInteger position) (jslength s) in
  find_from c (skipn (Z.to_nat start) s) start.

(** White space skipped by [parseInt] (the code units below 256 of
    StrWhiteSpaceChar: TAB, LF, VT, FF, CR, SP, NBSP). *)
Definition is_whitespace (c : ascii) : bool :=
  let n := nat_of_ascii c in
  ((9 <=? n) && (n <=? 13) || (n =? 32) || (n =? 160))%nat.

Fixpoint trim_start (s : jsstring) : jsstring :=
  match s with
  | c :: rest => if is_whitespace c then trim_start rest else s
  | [] => []
  end.

(** Value of a digit in the given radix, if it is one. *)
Definition digit_value (radix : Z) (c : ascii) : option Z :=
  let n := Z.of_nat (nat_of_ascii c) in
  let v :=
    if (48 <=? n) && (n <=? 57) then Some (n - 48)
    else if (97 <=? n) && (n <=? 122) then Some (n - 87)
    else if (65 <=? n) && (n <=? 90) then Some (n - 55)
    else None in
  match v with
  | Some d => if d <? radix then Some d else None
  | None => None
  end.

(** The longest prefix of digits, read left to right; [None] when it is
    empty. *)
Fixpoint parse_digits (radix : Z) (s : jsstring) (acc : Z) (seen : bool)
  : option Z :=
  match s with
  | c :: rest =>
      match digit_value radix c with
      | Some d => parse_digits radix rest (acc * radix + d) true
      | None => if seen then Some acc else None
      end
  | [] => if seen then Some acc else None
  end.

(** [parseInt(s)] without a radix argument. *)
Definition parseInt (s : jsstring) : jsnum :=
  let s1 := trim_start s in
  let '(sign, s2) :=
    match s1 with
    | "-"%char :: rest => (-1, rest)
    | "+"%char :: rest => (1, rest)
    | _ => (1, s1)
    end in
  let '(radix, s3) :=
    match s2 with
    | "0"%char :: "x"%char :: rest => (16, rest)
    | "0"%char :: "X"%char :: rest => (16, rest)
    | _ => (10, s2)
    end in
  match parse_digits radix s3 0 false with
  | Some n => Num (sign * n)
  | None => NaN
  end.

Definition digit_char (d : nat) : ascii := ascii_of_nat (48 + d).

(** Decimal digits of [n], most significant first, in front of [acc]. *)
Fixpoint digits_of (fuel n : nat) (acc : jsstring) : jsstring :=
  match fuel with
  | O => acc
  | S fuel' =>
      let acc' := digit_char (n mod 10) :: acc in
      if (n <? 10)%nat then acc' else digits_of fuel' (n / 10) acc'
  end.

(** Conversion of a non-negative integer to a string, as done by
    [string.length + "."]. *)
Definition Number_toString (n : nat) : jsstring := digits_of (S n) n [].

End JS.

(** ** Guacamole.Status and the base tunnel *)

Module Base.
Import JS.

(** [new Guacamole.Status(code, message)].  The code is a number; it may be
    NaN when it comes from [parseInt]. *)
Record Status := {
  code : jsnum;
  message : option jsstring
}.

(** The constants and tables of [Guacamole.Status.Code].  Status.js is not
    part of the sources: its numeric values are external constants and are
    taken as parameters everywhere. *)
Class StatusCode := {
  SUCCESS : Z;
  SERVER_ERROR : Z;
  UPSTREAM_TIMEOUT : Z;
  UPSTREAM_NOT_FOUND : Z;
  RESOURCE_NOT_FOUND : Z;
  fromHTTPCode : Z -> Z;
  fromWebSocketCode : Z -> Z
}.

(** [Guacamole.Tunnel.State]. *)
Inductive State :=
| CONNECTING
| OPEN
| CLOSED
| UNSTABLE.

Definition State_eqb (a b : State) : bool :=
  match a, b with
  | CONNECTING, CONNECTING | OPEN, OPEN | CLOSED, CLOSED
  | UNSTABLE, UNSTABLE => true
  | _, _ => false
  end.

(** The values of the [uuid] field: [null] until known; the WebSocket
    tunnel may store [elements[0]] of an empty array, which is undefined. *)
Inductive uuid_value :=
| uuid_null
| uuid_undefined
| uuid_string (s : jsstring).

(** Truthiness of a [uuid] value, as tested by [if (tunnel.uuid)]. *)
Definition uuid_truthy (u : uuid_value) : bool :=
  match u with
  | uuid_string (_ :: _) => true
  | _ => false
  end.

(** What a tunnel does to the outside: calls of the application's
    handlers, and calls into the browser. *)
Inductive event :=
| Ev_onstatechange (s : State)
| Ev_oninstruction (opcode : jsstring) (parameters : list jsstring)
| Ev_onuuid (u : uuid_value)
| Ev_onerror (st : Status)
| Ev_socket_new (id : nat) (data : jsstring)
| Ev_socket_send (id : nat) (msg : jsstring)
| Ev_socket_close (id : nat)
| Ev_dispatchEvent (name : jsstring)
| Ev_alert (msg : jsstring)
| Ev_reload
| Ev_xhr_connect (data : jsstring)
| Ev_xhr_read (request : nat)
| Ev_xhr_write (body : jsstring)
| Ev_xhr_abort (request : nat)
| Ev_xhr_static (generation : nat).

(** How the execution of a handler or method ends. *)
Inductive outcome :=
| Returned
| TypeError
| Hang.

(** The fields of [Guacamole.Tunnel].  A callback slot is [true] when the
    application has installed a handler in it. *)
Record Tunnel := {
  state : State;
  uuid : uuid_value;
  onuuid : bool;
  onerror : bool;
  onstatechange : bool;
  oninstruction : bool;
  trace : list event
}.

(** A freshly constructed tunnel with the given handlers installed. *)
Definition new_Tunnel (h_uuid h_error h_state h_instruction : bool) : Tunnel :=
  {| state := CONNECTING; uuid := uuid_null;
     onuuid := h_uuid; onerror := h_error;
     onstatechange := h_state; oninstruction := h_instruction;
     trace := [] |}.

Definition emit (e : event) (t : Tunnel) : Tunnel :=
  {| state := state t; uuid := uuid t;
     onuuid := onuuid t; onerror := onerror t;
     onstatechange := onstatechange t; oninstruction := oninstruction t;
     trace := trace t ++ [e] |}.

Definition with_state (s : State) (t : Tunnel) : Tunnel :=
  {| state := s; uuid := uuid t;
     onuuid := onuuid t; onerror := onerror t;
     onstatechange := onstatechange t; oninstruction := oninstruction t;
     trace := trace t |}.

Definition with_uuid (u : uuid_value) (t : Tunnel) : Tunnel :=
  {| state := state t; uuid := u;
     onuuid := onuuid t; onerror := onerror t;
     onstatechange := onstatechange t; oninstruction := oninstruction t;
     trace := trace t |}.

(** [this.setState]: notify only if the state changes. *)
Definition setState (s : State) (t : Tunnel) : Tunnel :=
  if negb (State_eqb s (state t)) then
    let t1 := with_state s t in
    if onstatechange t1 then emit (Ev_onstatechange s) t1 else t1
  else t.

(** [this.setUUID]. *)
Definition setUUID (u : uuid_value) (t : Tunnel) : Tunnel :=
  let t1 := with_uuid u t in
  if onuuid t1 then emit (Ev_onuuid u) t1 else t1.

(** [this.isConnected]. *)
Definition isConnected (t : Tunnel) : bool :=
  State_eqb (state t) OPEN || State_eqb (state t) UNSTABLE.

(** [status.code !== c] and [status.code === c]. *)
Definition code_is (st : Status) (c : Z) : bool := is_num (code st) c.

(** Sequencing of commands on a state: the rest is skipped as soon as one
    of them does not return. *)
Definition and_then {T : Type} (c1 c2 : T -> outcome * T) : T -> outcome * T :=
  fun t =>
    match c1 t with
    | (Returned, t1) => c2 t1
    | r => r
    end.

Definition ret {T : Type} (f : T -> T) : T -> outcome * T :=
  fun t => (Returned, f t).

End Base.

(** ** The instruction codec *)

Module Codec.
Import JS Base.

(** [getElement] of both [sendMessage] implementations; the value has
    already been converted to a string. *)
Definition getElement (value : jsstring) : jsstring :=
  Number_toString (List.length value) ++ "."%char :: value.

(** The message built by [sendMessage] from [arguments[0]] and the
    remaining arguments. *)
Definition encode (first : jsstring) (others : list jsstring) : jsstring :=
  fold_left (fun message a => message ++ ","%char :: getElement a)
            others (getElement first)
    ++ [";"%char].

Definition instruction := (jsstring * list jsstring)%type.

(** *** The loop of [socket.onmessage]

    [no_period] stands for the call of [close_tunnel] in the branch without
    a period, [handle opcode elements] for what is done with a complete
    instruction once [opcode = elements.shift()] has been taken. *)
Section SocketLoop.
Context {T : Type}.
Variable no_period : T -> outcome * T.
Variable handle : jsstring -> list jsstring -> T -> outcome * T.

Fixpoint message_loop (fuel : nat) (message : jsstring)
    (startIndex elementEnd : jsnum) (elements : list jsstring) (t : T)
  : outcome * T :=
  match fuel with
  | O => (Hang, t)
  | S fuel' =>
      (* Search for end of length *)
      let lengthEnd := indexOf "."%char message startIndex in
      let '(r1, t1, startIndex1, elementEnd1) :=
        if negb (lengthEnd =? -1) then
          let length :=
            parseInt (substring message (add elementEnd (Num 1))
                                (Num lengthEnd)) in
          let start := Num (lengthEnd + 1) in
          (Returned, t, start, add start length)
        else
          let '(r, t') := no_period t in
          (r, t', startIndex, elementEnd) in
      match r1 with
      | Returned =>
          let element := substring message startIndex1 elementEnd1 in
          let terminator :=
            substring message elementEnd1 (add elementEnd1 (Num 1)) in
          let elements1 := elements ++ [element] in
          let '(r2, t2, elements2) :=
            if jsstring_eqb terminator [";"%char] then
              match elements1 with
              | opcode :: rest =>
                  let '(r, t') := handle opcode rest t1 in (r, t', [])
              | [] => (Returned, t1, [])
              end
            else (Returned, t1, elements1) in
          match r2 with
          | Returned =>
              let startIndex2 := add elementEnd1 (Num 1) in
              if lt startIndex2 (Num (jslength message)) then
                message_loop fuel' message startIndex2 elementEnd1
                             elements2 t2
              else (Returned, t2)
          | _ => (r2, t2)
          end
      | _ => (r1, t1)
      end
  end.
End SocketLoop.

(** *** The loop of [parseResponse]

    The variables [elementEnd], [startIndex] and [elements] belong to the
    enclosing [handleResponse] and survive from one call to the next. *)
Record parser := {
  elementEnd : jsnum;
  startIndex : jsnum;
  elements : list jsstring
}.

Definition new_parser : parser :=
  {| elementEnd := Num (-1); startIndex := Num 0; elements := [] |}.

Section ResponseLoop.
Context {T : Type}.
Variable handle : jsstring -> list jsstring -> T -> outcome * T.
Variable end_of_response : T -> outcome * T.

Fixpoint response_loop (fuel : nat) (current : jsstring) (p : parser)
    (t : T) : outcome * (parser * T) :=
  match fuel with
  | O => (Hang, (p, t))
  | S fuel' =>
      (* While search is within currently received data *)
      if lt (elementEnd p) (Num (jslength current)) then
        (* If we are waiting for element data *)
        let '(r1, p1, t1) :=
          if ge (elementEnd p) (startIndex p) then
            let element :=
              substring current (startIndex p) (elementEnd p) in
            let terminator :=
              substring current (elementEnd p)
                        (add (elementEnd p) (Num 1)) in
            let elements1 := elements p ++ [element] in
            let '(r, t', elements2) :=
              if jsstring_eqb terminator [";"%char] then
                match elements1 with
                | opcode :: rest =>
                    let '(r, t') := handle opcode rest t in (r, t', [])
                | [] => (Returned, t, [])
                end
              else (Returned, t, elements1) in
            (r,
             {| elementEnd := elementEnd p;
                startIndex := add (elementEnd p) (Num 1);
                elements := elements2 |},
             t')
          else (Returned, p, t) in
        match r1 with
        | Returned =>
            (* Search for end of length *)
            let lengthEnd := indexOf "."%char current (startIndex p1) in
            if negb (lengthEnd =? -1) then
              let length :=
                parseInt (substring current (add (elementEnd p1) (Num 1))
                                    (Num lengthEnd)) in
              (* If we're done parsing, handle the next response. *)
              if is_num length 0 then
                let '(r, t2) := end_of_response t1 in (r, (p1, t2))
              else
                let start := Num (lengthEnd + 1) in
                response_loop fuel' current
                  {| elementEnd := add start length;
                     startIndex := start;
                     elements := elements p1 |}
                  t1
            else
              (Returned,
               ({| elementEnd := elementEnd p1;
                   startIndex := Num (jslength current);
                   elements := elements p1 |},
                t1))
        | _ => (r1, (p1, t1))
        end
      else (Returned, (p, t))
  end.
End ResponseLoop.

(** The decoders seen from outside: the instructions handed to [handle],
    in order, and for a response whether its end marker was reached. *)
Definition collect (opcode : jsstring) (args : list jsstring)
    (acc : list instruction) : outcome * list instruction :=
  (Returned, acc ++ [(opcode, args)]).

Definition socket_decode (fuel : nat) (message : jsstring)
  : outcome * list instruction :=
  message_loop (ret (fun acc => acc)) collect fuel message (Num 0) undefined
               [] [].

Definition response_decode (fuel : nat) (current : jsstring) (p : parser)
  : outcome * (parser * (list instruction * bool)) :=
  response_loop
    (fun op args s => (Returned, (fst s ++ [(op, args)], snd s)))
    (ret (fun s => (fst s, true)))
    fuel current p ([], false).

End Codec.

(** ** Guacamole.WebSocketTunnel *)

Module WS.
Import JS Base Codec.

(** The private variables of the constructor, next to the inherited
    fields.  [socket] is [None] for [null] and otherwise names the
    WebSocket created by the latest [connect]; a timer flag tells whether
    the timer whose id the variable holds is still pending.  [connect]
    overwrites [pingInterval] without clearing it: intervals lost that way
    are counted in [orphan_intervals]. *)
Record WebSocketTunnel := {
  base : Tunnel;
  socket : option nat;
  sockets : nat;
  receive_timeout : bool;
  unstableTimeout : bool;
  pingInterval : bool;
  orphan_intervals : nat
}.

Definition new_WebSocketTunnel (b : Tunnel) : WebSocketTunnel :=
  {| base := b; socket := None; sockets := 0%nat;
     receive_timeout := false; unstableTimeout := false;
     pingInterval := false; orphan_intervals := 0%nat |}.

Definition on_base (f : Tunnel -> Tunnel) (t : WebSocketTunnel)
  : WebSocketTunnel :=
  {| base := f (base t); socket := socket t; sockets := sockets t;
     receive_timeout := receive_timeout t;
     unstableTimeout := unstableTimeout t;
     pingInterval := pingInterval t;
     orphan_intervals := orphan_intervals t |}.

Definition with_timeouts (r u : bool) (t : WebSocketTunnel)
  : WebSocketTunnel :=
  {| base := base t; socket := socket t; sockets := sockets t;
     receive_timeout := r; unstableTimeout := u;
     pingInterval := pingInterval t;
     orphan_intervals := orphan_intervals t |}.

Definition with_pingInterval (p : bool) (o : nat) (t : WebSocketTunnel)
  : WebSocketTunnel :=
  {| base := base t; socket := socket t; sockets := sockets t;
     receive_timeout := receive_timeout t;
     unstableTimeout := unstableTimeout t;
     pingInterval := p; orphan_intervals := o |}.

Definition with_socket (s : option nat) (n : nat) (t : WebSocketTunnel)
  : WebSocketTunnel :=
  {| base := base t; socket := s; sockets := n;
     receive_timeout := receive_timeout t;
     unstableTimeout := unstableTimeout t;
     pingInterval := pingInterval t;
     orphan_intervals := orphan_intervals t |}.

Section Methods.
Context {codes : StatusCode}.

(** [reset_timeout]. *)
Definition reset_timeout (t : WebSocketTunnel) : WebSocketTunnel :=
  (* Get rid of old timeouts (if any) *)
  let t1 := with_timeouts false false t in
  (* Clear unstable status *)
  let t2 :=
    if State_eqb (state (base t1)) UNSTABLE
    then on_base (setState OPEN) t1 else t1 in
  (* Set new timeouts *)
  with_timeouts true true t2.

(** [socket.close()], which fails on [null]. *)
Definition socket_close (t : WebSocketTunnel) : outcome * WebSocketTunnel :=
  match socket t with
  | Some id => (Returned, on_base (emit (Ev_socket_close id)) t)
  | None => (TypeError, t)
  end.

(** [close_tunnel(status)]. *)
Definition close_tunnel (status : Status) (t : WebSocketTunnel)
  : outcome * WebSocketTunnel :=
  (* Get rid of old timeouts (if any); cease connection test pings *)
  let t1 :=
    with_pingInterval false (orphan_intervals t)
                      (with_timeouts false false t) in
  (* Ignore if already closed *)
  if State_eqb (state (base t1)) CLOSED then (Returned, t1)
  else
    (* If connection closed abnormally, signal error. *)
    let t2 :=
      if negb (code_is status SUCCESS) && onerror (base t1)
      then on_base (emit (Ev_onerror status)) t1 else t1 in
    (* Mark as closed *)
    let t3 := on_base (setState CLOSED) t2 in
    socket_close t3.

(** [this.sendMessage], called with the given arguments. *)
Definition sendMessage (arguments : list jsstring) (t : WebSocketTunnel)
  : outcome * WebSocketTunnel :=
  (* Do not attempt to send messages if not connected *)
  if negb (isConnected (base t)) then (Returned, t)
  else
    match arguments with
    (* Do not attempt to send empty messages *)
    | [] => (Returned, t)
    | first :: others =>
        let message := encode first others in
        match socket t with
        | Some id => (Returned, on_base (emit (Ev_socket_send id message)) t)
        | None => (TypeError, t)
        end
    end.

(** [this.connect]. *)
Definition connect (data : jsstring) (t : WebSocketTunnel)
  : WebSocketTunnel :=
  let t1 := reset_timeout t in
  (* Mark the tunnel as connecting *)
  let t2 := on_base (setState CONNECTING) t1 in
  (* Connect socket *)
  let id := sockets t2 in
  on_base (emit (Ev_socket_new id data)) (with_socket (Some id) (S id) t2).

(** [socket.onopen]. *)
Definition onopen (t : WebSocketTunnel) : WebSocketTunnel :=
  let t1 := reset_timeout t in
  (* Ping tunnel endpoint regularly to test connection stability *)
  with_pingInterval true
    (if pingInterval t1 then S (orphan_intervals t1)
     else orphan_intervals t1)
    t1.

(** [socket.onclose], for an event with the given reason and code. *)
Definition onclose (reason : jsstring) (code : Z) (t : WebSocketTunnel)
  : outcome * WebSocketTunnel :=
  match reason with
  | _ :: _ =>
      close_tunnel
        {| Base.code := parseInt reason; message := Some reason |} t
  | [] =>
      if negb (code =? 0) then
        close_tunnel
          {| Base.code := Num (fromWebSocketCode code); message := None |} t
      else
        close_tunnel
          {| Base.code := Num UPSTREAM_NOT_FOUND; message := None |} t
  end.

Definition incomplete_instruction : Status :=
  {| Base.code := Num SERVER_ERROR;
     message := Some (str "Incomplete instruction.") |}.

Definition server_timeout : Status :=
  {| Base.code := Num UPSTREAM_TIMEOUT;
     message := Some (str "Server timeout.") |}.

(** [elements[0]] as a UUID. *)
Definition first_element (elements : list jsstring) : uuid_value :=
  match elements with
  | e :: _ => uuid_string e
  | [] => uuid_undefined
  end.

(** Update state and UUID when first instruction received. *)
Definition establish (opcode : jsstring) (elements : list jsstring)
    (t : WebSocketTunnel) : WebSocketTunnel :=
  match uuid (base t) with
  | uuid_null =>
      let t1 :=
        if jsstring_eqb opcode []
        then on_base (setUUID (first_element elements)) t else t in
      on_base (setState OPEN) t1
  | _ => t
  end.

(** The body of [if (terminator === ";")] in [socket.onmessage], after
    [opcode = elements.shift()]. *)
Definition handle_instruction (opcode : jsstring)
    (elements : list jsstring) (t : WebSocketTunnel)
  : outcome * WebSocketTunnel :=
  let t1 := establish opcode elements t in
  let t2 :=
    if jsstring_eqb opcode (str "getCredentials")
    then on_base (emit (Ev_dispatchEvent (str "getAuthCredentials"))) t1
    else t1 in
  let step3 :=
    if jsstring_eqb opcode (str "reauth") then
      and_then (close_tunnel server_timeout)
          (ret (on_base (fun b =>
             emit Ev_reload
               (emit (Ev_alert
                        (str "Session Timed out. Please login again."))
                     b))))
    else ret (fun t => t) in
  and_then step3
      (ret (fun t3 =>
         (* Call instruction handler. *)
         if negb (jsstring_eqb opcode []) && oninstruction (base t3)
         then on_base (emit (Ev_oninstruction opcode elements)) t3
         else t3))
      t2.

(** [socket.onmessage], for an event carrying [message]. *)
Definition onmessage (fuel : nat) (message : jsstring)
    (t : WebSocketTunnel) : outcome * WebSocketTunnel :=
  message_loop (close_tunnel incomplete_instruction) handle_instruction
               fuel message (Num 0) undefined [] (reset_timeout t).

(** [this.disconnect]. *)
Definition disconnect (t : WebSocketTunnel) : outcome * WebSocketTunnel :=
  close_tunnel
    {| Base.code := Num SUCCESS; message := Some (str "Manually closed.") |}
    t.

(** The callbacks of the two timeouts set by [reset_timeout], and of the
    ping interval. *)
Definition receive_timeout_fired (t : WebSocketTunnel)
  : outcome * WebSocketTunnel :=
  close_tunnel server_timeout
    (with_timeouts false (unstableTimeout t) t).

Definition unstableTimeout_fired (t : WebSocketTunnel) : WebSocketTunnel :=
  on_base (setState UNSTABLE) (with_timeouts (receive_timeout t) false t).

Definition sendPing (now : jsstring) (t : WebSocketTunnel)
  : outcome * WebSocketTunnel :=
  sendMessage [[]; str "ping"; now] t.

(** What can happen to a tunnel: calls of its methods by the
    application, events of its socket, and timers. *)
Inductive input :=
| Connect (data : jsstring)
| Disconnect
| SendMessage (arguments : list jsstring)
| SocketOpen
| SocketClose (reason : jsstring) (code : Z)
| SocketMessage (data : jsstring)
| ReceiveTimeout
| UnstableTimeout
| PingInterval (now : jsstring).

(** Socket events need a socket, timers fire only while pending. *)
Definition step (fuel : nat) (i : input) (t : WebSocketTunnel)
  : outcome * WebSocketTunnel :=
  match i with
  | Connect data => (Returned, connect data t)
  | Disconnect => disconnect t
  | SendMessage arguments => sendMessage arguments t
  | SocketOpen =>
      match socket t with
      | Some _ => (Returned, onopen t)
      | None => (Returned, t)
      end
  | SocketClose reason code =>
      match socket t with
      | Some _ => onclose reason code t
      | None => (Returned, t)
      end
  | SocketMessage data =>
      match socket t with
      | Some _ => onmessage fuel data t
      | None => (Returned, t)
      end
  | ReceiveTimeout =>
      if receive_timeout t then receive_timeout_fired t else (Returned, t)
  | UnstableTimeout =>
      if unstableTimeout t then (Returned, unstableTimeout_fired t)
      else (Returned, t)
  | PingInterval now =>
      if pingInterval t || negb (orphan_intervals t =? 0)%nat
      then sendPing now t else (Returned, t)
  end.

(** A sequence of inputs, each handled to completion; an exception ends
    the handler it occurs in, a hang ends everything. *)
Fixpoint run (fuel : nat) (inputs : list input) (t : WebSocketTunnel)
  : list outcome * WebSocketTunnel :=
  match inputs with
  | [] => ([], t)
  | i :: rest =>
      match step fuel i t with
      | (Hang, t1) => ([Hang], t1)
      | (r, t1) =>
          let '(rs, t2) := run fuel rest t1 in (r :: rs, t2)
      end
  end.
End Methods.

End WS.

(** ** Guacamole.HTTPTunnel *)

Module HTTP.
Import JS Base Codec.

(** What the tunnel reads from an XMLHttpRequest.  The getters of the
    browser do not throw, so the [catch] branches of the source are never
    taken. *)
Record XMLHttpRequest := {
  readyState : Z;
  status : Z;
  statusText : jsstring;
  responseText : jsstring;
  status_code_header : option jsstring;   (* Guacamole-Status-Code *)
  error_message_header : option jsstring; (* Guacamole-Error-Message *)
  tunnel_token_header : option jsstring   (* Guacamole-Tunnel-Token *)
}.

(** The request just after [open] and [send]. *)
Definition sent_request : XMLHttpRequest :=
  {| readyState := 1; status := 0; statusText := [];
     responseText := [];
     status_code_header := None; error_message_header := None;
     tunnel_token_header := None |}.

(** The handler stored in [onreadystatechange] of a read request. *)
Inductive handler :=
| no_handler
| counting_handler   (* the wrapper installed while polling is enabled *)
| parse_handler.     (* [parseResponse] itself *)

(** A read request together with the variables of the call of
    [handleResponse] that serves it.  [interval] is [None] for [null],
    and otherwise tells whether the interval is still running. *)
Record reader := {
  xhr : XMLHttpRequest;
  onreadystatechange : handler;
  interval : option bool;
  nextRequest : option nat;
  dataUpdateEvents : nat;
  parse : parser
}.

(** The private variables of the constructor, next to the inherited
    fields.  Read requests are kept in the order they were made, so a
    request is named by the value [request_id] had when it was made. *)
Record HTTPTunnel := {
  base : Tunnel;
  pollingMode : bool;          (* POLLING_ENABLED *)
  sendingMessages : bool;
  outputMessageBuffer : jsstring;
  receive_timeout : bool;
  unstableTimeout : bool;
  pingInterval : bool;
  orphan_intervals : nat;
  tunnelSessionToken : option jsstring;
  requests : list reader
}.

Definition request_id (t : HTTPTunnel) : nat := List.length (requests t).

Definition new_HTTPTunnel (b : Tunnel) : HTTPTunnel :=
  {| base := b; pollingMode := true; sendingMessages := false;
     outputMessageBuffer := [];
     receive_timeout := false; unstableTimeout := false;
     pingInterval := false; orphan_intervals := 0%nat;
     tunnelSessionToken := None; requests := [] |}.

Definition on_base (f : Tunnel -> Tunnel) (t : HTTPTunnel) : HTTPTunnel :=
  {| base := f (base t); pollingMode := pollingMode t;
     sendingMessages := sendingMessages t;
     outputMessageBuffer := outputMessageBuffer t;
     receive_timeout := receive_timeout t;
     unstableTimeout := unstableTimeout t;
     pingInterval := pingInterval t;
     orphan_intervals := orphan_intervals t;
     tunnelSessionToken := tunnelSessionToken t;
     requests := requests t |}.

Definition with_pollingMode (m : bool) (t : HTTPTunnel) : HTTPTunnel :=
  {| base := base t; pollingMode := m;
     sendingMessages := sendingMessages t;
     outputMessageBuffer := outputMessageBuffer t;
     receive_timeout := receive_timeout t;
     unstableTimeout := unstableTimeout t;
     pingInterval := pingInterval t;
     orphan_intervals := orphan_intervals t;
     tunnelSessionToken := tunnelSessionToken t;
     requests := requests t |}.

Definition with_output (sending : bool) (buffer : jsstring) (t : HTTPTunnel)
  : HTTPTunnel :=
  {| base := base t; pollingMode := pollingMode t;
     sendingMessages := sending;
     outputMessageBuffer := buffer;
     receive_timeout := receive_timeout t;
     unstableTimeout := unstableTimeout t;
     pingInterval := pingInterval t;
     orphan_intervals := orphan_intervals t;
     tunnelSessionToken := tunnelSessionToken t;
     requests := requests t |}.

Definition with_timeouts (r u : bool) (t : HTTPTunnel) : HTTPTunnel :=
  {| base := base t; pollingMode := pollingMode t;
     sendingMessages := sendingMessages t;
     outputMessageBuffer := outputMessageBuffer t;
     receive_timeout := r;
     unstableTimeout := u;
     pingInterval := pingInterval t;
     orphan_intervals := orphan_intervals t;
     tunnelSessionToken := tunnelSessionToken t;
     requests := requests t |}.

Definition with_pingInterval (p : bool) (o : nat) (t : HTTPTunnel)
  : HTTPTunnel :=
  {| base := base t; pollingMode := pollingMode t;
     sendingMessages := sendingMessages t;
     outputMessageBuffer := outputMessageBuffer t;
     receive_timeout := receive_timeout t;
     unstableTimeout := unstableTimeout t;
     pingInterval := p;
     orphan_intervals := o;
     tunnelSessionToken := tunnelSessionToken t;
     requests := requests t |}.

Definition with_token (k : option jsstring) (t : HTTPTunnel) : HTTPTunnel :=
  {| base := base t; pollingMode := pollingMode t;
     sendingMessages := sendingMessages t;
     outputMessageBuffer := outputMessageBuffer t;
     receive_timeout := receive_timeout t;
     unstableTimeout := unstableTimeout t;
     pingInterval := pingInterval t;
     orphan_intervals := orphan_intervals t;
     tunnelSessionToken := k;
     requests := requests t |}.

Definition with_requests (rs : list reader) (t : HTTPTunnel) : HTTPTunnel :=
  {| base := base t; pollingMode := pollingMode t;
     sendingMessages := sendingMessages t;
     outputMessageBuffer := outputMessageBuffer t;
     receive_timeout := receive_timeout t;
     unstableTimeout := unstableTimeout t;
     pingInterval := pingInterval t;
     orphan_intervals := orphan_intervals t;
     tunnelSessionToken := tunnelSessionToken t;
     requests := rs |}.

(** Replacement of the [n]-th element of a list; nothing out of range. *)
Fixpoint update {A : Type} (n : nat) (f : A -> A) (l : list A) : list A :=
  match l, n with
  | [], _ => []
  | x :: rest, O => f x :: rest
  | x :: rest, S n' => x :: update n' f rest
  end.

Definition on_reader (id : nat) (f : reader -> reader) (t : HTTPTunnel)
  : HTTPTunnel :=
  with_requests (update id f (requests t)) t.

Definition set_xhr (x : XMLHttpRequest) (r : reader) : reader :=
  {| xhr := x; onreadystatechange := onreadystatechange r;
     interval := interval r; nextRequest := nextRequest r;
     dataUpdateEvents := dataUpdateEvents r; parse := parse r |}.

Definition set_handler (h : handler) (r : reader) : reader :=
  {| xhr := xhr r; onreadystatechange := h;
     interval := interval r; nextRequest := nextRequest r;
     dataUpdateEvents := dataUpdateEvents r; parse := parse r |}.

Definition set_interval (i : option bool) (r : reader) : reader :=
  {| xhr := xhr r; onreadystatechange := onreadystatechange r;
     interval := i; nextRequest := nextRequest r;
     dataUpdateEvents := dataUpdateEvents r; parse := parse r |}.

Definition set_nextRequest (n : option nat) (r : reader) : reader :=
  {| xhr := xhr r; onreadystatechange := onreadystatechange r;
     interval := interval r; nextRequest := n;
     dataUpdateEvents := dataUpdateEvents r; parse := parse r |}.

Definition set_dataUpdateEvents (n : nat) (r : reader) : reader :=
  {| xhr := xhr r; onreadystatechange := onreadystatechange r;
     interval := interval r; nextRequest := nextRequest r;
     dataUpdateEvents := n; parse := parse r |}.

Definition set_parse (p : parser) (r : reader) : reader :=
  {| xhr := xhr r; onreadystatechange := onreadystatechange r;
     interval := interval r; nextRequest := nextRequest r;
     dataUpdateEvents := dataUpdateEvents r; parse := p |}.

(** [clearInterval(interval)]: the variable keeps the id. *)
Definition clear_interval (r : reader) : reader :=
  match interval r with
  | Some _ => set_interval (Some false) r
  | None => r
  end.

Section Methods.
Context {codes : StatusCode}.

(** [reset_timeout]. *)
Definition reset_timeout (t : HTTPTunnel) : HTTPTunnel :=
  (* Get rid of old timeouts (if any) *)
  let t1 := with_timeouts false false t in
  (* Clear unstable status *)
  let t2 :=
    if State_eqb (state (base t1)) UNSTABLE
    then on_base (setState OPEN) t1 else t1 in
  (* Set new timeouts *)
  with_timeouts true true t2.

(** [close_tunnel(status)]. *)
Definition close_tunnel (st : Status) (t : HTTPTunnel) : HTTPTunnel :=
  (* Get rid of old timeouts (if any); cease connection test pings *)
  let t1 :=
    with_pingInterval false (orphan_intervals t)
                      (with_timeouts false false t) in
  (* Ignore if already closed *)
  if State_eqb (state (base t1)) CLOSED then t1
  else
    (* If connection closed abnormally, signal error. *)
    let t2 :=
      if negb (code_is st SUCCESS) && onerror (base t1) then
        (* Ignore RESOURCE_NOT_FOUND if we've already connected *)
        if State_eqb (state (base t1)) CONNECTING
           || negb (code_is st RESOURCE_NOT_FOUND)
        then on_base (emit (Ev_onerror st)) t1
        else t1
      else t1 in
    (* Reset output message buffer *)
    let t3 := with_output false (outputMessageBuffer t2) t2 in
    (* Mark as closed *)
    on_base (setState CLOSED) t3.

(** [sendPendingMessages]. *)
Definition sendPendingMessages (t : HTTPTunnel) : HTTPTunnel :=
  (* Do not attempt to send messages if not connected *)
  if negb (isConnected (base t)) then t
  else
    match outputMessageBuffer t with
    | _ :: _ =>
        let t1 := with_output true (outputMessageBuffer t) t in
        let t2 := on_base (emit (Ev_xhr_write (outputMessageBuffer t1))) t1 in
        (* Clear buffer *)
        with_output (sendingMessages t2) [] t2
    | [] => with_output false (outputMessageBuffer t) t
    end.

(** [this.sendMessage], called with the given arguments. *)
Definition sendMessage (arguments : list jsstring) (t : HTTPTunnel)
  : HTTPTunnel :=
  (* Do not attempt to send messages if not connected *)
  if negb (isConnected (base t)) then t
  else
    match arguments with
    (* Do not attempt to send empty messages *)
    | [] => t
    | first :: others =>
        let message := encode first others in
        (* Add message to buffer *)
        let t1 :=
          with_output (sendingMessages t)
                      (outputMessageBuffer t ++ message) t in
        (* Send if not currently sending *)
        if negb (sendingMessages t1) then sendPendingMessages t1 else t1
    end.

(** Truthiness of a number, as tested by [if (code)]. *)
Definition truthy (n : jsnum) : bool :=
  match n with
  | Num z => negb (z =? 0)
  | _ => false
  end.

(** [parseInt(xmlhttprequest.getResponseHeader(...))]: an absent header
    is [null], which [parseInt] reads as the string "null". *)
Definition header_code (x : XMLHttpRequest) : jsnum :=
  match status_code_header x with
  | Some h => parseInt h
  | None => parseInt (str "null")
  end.

(** [handleHTTPTunnelError(xmlhttprequest)]. *)
Definition handleHTTPTunnelError (x : XMLHttpRequest) (t : HTTPTunnel)
  : HTTPTunnel :=
  let code := header_code x in
  if truthy code then
    close_tunnel {| Base.code := code;
                    message := error_message_header x |} t
  else if negb (status x =? 0) then
    close_tunnel {| Base.code := Num (fromHTTPCode (status x));
                    message := Some (statusText x) |} t
  else
    close_tunnel {| Base.code := Num UPSTREAM_NOT_FOUND;
                    message := None |} t.

(** The completion handler of a write request. *)
Definition write_readystatechange (x : XMLHttpRequest) (t : HTTPTunnel)
  : HTTPTunnel :=
  if readyState x =? 4 then
    let t1 := reset_timeout t in
    if negb (status x =? 200) then handleHTTPTunnelError x t1
    else sendPendingMessages t1
  else t.

(** [makeRequest]: the new request is the last of [requests]. *)
Definition makeRequest (t : HTTPTunnel) : nat * HTTPTunnel :=
  let id := request_id t in
  let r := {| xhr := sent_request; onreadystatechange := no_handler;
              interval := None; nextRequest := None;
              dataUpdateEvents := 0%nat; parse := new_parser |} in
  (id, on_base (emit (Ev_xhr_read id)) (with_requests (requests t ++ [r]) t)).

(** [this.disconnect]. *)
Definition disconnect (t : HTTPTunnel) : HTTPTunnel :=
  close_tunnel
    {| Base.code := Num SUCCESS; message := Some (str "Manually closed.") |}
    t.

Definition get_reader (id : nat) (t : HTTPTunnel) : option reader :=
  nth_error (requests t) id.

(** The call of the instruction handler in the parse loop. *)
Definition handle_instruction (opcode : jsstring)
    (elements : list jsstring) (t : HTTPTunnel) : outcome * HTTPTunnel :=
  (Returned,
   if oninstruction (base t)
   then on_base (emit (Ev_oninstruction opcode elements)) t else t).

(** [handleResponse(xmlhttprequest)] and its inner [parseResponse], for
    the request [id].  [depth] bounds the nesting of [handleResponse]
    inside [parseResponse], [fuel] the iterations of the parse loop. *)
Fixpoint parseResponse (depth fuel : nat) (id : nat) (t : HTTPTunnel)
  {struct depth} : outcome * HTTPTunnel :=
  match depth with
  | O => (Hang, t)
  | S depth' =>
    match get_reader id t with
    | None => (Returned, t)
    | Some r =>
      (* Do not handle responses if not connected *)
      if negb (isConnected (base t)) then
        (Returned, on_reader id clear_interval t)
      (* Do not parse response yet if not ready *)
      else if readyState (xhr r) <? 2 then (Returned, t)
      else
        let status_ := status (xhr r) in
        (* Start next request as soon as possible IF request was
           successful *)
        let t1 :=
          match nextRequest r with
          | None =>
              if status_ =? 200 then
                let '(n, t') := makeRequest t in
                on_reader id (set_nextRequest (Some n)) t'
              else t
          | Some _ => t
          end in
        (* Parse stream when data is received and when complete. *)
        if (readyState (xhr r) =? 3) || (readyState (xhr r) =? 4) then
          let t2 := reset_timeout t1 in
          (* Also poll every 30ms *)
          let t3 :=
            if pollingMode t2 then
              if (readyState (xhr r) =? 3)
                 && match interval r with None => true | _ => false end
              then on_reader id (set_interval (Some true)) t2
              else if (readyState (xhr r) =? 4)
                      && match interval r with Some _ => true | _ => false end
              then on_reader id clear_interval t2
              else t2
            else t2 in
          (* If canceled, stop transfer *)
          if status (xhr r) =? 0 then (Returned, disconnect t3)
          (* Halt on error during request *)
          else if negb (status (xhr r) =? 200) then
            (Returned, handleHTTPTunnelError (xhr r) t3)
          else
            let current := responseText (xhr r) in
            let end_of_response (t : HTTPTunnel) : outcome * HTTPTunnel :=
              (* Clean up interval if polling; clean up object *)
              let t' :=
                on_base (emit (Ev_xhr_abort id))
                  (on_reader id
                     (fun r => set_handler no_handler (clear_interval r))
                     t) in
              (* Start handling next request *)
              match get_reader id t' with
              | Some r' =>
                  match nextRequest r' with
                  | Some n =>
                      (* handleResponse(nextRequest) *)
                      let t'' :=
                        on_reader n
                          (fun r0 =>
                             {| xhr := xhr r0;
                                onreadystatechange :=
                                  if pollingMode t' then counting_handler
                                  else parse_handler;
                                interval := None; nextRequest := None;
                                dataUpdateEvents := 0%nat;
                                parse := new_parser |})
                          t' in
                      parseResponse depth' fuel n t''
                  | None => (Returned, t')
                  end
              | None => (Returned, t')
              end in
            let '(r_, (p, t4)) :=
              response_loop handle_instruction end_of_response
                            fuel current (parse r) t3 in
            (r_, on_reader id (set_parse p) t4)
        else (Returned, t1)
    end
  end.

(** [handleResponse(xmlhttprequest)]. *)
Definition handleResponse (depth fuel : nat) (id : nat) (t : HTTPTunnel)
  : outcome * HTTPTunnel :=
  let t1 :=
    on_reader id
      (fun r0 =>
         {| xhr := xhr r0;
            onreadystatechange :=
              if pollingMode t then counting_handler else parse_handler;
            interval := None; nextRequest := None;
            dataUpdateEvents := 0%nat;
            parse := new_parser |})
      t in
  parseResponse depth fuel id t1.

(** The browser changes the request [id] to [x] and fires
    [readystatechange] on it. *)
Definition read_readystatechange (depth fuel : nat) (id : nat)
    (x : XMLHttpRequest) (t : HTTPTunnel) : outcome * HTTPTunnel :=
  match get_reader id t with
  | None => (Returned, t)
  | Some r =>
      let t1 := on_reader id (set_xhr x) t in
      match onreadystatechange r with
      | no_handler => (Returned, t1)
      | parse_handler => parseResponse depth fuel id t1
      | counting_handler =>
          (* If we receive two or more readyState==3 events, there is no
             need to poll. *)
          let t2 :=
            if readyState x =? 3 then
              let n := S (dataUpdateEvents r) in
              let t' := on_reader id (set_dataUpdateEvents n) t1 in
              if (2 <=? n)%nat then
                on_reader id (set_handler parse_handler)
                          (with_pollingMode false t')
              else t'
            else t1 in
          parseResponse depth fuel id t2
      end
  end.

(** The polling interval of the request [id] fires. *)
Definition poll (depth fuel : nat) (id : nat) (t : HTTPTunnel)
  : outcome * HTTPTunnel :=
  match get_reader id t with
  | Some r =>
      match interval r with
      | Some true => parseResponse depth fuel id t
      | _ => (Returned, t)
      end
  | None => (Returned, t)
  end.

(** [this.connect]. *)
Definition connect (data : jsstring) (t : HTTPTunnel) : HTTPTunnel :=
  (* Start waiting for connect *)
  let t1 := reset_timeout t in
  (* Mark the tunnel as connecting *)
  let t2 := on_base (setState CONNECTING) t1 in
  on_base (emit (Ev_xhr_connect data)) t2.

(** The [onreadystatechange] handler of the connect request. *)
Definition connect_readystatechange (depth fuel : nat)
    (x : XMLHttpRequest) (t : HTTPTunnel) : outcome * HTTPTunnel :=
  if negb (readyState x =? 4) then (Returned, t)
  (* If failure, throw error *)
  else if negb (status x =? 200) then (Returned, handleHTTPTunnelError x t)
  else
    let t1 := reset_timeout t in
    (* Get UUID and HTTP-specific tunnel session token from response *)
    let t2 := on_base (setUUID (uuid_string (responseText x))) t1 in
    let t3 := with_token (tunnel_token_header x) t2 in
    (* Fail connect attempt if token is not successfully assigned *)
    match tunnelSessionToken t3 with
    | Some (_ :: _) =>
        (* Mark as open *)
        let t4 := on_base (setState OPEN) t3 in
        (* Ping tunnel endpoint regularly to test connection stability *)
        let t5 :=
          with_pingInterval true
            (if pingInterval t4 then S (orphan_intervals t4)
             else orphan_intervals t4)
            t4 in
        (* Start reading data *)
        let '(id, t6) := makeRequest t5 in
        handleResponse depth fuel id t6
    | _ =>
        (Returned,
         close_tunnel {| Base.code := Num UPSTREAM_NOT_FOUND;
                         message := None |} t3)
    end.

Definition server_timeout : Status :=
  {| Base.code := Num UPSTREAM_TIMEOUT;
     message := Some (str "Server timeout.") |}.

(** The callbacks of the two timeouts set by [reset_timeout], and of the
    ping interval. *)
Definition receive_timeout_fired (t : HTTPTunnel) : HTTPTunnel :=
  close_tunnel server_timeout (with_timeouts false (unstableTimeout t) t).

Definition unstableTimeout_fired (t : HTTPTunnel) : HTTPTunnel :=
  on_base (setState UNSTABLE) (with_timeouts (receive_timeout t) false t).

Definition sendPing (t : HTTPTunnel) : HTTPTunnel :=
  sendMessage [str "nop"] t.

(** What can happen to a tunnel: calls of its methods by the
    application, events of its requests, and timers. *)
Inductive input :=
| Connect (data : jsstring)
| Disconnect
| SendMessage (arguments : list jsstring)
| ConnectEvent (x : XMLHttpRequest)
| WriteEvent (x : XMLHttpRequest)
| ReadEvent (id : nat) (x : XMLHttpRequest)
| Poll (id : nat)
| ReceiveTimeout
| UnstableTimeout
| PingInterval.

Definition step (depth fuel : nat) (i : input) (t : HTTPTunnel)
  : outcome * HTTPTunnel :=
  match i with
  | Connect data => (Returned, connect data t)
  | Disconnect => (Returned, disconnect t)
  | SendMessage arguments => (Returned, sendMessage arguments t)
  | ConnectEvent x => connect_readystatechange depth fuel x t
  | WriteEvent x => (Returned, write_readystatechange x t)
  | ReadEvent id x => read_readystatechange depth fuel id x t
  | Poll id => poll depth fuel id t
  | ReceiveTimeout =>
      if receive_timeout t then (Returned, receive_timeout_fired t)
      else (Returned, t)
  | UnstableTimeout =>
      if unstableTimeout t then (Returned, unstableTimeout_fired t)
      else (Returned, t)
  | PingInterval =>
      if pingInterval t || negb (orphan_intervals t =? 0)%nat
      then (Returned, sendPing t) else (Returned, t)
  end.

Fixpoint run (depth fuel : nat) (inputs : list input) (t : HTTPTunnel)
  : list outcome * HTTPTunnel :=
  match inputs with
  | [] => ([], t)
  | i :: rest =>
      match step depth fuel i t with
      | (Hang, t1) => ([Hang], t1)
      | (r, t1) =>
          let '(rs, t2) := run depth fuel rest t1 in (r :: rs, t2)
      end
  end.
End Methods.

End HTTP.

(** ** Guacamole.StaticHTTPTunnel *)

Module Static.
Import JS Base Codec.

(** [Guacamole.Parser] is defined in Parser.js, which is not part of the
    sources.  The tunnel only creates a parser, feeds it text with
    [receive], and is called back through [parser.oninstruction] for the
    instructions the parser reports: the parser is taken as a parameter. *)
Class Parser := {
  parser_state : Type;
  new_Parser : parser_state;
  receive : parser_state -> jsstring -> parser_state * list instruction
}.

Section Methods.
Context {codes : StatusCode} {P : Parser}.

(** [xhr] is [None] for [null] and otherwise names the request of the
    latest [connect]; [offset] and [parser] are the variables of that
    call of [connect].  [abort()] is recorded when a request is
    disposed of; an aborted request raises no further event. *)
Record StaticHTTPTunnel := {
  base : Tunnel;
  xhr : option nat;
  connects : nat;
  offset : Z;
  parser : parser_state
}.

Definition new_StaticHTTPTunnel (b : Tunnel) : StaticHTTPTunnel :=
  {| base := b; xhr := None; connects := 0%nat; offset := 0;
     parser := new_Parser |}.

Definition on_base (f : Tunnel -> Tunnel) (t : StaticHTTPTunnel)
  : StaticHTTPTunnel :=
  {| base := f (base t); xhr := xhr t; connects := connects t;
     offset := offset t; parser := parser t |}.

Definition with_xhr (x : option nat) (n : nat) (t : StaticHTTPTunnel)
  : StaticHTTPTunnel :=
  {| base := base t; xhr := x; connects := n;
     offset := offset t; parser := parser t |}.

Definition with_parser (o : Z) (p : parser_state) (t : StaticHTTPTunnel)
  : StaticHTTPTunnel :=
  {| base := base t; xhr := xhr t; connects := connects t;
     offset := o; parser := p |}.

(** [this.sendMessage]: do nothing. *)
Definition sendMessage (elements : list jsstring) (t : StaticHTTPTunnel)
  : StaticHTTPTunnel := t.

(** [this.disconnect]. *)
Definition disconnect (t : StaticHTTPTunnel) : StaticHTTPTunnel :=
  (* Abort and dispose of XHR if a request is in progress *)
  let t1 :=
    match xhr t with
    | Some id =>
        with_xhr None (connects t) (on_base (emit (Ev_xhr_abort id)) t)
    | None => t
    end in
  (* Connection is now closed *)
  on_base (setState CLOSED) t1.

(** [this.connect]. *)
Definition connect (data : jsstring) (t : StaticHTTPTunnel)
  : StaticHTTPTunnel :=
  (* Ensure any existing connection is killed *)
  let t1 := disconnect t in
  (* Connection is now starting *)
  let t2 := on_base (setState CONNECTING) t1 in
  (* Start a new connection *)
  let id := connects t2 in
  let t3 :=
    on_base (emit (Ev_xhr_static id)) (with_xhr (Some id) (S id) t2) in
  with_parser 0 new_Parser t3.

(** [parser.oninstruction], the function [instructionReceived]. *)
Definition instructionReceived (opcode : jsstring) (args : list jsstring)
    (t : StaticHTTPTunnel) : StaticHTTPTunnel :=
  if oninstruction (base t)
  then on_base (emit (Ev_oninstruction opcode args)) t else t.

Definition report (l : list instruction) (t : StaticHTTPTunnel)
  : StaticHTTPTunnel :=
  fold_left (fun t i => instructionReceived (fst i) (snd i) t) l t.

(** [xhr.onreadystatechange], the function [readyStateChanged], when the
    request has the given [readyState] and [responseText]. *)
Definition readyStateChanged (readyState : Z) (responseText : jsstring)
    (t : StaticHTTPTunnel) : StaticHTTPTunnel :=
  let t3 :=
    (* Parse while data is being received *)
    if (readyState =? 3) || (readyState =? 4) then
      (* Connection is open *)
      let t1 := on_base (setState OPEN) t in
      let buffer := responseText in
      let length := jslength buffer in
      (* Parse only the portion of data which is newly received *)
      if offset t1 <? length then
        let '(p, l) :=
          receive (parser t1)
                  (substring buffer (Num (offset t1)) undefined) in
        with_parser length p (report l t1)
      else t1
    else t in
  (* Clean up and close when done *)
  if readyState =? 4 then disconnect t3 else t3.

(** [xhr.onerror], the function [httpError]. *)
Definition httpError (status : Z) (statusText : jsstring)
    (t : StaticHTTPTunnel) : StaticHTTPTunnel :=
  let t1 :=
    if onerror (base t) then
      on_base (emit (Ev_onerror
                       {| code := Num (fromHTTPCode status);
                          message := Some statusText |})) t
    else t in
  disconnect t1.

Inductive input :=
| Connect (data : jsstring)
| Disconnect
| SendMessage (elements : list jsstring)
| ReadyStateChange (readyState : Z) (responseText : jsstring)
| HttpError (status : Z) (statusText : jsstring).

(** Events of the request need a request in progress. *)
Definition step (i : input) (t : StaticHTTPTunnel) : StaticHTTPTunnel :=
  match i with
  | Connect data => connect data t
  | Disconnect => disconnect t
  | SendMessage elements => sendMessage elements t
  | ReadyStateChange rs text =>
      match xhr t with
      | Some _ => readyStateChanged rs text t
      | None => t
      end
  | HttpError status statusText =>
      match xhr t with
      | Some _ => httpError status statusText t
      | None => t
      end
  end.

Definition run (inputs : list input) (t : StaticHTTPTunnel)
  : StaticHTTPTunnel :=
  fold_left (fun t i => step i t) inputs t.
End Methods.

End Static.

(** ** Guacamole.ChainedTunnel *)

Module Chained.
Import JS Base Codec.

(** What a callback slot of a wrapped tunnel can hold: nothing, a function
    of the application (taken over from a slot of the chained tunnel), or
    the function [attach] has put there. *)
Inductive callback :=
| cb_null
| cb_app (f : nat)
| cb_wrapper.

Definition of_slot (s : option nat) : callback :=
  match s with
  | Some f => cb_app f
  | None => cb_null
  end.

(** The fields of a wrapped tunnel the chained tunnel reads or writes. *)
Record wrapped := {
  w_uuid : uuid_value;
  w_onuuid : callback;
  w_onerror : callback;
  w_onstatechange : callback;
  w_oninstruction : callback
}.

(** Calls of the application's functions, named by a number, and calls of
    the methods of the wrapped tunnels, named by their position among the
    arguments of the constructor. *)
Inductive event :=
| App_onstatechange (f : nat) (s : State)
| App_oninstruction (f : nat) (opcode : jsstring) (elements : list jsstring)
| App_onerror (f : nat) (st : Status)
| App_onerror_code (f : nat) (code : Z) (message : jsstring)
| App_onuuid (f : nat) (u : uuid_value)
| Tunnel_connect (t : nat) (data : option jsstring)
| Tunnel_disconnect (t : nat)
| Tunnel_sendMessage (t : nat) (arguments : list jsstring).

(** The chained tunnel: its inherited [uuid] and callback slots, its
    private variables, the tunnels whose methods [disconnect] and
    [sendMessage] currently are, and the wrapped tunnels themselves.
    [connect_data] is [None] while undefined. *)
Record ChainedTunnel := {
  uuid : uuid_value;
  onuuid : option nat;
  onerror : option nat;
  onstatechange : option nat;
  oninstruction : option nat;
  connect_data : option jsstring;
  tunnels : list nat;
  committedTunnel : option nat;
  disconnect_of : option nat;
  sendMessage_of : option nat;
  objects : nat -> wrapped;
  trace : list event
}.

Definition new_wrapped : wrapped :=
  {| w_uuid := uuid_null; w_onuuid := cb_null; w_onerror := cb_null;
     w_onstatechange := cb_null; w_oninstruction := cb_null |}.

(** [new Guacamole.ChainedTunnel(t0, ..., tn-1)], then the application
    installs its handlers. *)
Definition new_ChainedTunnel (n : nat)
    (h_uuid h_error h_state h_instruction : option nat) : ChainedTunnel :=
  {| uuid := uuid_null; onuuid := h_uuid; onerror := h_error;
     onstatechange := h_state; oninstruction := h_instruction;
     connect_data := None; tunnels := List.seq 0 n; committedTunnel := None;
     disconnect_of := None; sendMessage_of := None;
     objects := fun _ => new_wrapped; trace := [] |}.

Definition emit (e : event) (c : ChainedTunnel) : ChainedTunnel :=
  {| uuid := uuid c; onuuid := onuuid c; onerror := onerror c;
     onstatechange := onstatechange c; oninstruction := oninstruction c;
     connect_data := connect_data c; tunnels := tunnels c;
     committedTunnel := committedTunnel c;
     disconnect_of := disconnect_of c; sendMessage_of := sendMessage_of c;
     objects := objects c; trace := trace c ++ [e] |}.

Definition with_uuid (u : uuid_value) (c : ChainedTunnel) : ChainedTunnel :=
  {| uuid := u; onuuid := onuuid c; onerror := onerror c;
     onstatechange := onstatechange c; oninstruction := oninstruction c;
     connect_data := connect_data c; tunnels := tunnels c;
     committedTunnel := committedTunnel c;
     disconnect_of := disconnect_of c; sendMessage_of := sendMessage_of c;
     objects := objects c; trace := trace c |}.

Definition with_connect_data (d : option jsstring) (c : ChainedTunnel)
  : ChainedTunnel :=
  {| uuid := uuid c; onuuid := onuuid c; onerror := onerror c;
     onstatechange := onstatechange c; oninstruction := oninstruction c;
     connect_data := d; tunnels := tunnels c;
     committedTunnel := committedTunnel c;
     disconnect_of := disconnect_of c; sendMessage_of := sendMessage_of c;
     objects := objects c; trace := trace c |}.

Definition with_tunnels (l : list nat) (c : ChainedTunnel) : ChainedTunnel :=
  {| uuid := uuid c; onuuid := onuuid c; onerror := onerror c;
     onstatechange := onstatechange c; oninstruction := oninstruction c;
     connect_data := connect_data c; tunnels := l;
     committedTunnel := committedTunnel c;
     disconnect_of := disconnect_of c; sendMessage_of := sendMessage_of c;
     objects := objects c; trace := trace c |}.

Definition with_committedTunnel (t : option nat) (c : ChainedTunnel)
  : ChainedTunnel :=
  {| uuid := uuid c; onuuid := onuuid c; onerror := onerror c;
     onstatechange := onstatechange c; oninstruction := oninstruction c;
     connect_data := connect_data c; tunnels := tunnels c;
     committedTunnel := t;
     disconnect_of := disconnect_of c; sendMessage_of := sendMessage_of c;
     objects := objects c; trace := trace c |}.

Definition with_methods (t : option nat) (c : ChainedTunnel)
  : ChainedTunnel :=
  {| uuid := uuid c; onuuid := onuuid c; onerror := onerror c;
     onstatechange := onstatechange c; oninstruction := oninstruction c;
     connect_data := connect_data c; tunnels := tunnels c;
     committedTunnel := committedTunnel c;
     disconnect_of := t; sendMessage_of := t;
     objects := objects c; trace := trace c |}.

Definition on_object (t : nat) (f : wrapped -> wrapped) (c : ChainedTunnel)
  : ChainedTunnel :=
  {| uuid := uuid c; onuuid := onuuid c; onerror := onerror c;
     onstatechange := onstatechange c; oninstruction := oninstruction c;
     connect_data := connect_data c; tunnels := tunnels c;
     committedTunnel := committedTunnel c;
     disconnect_of := disconnect_of c; sendMessage_of := sendMessage_of c;
     objects := fun n => if Nat.eqb n t then f (objects c n) else objects c n;
     trace := trace c |}.

Section Methods.
Context {codes : StatusCode}.

(** [chained_tunnel.setUUID]. *)
Definition setUUID (u : uuid_value) (c : ChainedTunnel) : ChainedTunnel :=
  let c1 := with_uuid u c in
  match onuuid c1 with
  | Some f => emit (App_onuuid f u) c1
  | None => c1
  end.

(** [attach(tunnel)]: the three wrappers are stored in the slots of
    [tunnel], then [tunnel.connect(connect_data)] is called. *)
Definition attach (tunnel : nat) (c : ChainedTunnel) : ChainedTunnel :=
  (* Set own functions to tunnel's functions *)
  let c1 := with_methods (Some tunnel) c in
  let c2 :=
    on_object tunnel
      (fun w => {| w_uuid := w_uuid w; w_onuuid := w_onuuid w;
                   w_onerror := cb_wrapper;
                   w_onstatechange := cb_wrapper;
                   w_oninstruction := cb_wrapper |})
      c1 in
  (* Attempt connection *)
  emit (Tunnel_connect tunnel (connect_data c2)) c2.

(** [failTunnel(status)] of the call [attach(tunnel)]; the result is the
    next tunnel, if any. *)
Definition failTunnel (tunnel : nat) (status : option Status)
    (c : ChainedTunnel) : option nat * ChainedTunnel :=
  (* Do not attempt to continue using next tunnel on server timeout *)
  if match status with
     | Some st => code_is st UPSTREAM_TIMEOUT
     | None => false
     end
  then (None, with_tunnels [] c)
  else
    (* Get next tunnel *)
    match tunnels c with
    | next_tunnel :: rest =>
        let c1 := with_tunnels rest c in
        (* If there IS a next tunnel, try using it. *)
        let c2 :=
          on_object tunnel
            (fun w => {| w_uuid := w_uuid w; w_onuuid := w_onuuid w;
                         w_onerror := cb_null;
                         w_onstatechange := cb_null;
                         w_oninstruction := cb_null |})
            c1 in
        (Some next_tunnel, attach next_tunnel c2)
    | [] => (None, c)
    end.

(** [commit_tunnel()] of the call [attach(tunnel)]. *)
Definition commit_tunnel (tunnel : nat) (c : ChainedTunnel)
  : ChainedTunnel :=
  let c1 :=
    on_object tunnel
      (fun w => {| w_uuid := w_uuid w;
                   w_onuuid := of_slot (onuuid c);
                   w_onerror := of_slot (onerror c);
                   w_onstatechange := of_slot (onstatechange c);
                   w_oninstruction := of_slot (oninstruction c) |})
      c in
  (* Assign UUID if already known *)
  let c2 :=
    if uuid_truthy (w_uuid (objects c1 tunnel))
    then setUUID (w_uuid (objects c1 tunnel)) c1 else c1 in
  with_committedTunnel (Some tunnel) c2.

(** The wrapper stored in [tunnel.onstatechange]. *)
Definition wrapper_onstatechange (tunnel : nat) (s : State)
    (c : ChainedTunnel) : ChainedTunnel :=
  match s with
  (* If open, use this tunnel from this point forward. *)
  | OPEN =>
      let c1 := commit_tunnel tunnel c in
      match onstatechange c1 with
      | Some f => emit (App_onstatechange f s) c1
      | None => c1
      end
  (* If closed, mark failure, attempt next tunnel *)
  | CLOSED =>
      let '(next, c1) := failTunnel tunnel None c in
      match next, onstatechange c1 with
      | None, Some f => emit (App_onstatechange f s) c1
      | _, _ => c1
      end
  | _ => c
  end.

(** The wrapper stored in [tunnel.oninstruction]. *)
Definition wrapper_oninstruction (tunnel : nat) (opcode : jsstring)
    (elements : list jsstring) (c : ChainedTunnel) : ChainedTunnel :=
  (* Accept current tunnel *)
  let c1 := commit_tunnel tunnel c in
  (* Invoke handler *)
  match oninstruction c1 with
  | Some f => emit (App_oninstruction f opcode elements) c1
  | None => c1
  end.

(** The wrapper stored in [tunnel.onerror]. *)
Definition wrapper_onerror (tunnel : nat) (status : Status)
    (c : ChainedTunnel) : ChainedTunnel :=
  (* Mark failure, attempt next tunnel *)
  let '(next, c1) := failTunnel tunnel (Some status) c in
  match next, onerror c1 with
  | None, Some f => emit (App_onerror f status) c1
  | _, _ => c1
  end.

(** [this.connect]. *)
Definition connect (data : option jsstring) (c : ChainedTunnel)
  : ChainedTunnel :=
  (* Remember connect data *)
  let c1 := with_connect_data data c in
  (* Get committed tunnel if exists or the first tunnel on the list *)
  match committedTunnel c1 with
  | Some t => attach t c1
  | None =>
      match tunnels c1 with
      | next_tunnel :: rest => attach next_tunnel (with_tunnels rest c1)
      | [] =>
          (* If there IS no first tunnel, error *)
          match onerror c1 with
          | Some f =>
              emit (App_onerror_code f SERVER_ERROR
                                     (str "No tunnels to try.")) c1
          | None => c1
          end
      end
  end.

(** [this.disconnect] and [this.sendMessage]: the inherited functions,
    which do nothing, until [attach] replaces them. *)
Definition disconnect (c : ChainedTunnel) : ChainedTunnel :=
  match disconnect_of c with
  | Some t => emit (Tunnel_disconnect t) c
  | None => c
  end.

Definition sendMessage (arguments : list jsstring) (c : ChainedTunnel)
  : ChainedTunnel :=
  match sendMessage_of c with
  | Some t => emit (Tunnel_sendMessage t arguments) c
  | None => c
  end.

(** A wrapped tunnel calls one of its callback slots, as [setState],
    [setUUID] and the tunnel implementations do, if the slot is not
    empty. *)
Definition tunnel_onstatechange (t : nat) (s : State) (c : ChainedTunnel)
  : ChainedTunnel :=
  match w_onstatechange (objects c t) with
  | cb_null => c
  | cb_app f => emit (App_onstatechange f s) c
  | cb_wrapper => wrapper_onstatechange t s c
  end.

Definition tunnel_oninstruction (t : nat) (opcode : jsstring)
    (elements : list jsstring) (c : ChainedTunnel) : ChainedTunnel :=
  match w_oninstruction (objects c t) with
  | cb_null => c
  | cb_app f => emit (App_oninstruction f opcode elements) c
  | cb_wrapper => wrapper_oninstruction t opcode elements c
  end.

Definition tunnel_onerror (t : nat) (status : Status) (c : ChainedTunnel)
  : ChainedTunnel :=
  match w_onerror (objects c t) with
  | cb_null => c
  | cb_app f => emit (App_onerror f status) c
  | cb_wrapper => wrapper_onerror t status c
  end.

(** [setUUID] of a wrapped tunnel. *)
Definition tunnel_setUUID (t : nat) (u : uuid_value) (c : ChainedTunnel)
  : ChainedTunnel :=
  let c1 :=
    on_object t
      (fun w => {| w_uuid := u; w_onuuid := w_onuuid w;
                   w_onerror := w_onerror w;
                   w_onstatechange := w_onstatechange w;
                   w_oninstruction := w_oninstruction w |})
      c in
  match w_onuuid (objects c1 t) with
  | cb_app f => emit (App_onuuid f u) c1
  | _ => c1
  end.

Inductive input :=
| Connect (data : option jsstring)
| Disconnect
| SendMessage (arguments : list jsstring)
| StateChange (t : nat) (s : State)
| Instruction (t : nat) (opcode : jsstring) (elements : list jsstring)
| Error (t : nat) (status : Status)
| UUID (t : nat) (u : uuid_value).

Definition step (i : input) (c : ChainedTunnel) : ChainedTunnel :=
  match i with
  | Connect data => connect data c
  | Disconnect => disconnect c
  | SendMessage arguments => sendMessage arguments c
  | StateChange t s => tunnel_onstatechange t s c
  | Instruction t opcode elements => tunnel_oninstruction t opcode elements c
  | Error t status => tunnel_onerror t status c
  | UUID t u => tunnel_setUUID t u c
  end.

Definition run (inputs : list input) (c : ChainedTunnel) : ChainedTunnel :=
  fold_left (fun c i => step i c) inputs c.
End Methods.

End Chained.

(** ** Vocabulary of the statements *)

Module Spec.
Import JS Base Codec.

(** Decimal digits and the number they write. *)
Definition is_decimal (c : ascii) : Prop :=
  In c ["0"; "1"; "2"; "3"; "4"; "5"; "6"; "7"; "8"; "9"]%char.

Definition decimal_value (c : ascii) : Z := Z.of_nat (nat_of_ascii c) - 48.

Definition decimal_number (acc : Z) (ds : jsstring) : Z :=
  fold_left (fun a c => a * 10 + decimal_value c) ds acc.

(** The parser of [parseResponse] while the element [e], which follows
    [pre] in the response, is awaited, and once a whole response holding
    one instruction has been read. *)
Definition pending (pre e : jsstring) (acc : list jsstring) : parser :=
  {| elementEnd := Num (jslength pre + jslength (getElement e));
     startIndex :=
       Num (jslength pre + jslength (Number_toString (List.length e)) + 1);
     elements := acc |}.

Definition finished (current : jsstring) : parser :=
  {| elementEnd := Num (jslength current - 1);
     startIndex := Num (jslength current);
     elements := [] |}.

(** A table of status codes with distinct constants, to run the model on
    examples. *)
Definition example_codes : StatusCode :=
  {| SUCCESS := 0; SERVER_ERROR := 512; UPSTREAM_TIMEOUT := 514;
     UPSTREAM_NOT_FOUND := 519; RESOURCE_NOT_FOUND := 516;
     fromHTTPCode := fun status => if status =? 404 then 516 else 512;
     fromWebSocketCode := fun code => if code =? 1000 then 0 else 512 |}.

(** Modelled from the spec: [Guacamole.Parser] (Parser.js is not part of
    the sources), "a stateful, resumable parser that accepts successive
    chunks" and, "each time a complete instruction (terminated by [;]) is
    assembled, yields it in order before continuing to parse remaining
    buffered bytes"; an element is [<decimal-length>.<payload>], elements
    are separated by [,].  The state is the text received and not yet
    attributed to a complete element, and the elements of the instruction
    being assembled. *)
Fixpoint spec_parse (fuel : nat) (buffer : jsstring)
    (elements : list jsstring) (out : list instruction)
  : (jsstring * list jsstring) * list instruction :=
  match fuel with
  | O => ((buffer, elements), out)
  | S fuel' =>
      let lengthEnd := indexOf "."%char buffer (Num 0) in
      if lengthEnd =? -1 then ((buffer, elements), out)
      else
        match parseInt (substring buffer (Num 0) (Num lengthEnd)) with
        | Num len =>
            let start := lengthEnd + 1 in
            if (0 <=? len) && (start + len <? jslength buffer) then
              let element :=
                substring buffer (Num start) (Num (start + len)) in
              let terminator :=
                substring buffer (Num (start + len))
                          (Num (start + len + 1)) in
              let rest := substring buffer (Num (start + len + 1)) undefined in
              if jsstring_eqb terminator [";"%char] then
                match elements ++ [element] with
                | opcode :: args =>
                    spec_parse fuel' rest [] (out ++ [(opcode, args)])
                | [] => spec_parse fuel' rest [] out
                end
              else spec_parse fuel' rest (elements ++ [element]) out
            else ((buffer, elements), out)
        | _ => ((buffer, elements), out)
        end
  end.

Definition spec_Parser : Static.Parser :=
  {| Static.parser_state := (jsstring * list jsstring)%type;
     Static.new_Parser := ([], []);
     Static.receive := fun st chunk =>
       spec_parse (S (List.length (fst st ++ chunk))) (fst st ++ chunk)
                  (snd st) [] |}.

(** [grows P l l']: the trace [l'] is [l] followed by events that all
    satisfy [P]. *)
Definition grows (P : event -> Prop) (l l' : list event) : Prop :=
  exists new, l' = l ++ new /\ Forall P new.

(** An event that is not the delivery of an instruction with an empty
    opcode. *)
Definition not_internal (e : event) : Prop :=
  match e with
  | Ev_oninstruction opcode _ => opcode <> []
  | _ => True
  end.

(** An event that is not the delivery of an instruction. *)
Definition not_instruction (e : event) : Prop :=
  match e with
  | Ev_oninstruction _ _ => False
  | _ => True
  end.

(** A WebSocket tunnel that is open on its first socket and knows its
    UUID, with all four handlers installed. *)
Definition open_socket_tunnel : WS.WebSocketTunnel :=
  {| WS.base :=
       {| state := OPEN; uuid := uuid_string (str "uuid");
          onuuid := true; onerror := true; onstatechange := true;
          oninstruction := true; trace := [] |};
     WS.socket := Some 0%nat; WS.sockets := 1%nat;
     WS.receive_timeout := true; WS.unstableTimeout := true;
     WS.pingInterval := true; WS.orphan_intervals := 0%nat |}.

(** Inputs of a chained tunnel that are not calls of its [connect] and
    that, when they come from a wrapped tunnel, come from [t]. *)
Definition from_tunnel (t : nat) (i : Chained.input) : Prop :=
  match i with
  | Chained.Connect _ => False
  | Chained.Disconnect | Chained.SendMessage _ => True
  | Chained.StateChange t' _ | Chained.Instruction t' _ _
  | Chained.Error t' _ | Chained.UUID t' _ => t' = t
  end.

(** An event of a chained tunnel that is not a call of [connect] on a
    wrapped tunnel. *)
Definition not_connect (e : Chained.event) : Prop :=
  match e with
  | Chained.Tunnel_connect _ _ => False
  | _ => True
  end.

(** [attached c t]: the three slots of [t] hold the functions stored by
    [attach]. *)
Definition attached (c : Chained.ChainedTunnel) (t : nat) : Prop :=
  Chained.w_onerror (Chained.objects c t) = Chained.cb_wrapper
  /\ Chained.w_onstatechange (Chained.objects c t) = Chained.cb_wrapper
  /\ Chained.w_oninstruction (Chained.objects c t) = Chained.cb_wrapper.

(** [rewired c c' t]: in [c'], the four slots of [t] hold what the slots of
    the chained tunnel [c] hold. *)
Definition rewired (c c' : Chained.ChainedTunnel) (t : nat) : Prop :=
  Chained.w_onstatechange (Chained.objects c' t)
  = Chained.of_slot (Chained.onstatechange c)
  /\ Chained.w_oninstruction (Chained.objects c' t)
     = Chained.of_slot (Chained.oninstruction c)
  /\ Chained.w_onerror (Chained.objects c' t)
     = Chained.of_slot (Chained.onerror c)
  /\ Chained.w_onuuid (Chained.objects c' t)
     = Chained.of_slot (Chained.onuuid c).

(** [cgrows P l l']: the same as [grows], for the events of a chained
    tunnel. *)
Definition cgrows (P : Chained.event -> Prop) (l l' : list Chained.event) : Prop :=
  exists new, l' = l ++ new /\ Forall P new.

(** [bypassing t tl c]: [t] is committed, [tl] are the tunnels not yet
    tried, and no slot of [t] holds a function stored by [attach]. *)
Definition bypassing (t : nat) (tl : list nat) (c : Chained.ChainedTunnel) : Prop :=
  Chained.committedTunnel c = Some t
  /\ Chained.tunnels c = tl
  /\ Chained.w_onstatechange (Chained.objects c t) <> Chained.cb_wrapper
  /\ Chained.w_oninstruction (Chained.objects c t) <> Chained.cb_wrapper
  /\ Chained.w_onerror (Chained.objects c t) <> Chained.cb_wrapper.

(** *** The parse loop of [parseResponse], by parts

    What an iteration computes from the text and the parser alone: the
    element taken, with the instruction it completes, and the outcome of
    the search for the next length. *)
Definition take (current : jsstring) (p : parser)
  : option instruction * parser :=
  if ge (elementEnd p) (startIndex p) then
    let element := substring current (startIndex p) (elementEnd p) in
    let terminator :=
      substring current (elementEnd p) (add (elementEnd p) (Num 1)) in
    let elements1 := elements p ++ [element] in
    let next elements2 :=
      {| elementEnd := elementEnd p;
         startIndex := add (elementEnd p) (Num 1);
         elements := elements2 |} in
    if jsstring_eqb terminator [";"%char] then
      match elements1 with
      | opcode :: rest => (Some (opcode, rest), next [])
      | [] => (None, next [])
      end
    else (None, next elements1)
  else (None, p).

Inductive found :=
| end_marker
| next_element (p : parser)
| no_period (p : parser).

Definition search (current : jsstring) (p1 : parser) : found :=
  let lengthEnd := indexOf "."%char current (startIndex p1) in
  if negb (lengthEnd =? -1) then
    let length :=
      parseInt (substring current (add (elementEnd p1) (Num 1))
                          (Num lengthEnd)) in
    if is_num length 0 then end_marker
    else
      let start := Num (lengthEnd + 1) in
      next_element {| elementEnd := add start length;
                      startIndex := start;
                      elements := elements p1 |}
  else
    no_period {| elementEnd := elementEnd p1;
                 startIndex := Num (jslength current);
                 elements := elements p1 |}.

(** The rest of an iteration, once the pending element is taken. *)
Definition after_take {T : Type}
    (handle : jsstring -> list jsstring -> T -> outcome * T)
    (end_of_response : T -> outcome * T)
    (fuel : nat) (current : jsstring) (p1 : parser) (t1 : T)
  : outcome * (parser * T) :=
  match search current p1 with
  | end_marker => let '(r, t2) := end_of_response t1 in (r, (p1, t2))
  | next_element p2 =>
      response_loop handle end_of_response fuel current p2 t1
  | no_period p2 => (Returned, (p2, t1))
  end.

(** A list of instructions handed over one after the other. *)
Definition deliver_all {T : Type}
    (deliver : jsstring -> list jsstring -> T -> T)
    (l : list instruction) (t : T) : T :=
  fold_left (fun t i => deliver (fst i) (snd i) t) l t.

(** The hooks that make [response_decode]. *)
Definition collect_instruction (opcode : jsstring) (args : list jsstring)
    (s : list instruction * bool) : outcome * (list instruction * bool) :=
  (Returned, (fst s ++ [(opcode, args)], snd s)).

Definition mark_end (s : list instruction * bool)
  : outcome * (list instruction * bool) :=
  (Returned, (fst s, true)).

(** [prefix l l']: the trace [l'] starts with [l]. *)
Definition prefix (l l' : list event) : Prop := exists new, l' = l ++ new.

(** *** Read requests made ahead

    [pre_issued t m n]: the request [n] was made by [parseResponse] while
    it served the request [m].  [ended m t]: the end marker of the response
    of [m] has been handled, which aborts [m].  [untouched r]: nothing has
    been done with the request since [makeRequest], except by the
    browser. *)
Definition pre_issued (t : HTTP.HTTPTunnel) (m n : nat) : Prop :=
  exists rm, HTTP.get_reader m t = Some rm /\ HTTP.nextRequest rm = Some n.

Definition ended (m : nat) (t : HTTP.HTTPTunnel) : Prop :=
  In (Ev_xhr_abort m) (trace (HTTP.base t)).

Definition untouched (r : HTTP.reader) : Prop :=
  HTTP.onreadystatechange r = HTTP.no_handler
  /\ HTTP.interval r = None
  /\ HTTP.parse r = new_parser.

Record read_ahead (t : HTTP.HTTPTunnel) : Prop := {
  next_in_range :
    forall m n, pre_issued t m n -> (n < HTTP.request_id t)%nat;
  next_unique :
    forall m m' n, pre_issued t m n -> pre_issued t m' n -> m = m';
  next_waits :
    forall m n rn,
      pre_issued t m n -> HTTP.get_reader n t = Some rn ->
      untouched rn \/ ended m t
}.

(** [active id t]: every request that made [id] ahead has ended. *)
Definition active (id : nat) (t : HTTP.HTTPTunnel) : Prop :=
  forall m, pre_issued t m id -> ended m t.

(** [touches id t t']: from [t] to [t'] the trace has only grown, no
    request was made, and no reader but that of [id] has changed, which
    has kept its [nextRequest]. *)
Definition touches (id : nat) (t t' : HTTP.HTTPTunnel) : Prop :=
  prefix (trace (HTTP.base t)) (trace (HTTP.base t'))
  /\ HTTP.request_id t' = HTTP.request_id t
  /\ (forall j, j <> id -> HTTP.get_reader j t' = HTTP.get_reader j t)
  /\ (forall r, HTTP.get_reader id t = Some r ->
                exists r', HTTP.get_reader id t' = Some r'
                           /\ HTTP.nextRequest r' = HTTP.nextRequest r).

(** [keeps t t']: the trace has only grown and the requests are the
    same. *)
Definition keeps (t t' : HTTP.HTTPTunnel) : Prop :=
  prefix (trace (HTTP.base t)) (trace (HTTP.base t'))
  /\ HTTP.requests t' = HTTP.requests t.

(** The call of the instruction handler, as a function. *)
Definition deliver (opcode : jsstring) (elements : list jsstring)
    (t : HTTP.HTTPTunnel) : HTTP.HTTPTunnel :=
  if oninstruction (HTTP.base t)
  then HTTP.on_base (emit (Ev_oninstruction opcode elements)) t else t.

(** [extends t t']: the trace has only grown, requests were only added,
    and no request already there was made ahead anew. *)
Definition extends (t t' : HTTP.HTTPTunnel) : Prop :=
  prefix (trace (HTTP.base t)) (trace (HTTP.base t'))
  /\ (HTTP.request_id t <= HTTP.request_id t')%nat
  /\ (forall m j, (j < HTTP.request_id t)%nat ->
                  pre_issued t' m j -> pre_issued t m j).

(** *** [parseResponse], by parts *)

(** Start next request as soon as possible IF request was successful. *)
Definition start_next (id : nat) (r : HTTP.reader) (t : HTTP.HTTPTunnel)
  : HTTP.HTTPTunnel :=
  match HTTP.nextRequest r with
  | None =>
      if HTTP.status (HTTP.xhr r) =? 200 then
        let '(n, t') := HTTP.makeRequest t in
        HTTP.on_reader id (HTTP.set_nextRequest (Some n)) t'
      else t
  | Some _ => t
  end.

(** Also poll every 30ms. *)
Definition adjust_polling (id : nat) (r : HTTP.reader) (t2 : HTTP.HTTPTunnel)
  : HTTP.HTTPTunnel :=
  if HTTP.pollingMode t2 then
    if (HTTP.readyState (HTTP.xhr r) =? 3)
       && match HTTP.interval r with None => true | _ => false end
    then HTTP.on_reader id (HTTP.set_interval (Some true)) t2
    else if (HTTP.readyState (HTTP.xhr r) =? 4)
            && match HTTP.interval r with Some _ => true | _ => false end
    then HTTP.on_reader id HTTP.clear_interval t2
    else t2
  else t2.

(** The variables of a new call of [handleResponse]. *)
Definition reinitialise (polling : bool) (r0 : HTTP.reader) : HTTP.reader :=
  {| HTTP.xhr := HTTP.xhr r0;
     HTTP.onreadystatechange :=
       if polling then HTTP.counting_handler else HTTP.parse_handler;
     HTTP.interval := None; HTTP.nextRequest := None;
     HTTP.dataUpdateEvents := 0%nat;
     HTTP.parse := new_parser |}.

(** The request [id] is given up. *)
Definition abandon (id : nat) (t : HTTP.HTTPTunnel) : HTTP.HTTPTunnel :=
  HTTP.on_base (emit (Ev_xhr_abort id))
    (HTTP.on_reader id
       (fun r => HTTP.set_handler HTTP.no_handler (HTTP.clear_interval r))
       t).

(** What is done when the length read is zero. *)
Definition end_of_response {codes : StatusCode} (depth fuel : nat) (id : nat)
    (t : HTTP.HTTPTunnel) : outcome * HTTP.HTTPTunnel :=
  let t' := abandon id t in
  match HTTP.get_reader id t' with
  | Some r' =>
      match HTTP.nextRequest r' with
      | Some n =>
          HTTP.parseResponse depth fuel n
            (HTTP.on_reader n (reinitialise (HTTP.pollingMode t')) t')
      | None => (Returned, t')
      end
  | None => (Returned, t')
  end.

(** A successful response carrying [text], in the given [readyState]. *)
Definition ok_response (readyState : Z) (text : string)
  : HTTP.XMLHttpRequest :=
  {| HTTP.readyState := readyState; HTTP.status := 200;
     HTTP.statusText := str "OK"; HTTP.responseText := str text;
     HTTP.status_code_header := None; HTTP.error_message_header := None;
     HTTP.tunnel_token_header := Some (str "token") |}.

(** The state machine: CONNECTING -> OPEN <-> UNSTABLE -> CLOSED, with
    CLOSED reachable from any other state and never left. *)
Definition forward (a b : State) : bool :=
  match a, b with
  | CONNECTING, OPEN | OPEN, UNSTABLE | UNSTABLE, OPEN => true
  | CONNECTING, CLOSED | OPEN, CLOSED | UNSTABLE, CLOSED => true
  | _, _ => false
  end.

(** The states the application is notified of, in order. *)
Fixpoint state_changes (l : list event) : list State :=
  match l with
  | Ev_onstatechange s :: rest => s :: state_changes rest
  | _ :: rest => state_changes rest
  | [] => []
  end.

(** Every change of a sequence of states, started in [s], is allowed. *)
Fixpoint follows (s : State) (l : list State) : bool :=
  match l with
  | s' :: rest => forward s s' && follows s' rest
  | [] => true
  end.

(** The state [reset_timeout] leaves. *)
Definition after_data (s : State) : State :=
  match s with
  | UNSTABLE => OPEN
  | _ => s
  end.

(** The calls of the instruction handler for a list of instructions. *)
Definition deliveries (handler : bool) (l : list instruction) : list event :=
  if handler
  then map (fun i => Ev_oninstruction (fst i) (snd i)) l else [].

(** The instructions handed to the application, in order. *)
Fixpoint delivered (l : list event) : list instruction :=
  match l with
  | Ev_oninstruction opcode parameters :: rest =>
      (opcode, parameters) :: delivered rest
  | _ :: rest => delivered rest
  | [] => []
  end.

End Spec.

(** ** The URL of the WebSocket tunnel *)

(** The constructor of [Guacamole.WebSocketTunnel] turns the URL it is
    given into a WebSocket URL, with [window.location]. *)
Module URL.
Import JS.

(** [window.location].  Its [protocol] is the scheme of the page followed
    by a colon. *)
Record Location := {
  scheme : jsstring;
  host : jsstring;
  pathname : jsstring
}.

Definition protocol (l : Location) : jsstring := scheme l ++ str ":".

(** [ws_protocol[key]]: the object has the properties ["http:"] and
    ["https:"], and the value is [undefined] for another key that ends
    with a colon, as no inherited property has such a name. *)
Definition ws_protocol (key : jsstring) : option jsstring :=
  if jsstring_eqb key (str "http:") then Some (str "ws:")
  else if jsstring_eqb key (str "https:") then Some (str "wss:")
  else None.

(** A value of [ws_protocol] as an operand of [+] with a string. *)
Definition to_string (v : option jsstring) : jsstring :=
  match v with
  | Some s => s
  | None => str "undefined"
  end.

(** Index of the last [c] in [s], where the head of [s] has index [i], and
    [found] when there is none. *)
Fixpoint last_from (c : ascii) (s : jsstring) (i found : Z) : Z :=
  match s with
  | [] => found
  | x :: rest => last_from c rest (i + 1) (if Ascii.eqb x c then i else found)
  end.

(** [s.lastIndexOf(c)] for a one-character search string. *)
Definition lastIndexOf (c : ascii) (s : jsstring) : Z := last_from c s 0 (-1).

(** The value of [tunnelURL] after the constructor. *)
Definition resolve (location : Location) (tunnelURL : jsstring) : jsstring :=
  (* If not already a websocket URL *)
  if negb (jsstring_eqb (substring tunnelURL (Num 0) (Num 3)) (str "ws:"))
     && negb (jsstring_eqb (substring tunnelURL (Num 0) (Num 4)) (str "wss:"))
  then
    let protocol := ws_protocol (protocol location) in
    (* If absolute URL, convert to absolute WS URL *)
    if jsstring_eqb (substring tunnelURL (Num 0) (Num 1)) (str "/") then
      to_string protocol ++ str "//" ++ host location ++ tunnelURL
    (* Otherwise, construct absolute from relative URL *)
    else
      (* Get path from pathname *)
      let slash := lastIndexOf "/"%char (pathname location) in
      let path := substring (pathname location) (Num 0) (Num (slash + 1)) in
      (* Construct absolute URL *)
      to_string protocol ++ str "//" ++ host location ++ path ++ tunnelURL
  else tunnelURL.

End URL.

(** ** Vocabulary of the further properties *)

Module Views.
Import JS Base Codec Spec.

(** The text of a list of instructions, each as [sendMessage] builds it. *)
Definition wire (l : list instruction) : jsstring :=
  flat_map (fun i => encode (fst i) (snd i)) l.

(** The number of elements of a list of instructions. *)
Definition elements_count (l : list instruction) : nat :=
  fold_right (fun i n => (S (List.length (snd i)) + n)%nat) 0%nat l.

(** The instructions of a list handled one after the other, until one of
    them does not return. *)
Fixpoint handle_all {T : Type}
    (handle : jsstring -> list jsstring -> T -> outcome * T)
    (l : list instruction) (t : T) : outcome * T :=
  match l with
  | [] => (Returned, t)
  | i :: rest =>
      match handle (fst i) (snd i) t with
      | (Returned, t1) => handle_all handle rest t1
      | r => r
      end
  end.

(** The parser of [parseResponse] between two elements, after the text
    [pre]. *)
Definition waiting (pre : jsstring) (acc : list jsstring) : parser :=
  {| elementEnd := Num (jslength pre - 1);
     startIndex := Num (jslength pre);
     elements := acc |}.

(** An instruction without empty element. *)
Definition no_empty_element (i : instruction) : Prop :=
  fst i <> [] /\ Forall (fun x => x <> []) (snd i).

(** The elements [es], each followed by a comma, and then the length
    [n] announced for a last element of which only [payload] is there. *)
Definition cut_short (es : list jsstring) (n : nat) (payload : jsstring)
  : jsstring :=
  flat_map (fun e => getElement e ++ [","%char]) es
  ++ Number_toString n ++ "."%char :: payload.

(** A WebSocket tunnel that has a socket. *)
Definition has_socket (t : WS.WebSocketTunnel) : Prop := WS.socket t <> None.

(** A WebSocket tunnel that knows its UUID [u] and is not connected. *)
Definition settled (u : uuid_value) (t : WS.WebSocketTunnel) : Prop :=
  uuid (WS.base t) = u /\ u <> uuid_null
  /\ isConnected (WS.base t) = false.

(** The tunnel [i] of a chain fails: it reports the error [st i] and
    then closes. *)
Definition fails (st : nat -> Status) (i : nat) : list Chained.input :=
  [Chained.Error i (st i); Chained.StateChange i CLOSED].

(** The tunnel of the last call of [connect] made by a chain. *)
Fixpoint last_connected (l : list Chained.event) : option nat :=
  match l with
  | [] => None
  | e :: rest =>
      match last_connected rest, e with
      | Some t, _ => Some t
      | None, Chained.Tunnel_connect t _ => Some t
      | None, _ => None
      end
  end.

(** What the application is told when the last tunnel of a chain has
    failed with [st]. *)
Definition last_failure (h_error h_state : option nat) (st : Status)
  : list Chained.event :=
  match h_error with
  | Some f => [Chained.App_onerror f st]
  | None => []
  end
  ++ match h_state with
     | Some f => [Chained.App_onstatechange f CLOSED]
     | None => []
     end.

(** [trying c0 c t rest tr]: in the chain [c] the tunnel [t] is attached,
    the tunnels [rest] are left, the trace is [tr], and the connect data
    and the handlers are those of [c0]. *)
Definition trying (c0 c : Chained.ChainedTunnel) (t : nat)
    (rest : list nat) (tr : list Chained.event) : Prop :=
  attached c t /\ Chained.tunnels c = rest /\ Chained.trace c = tr
  /\ Chained.connect_data c = Chained.connect_data c0
  /\ Chained.onerror c = Chained.onerror c0
  /\ Chained.onstatechange c = Chained.onstatechange c0.

(** The methods [disconnect] and [sendMessage] of the chain are those of
    the tunnel connected last. *)
Definition delegating (c : Chained.ChainedTunnel) : Prop :=
  Chained.disconnect_of c = last_connected (Chained.trace c)
  /\ Chained.sendMessage_of c = last_connected (Chained.trace c).

(** What the application is told when [connect] finds no tunnel. *)
Definition no_tunnels {codes : StatusCode} (h_error : option nat)
  : list Chained.event :=
  match h_error with
  | Some f =>
      [Chained.App_onerror_code f SERVER_ERROR (str "No tunnels to try.")]
  | None => []
  end.

(** [starts_with p s]: the text [s] begins with [p]. *)
Definition starts_with (p s : jsstring) : bool :=
  jsstring_eqb (firstn (List.length p) s) p.

(** A URL that the constructor of the WebSocket tunnel takes for a
    WebSocket URL. *)
Definition websocket_url (url : jsstring) : bool :=
  starts_with (str "ws:") url || starts_with (str "wss:") url.

(** The texts that a request shows, one after the other, while a response
    arrives in [chunks] after the text [seen]. *)
Fixpoint growing (seen : jsstring) (chunks : list jsstring)
  : list jsstring :=
  match chunks with
  | [] => []
  | c :: chunks' => (seen ++ c) :: growing (seen ++ c) chunks'
  end.

(** The parser [p] after it has received the chunks that are not empty,
    each once and in order, and the instructions it has reported. *)
Fixpoint fed {P : Static.Parser} (p : Static.parser_state)
    (chunks : list jsstring) : Static.parser_state * list instruction :=
  match chunks with
  | [] => (p, [])
  | [] :: chunks' => fed p chunks'
  | c :: chunks' =>
      let '(p1, l1) := Static.receive p c in
      let '(p2, l2) := fed p1 chunks' in
      (p2, l1 ++ l2)
  end.

(** *** Properties kept by the HTTP tunnel

    [stable P]: the property [P] of the tunnel is kept by every single
    change the tunnel makes to itself while it handles an event, the
    addition of a message to the output buffer and the arrival of data on
    a request apart. *)
Record stable (P : HTTP.HTTPTunnel -> Prop) : Prop := {
  stable_setState :
    forall s t, P t -> P (HTTP.on_base (setState s) t);
  stable_setUUID :
    forall u t, P t -> P (HTTP.on_base (setUUID u) t);
  stable_onerror :
    forall st t, P t -> P (HTTP.on_base (emit (Ev_onerror st)) t);
  stable_oninstruction :
    forall o a t, P t -> P (HTTP.on_base (emit (Ev_oninstruction o a)) t);
  stable_abort :
    forall id t, P t -> P (HTTP.on_base (emit (Ev_xhr_abort id)) t);
  stable_connect :
    forall d t, P t -> P (HTTP.on_base (emit (Ev_xhr_connect d)) t);
  stable_timeouts :
    forall r u t, P t -> P (HTTP.with_timeouts r u t);
  stable_pingInterval :
    forall p o t, P t -> P (HTTP.with_pingInterval p o t);
  stable_token :
    forall k t, P t -> P (HTTP.with_token k t);
  stable_polling :
    forall t, P t -> P (HTTP.with_pollingMode false t);
  stable_sending :
    forall b t, P t -> P (HTTP.with_output b (HTTP.outputMessageBuffer t) t);
  stable_reader :
    forall id f t,
      (forall r, HTTP.xhr (f r) = HTTP.xhr r) -> P t ->
      P (HTTP.on_reader id f t);
  stable_makeRequest :
    forall t, P t -> P (snd (HTTP.makeRequest t));
  stable_send :
    forall t, P t -> P (HTTP.sendPendingMessages t)
}.

(** [base_stable Q]: the property [Q] of the inherited fields is kept by
    [setState], by [setUUID], and by every call other than a call of the
    [onstatechange] handler. *)
Record base_stable (Q : Tunnel -> Prop) : Prop := {
  base_setState : forall s b, Q b -> Q (setState s b);
  base_setUUID : forall u b, Q b -> Q (setUUID u b);
  base_emit :
    forall e b, (forall s, e <> Ev_onstatechange s) -> Q b -> Q (emit e b)
}.

(** The states of a list differ from one to the next, the first one from
    [s]. *)
Fixpoint changing (s : State) (l : list State) : Prop :=
  match l with
  | [] => True
  | s' :: rest => s' <> s /\ changing s' rest
  end.

(** [informed init b]: the [onstatechange] handler is installed, each of
    its calls has announced a state other than the one before, [init] at
    first, and the last state announced is the state of the tunnel. *)
Definition informed (init : State) (b : Tunnel) : Prop :=
  onstatechange b = true
  /\ changing init (state_changes (trace b))
  /\ last (state_changes (trace b)) init = state b.

(** The bodies of the write requests made, one after the other. *)
Fixpoint written (l : list event) : jsstring :=
  match l with
  | Ev_xhr_write body :: rest => body ++ written rest
  | _ :: rest => written rest
  | [] => []
  end.

(** What has been sent and what waits in the output buffer. *)
Definition output (t : HTTP.HTTPTunnel) : jsstring :=
  written (trace (HTTP.base t)) ++ HTTP.outputMessageBuffer t.

(** The text an event adds to the output: the message of a call of
    [sendMessage] with arguments on a connected tunnel, and the [nop] of
    the ping interval. *)
Definition accepted (i : HTTP.input) (t : HTTP.HTTPTunnel) : jsstring :=
  match i with
  | HTTP.SendMessage (first :: others) =>
      if isConnected (HTTP.base t) then encode first others else []
  | HTTP.PingInterval =>
      if (HTTP.pingInterval t || negb (HTTP.orphan_intervals t =? 0)%nat)
         && isConnected (HTTP.base t)
      then encode (str "nop") [] else []
  | _ => []
  end.

(** The numbers of the read requests made, in order. *)
Fixpoint reads (l : list event) : list nat :=
  match l with
  | Ev_xhr_read id :: rest => id :: reads rest
  | _ :: rest => reads rest
  | [] => []
  end.

(** The read requests made so far carry the numbers 0, 1, 2, ... *)
Definition numbered (t : HTTP.HTTPTunnel) : Prop :=
  reads (trace (HTTP.base t)) = List.seq 0 (HTTP.request_id t).

(** The status [handleHTTPTunnelError] closes the tunnel with. *)
Definition error_status {codes : StatusCode} (x : HTTP.XMLHttpRequest)
  : Status :=
  let code := HTTP.header_code x in
  if HTTP.truthy code then
    {| Base.code := code; message := HTTP.error_message_header x |}
  else if negb (HTTP.status x =? 0) then
    {| Base.code := Num (fromHTTPCode (HTTP.status x));
       message := Some (HTTP.statusText x) |}
  else {| Base.code := Num UPSTREAM_NOT_FOUND; message := None |}.


(** A read request as [handleResponse] takes it over from
    [makeRequest]. *)
Definition first_reader (polling : bool) : HTTP.reader :=
  {| HTTP.xhr := HTTP.sent_request;
     HTTP.onreadystatechange :=
       if polling then HTTP.counting_handler else HTTP.parse_handler;
     HTTP.interval := None; HTTP.nextRequest := None;
     HTTP.dataUpdateEvents := 0%nat; HTTP.parse := new_parser |}.

(** The response texts of all read requests are shorter than [fuel]. *)
Definition texts_below (fuel : nat) (t : HTTP.HTTPTunnel) : Prop :=
  (0 < fuel)%nat
  /\ Forall (fun r => (List.length (HTTP.responseText (HTTP.xhr r)) < fuel)%nat)
            (HTTP.requests t).

Definition input_below (fuel : nat) (i : HTTP.input) : Prop :=
  match i with
  | HTTP.ReadEvent _ x => (List.length (HTTP.responseText x) < fuel)%nat
  | _ => True
  end.

(** What is left of the text after [startIndex]: it shrinks with every
    iteration of the loop that is followed by another one. *)
Definition remaining (c : jsstring) (p : parser) : Z :=
  jslength c - clamp (toInteger (startIndex p)) (jslength c).

End Views.

(** * Properties *)

(** ** Facts about the JavaScript primitives *)

Module JSFacts.
Import JS Spec.

Lemma jsstring_eqb_eq (a b : jsstring) : jsstring_eqb a b = true <-> a = b.
Proof.
  unfold jsstring_eqb; destruct (list_eq_dec ascii_dec a b); split;
    intros; congruence.
Qed.

Lemma jsstring_eqb_refl (a : jsstring) : jsstring_eqb a a = true.
Proof. now apply jsstring_eqb_eq. Qed.

Lemma jsstring_eqb_neq (a b : jsstring) : a <> b -> jsstring_eqb a b = false.
Proof.
  intro H; unfold jsstring_eqb; destruct (list_eq_dec ascii_dec a b);
    congruence.
Qed.

Lemma jslength_app (a b : jsstring) :
  jslength (a ++ b) = jslength a + jslength b.
Proof. unfold jslength; rewrite length_app; lia. Qed.

Lemma jslength_nonneg (a : jsstring) : 0 <= jslength a.
Proof. unfold jslength; lia. Qed.

(** The part of a string between two positions given by lengths. *)
Lemma substring_middle (a b c : jsstring) :
  substring (a ++ b ++ c) (Num (jslength a)) (Num (jslength a + jslength b))
  = b.
Proof.
  unfold substring, clamp; cbn [toInteger].
  rewrite !jslength_app.
  pose proof (jslength_nonneg a); pose proof (jslength_nonneg b);
    pose proof (jslength_nonneg c).
  replace (Z.min (Z.max (jslength a) 0) (jslength a + (jslength b + jslength c)))
    with (jslength a) by lia.
  replace (Z.min (Z.max (jslength a + jslength b) 0)
                 (jslength a + (jslength b + jslength c)))
    with (jslength a + jslength b) by lia.
  replace (Z.min (jslength a) (jslength a + jslength b))
    with (jslength a) by lia.
  replace (Z.max (jslength a) (jslength a + jslength b) - jslength a)
    with (jslength b) by lia.
  unfold jslength; rewrite !Nat2Z.id.
  rewrite skipn_app, skipn_all, Nat.sub_diag; cbn [skipn app].
  rewrite firstn_app, firstn_all, Nat.sub_diag; cbn [firstn].
  now rewrite app_nil_r.
Qed.

(** The first [c] after a prefix and a run of other characters. *)
Lemma find_from_skip (c : ascii) (ds rest : jsstring) (i : Z) :
  Forall (fun x => x <> c) ds ->
  find_from c (ds ++ c :: rest) i = i + jslength ds.
Proof.
  intros H; revert i; induction H as [|x ds Hx _ IH]; intros i; cbn.
  - rewrite Ascii.eqb_refl; unfold jslength; cbn; lia.
  - destruct (Ascii.eqb_spec x c) as [->|_]; [congruence|].
    rewrite IH; unfold jslength; cbn [List.length]; lia.
Qed.

Lemma indexOf_skip (c : ascii) (a ds rest : jsstring) :
  Forall (fun x => x <> c) ds ->
  indexOf c (a ++ ds ++ c :: rest) (Num (jslength a))
  = jslength a + jslength ds.
Proof.
  intros H; unfold indexOf, clamp; cbn [toInteger].
  rewrite !jslength_app.
  pose proof (jslength_nonneg a); pose proof (jslength_nonneg ds);
    pose proof (jslength_nonneg (c :: rest)).
  replace (Z.min (Z.max (jslength a) 0)
                 (jslength a + (jslength ds + jslength (c :: rest))))
    with (jslength a) by lia.
  unfold jslength at 1; rewrite Nat2Z.id.
  rewrite skipn_app, skipn_all, Nat.sub_diag; cbn [skipn app].
  now apply find_from_skip.
Qed.

Lemma find_from_none (c : ascii) (s : jsstring) (i : Z) :
  Forall (fun x => x <> c) s -> find_from c s i = -1.
Proof.
  intros H; revert i; induction H as [|x s Hx _ IH]; intros i; cbn; auto.
  destruct (Ascii.eqb_spec x c); [congruence|auto].
Qed.

(** *** Decimal digits *)

Ltac decimal_cases H :=
  unfold is_decimal in H; cbn [In] in H;
  repeat (destruct H as [H|H]; [subst|]); [..|contradiction].

Lemma digit_char_decimal (d : nat) :
  (d < 10)%nat ->
  is_decimal (digit_char d) /\ decimal_value (digit_char d) = Z.of_nat d.
Proof.
  intros H.
  do 10 (destruct d as [|d]; [split; [cbn; tauto|reflexivity]|]).
  lia.
Qed.

Lemma digit_value_decimal (c : ascii) :
  is_decimal c -> digit_value 10 c = Some (decimal_value c).
Proof. intros H; decimal_cases H; reflexivity. Qed.

Lemma decimal_not_period (c : ascii) : is_decimal c -> c <> "."%char.
Proof. intros H; decimal_cases H; discriminate. Qed.

Lemma is_whitespace_decimal (c : ascii) :
  is_decimal c -> is_whitespace c = false.
Proof. intros H; decimal_cases H; reflexivity. Qed.

Lemma parse_digits_decimal (ds rest : jsstring) (acc : Z) (seen : bool) :
  Forall is_decimal ds ->
  parse_digits 10 (ds ++ rest) acc seen
  = parse_digits 10 rest (decimal_number acc ds)
                 (seen || negb (Nat.eqb (List.length ds) 0)).
Proof.
  intros H; revert acc seen; induction H as [|c ds Hc _ IH]; intros acc seen.
  - cbn; now rewrite orb_false_r.
  - cbn [app parse_digits]; rewrite (digit_value_decimal c Hc), IH.
    cbn; now rewrite orb_true_r.
Qed.

(** [parseInt] on a non-empty string of decimal digits reads it in base
    10: there is no white space, no sign and no hexadecimal prefix. *)
Lemma parseInt_decimal (ds : jsstring) :
  ds <> [] -> Forall is_decimal ds ->
  parseInt ds = Num (decimal_number 0 ds).
Proof.
  intros Hne H.
  assert (E : parse_digits 10 ds 0 false = Some (decimal_number 0 ds)).
  { rewrite <- (app_nil_r ds) at 1; rewrite parse_digits_decimal by assumption.
    cbn; destruct ds; [congruence|reflexivity]. }
  destruct ds as [|c1 ds]; [congruence|].
  inversion H as [|? ? H1 H2]; subst.
  unfold parseInt; cbn [trim_start].
  rewrite (is_whitespace_decimal c1 H1).
  destruct ds as [|c2 ds].
  - decimal_cases H1; reflexivity.
  - inversion H2 as [|? ? H3 _]; subst.
    decimal_cases H1; decimal_cases H3; cbv beta iota; rewrite E;
      (destruct (decimal_number 0 _); reflexivity).
Qed.

Lemma digits_of_spec (fuel n : nat) (acc : jsstring) :
  (n < fuel)%nat ->
  exists ds, digits_of fuel n acc = ds ++ acc /\ ds <> []
             /\ Forall is_decimal ds
             /\ decimal_number 0 ds = Z.of_nat n.
Proof.
  revert n acc; induction fuel as [|fuel IH]; intros n acc Hn; [lia|].
  cbn [digits_of].
  assert (Hm : (n mod 10 < 10)%nat) by (apply Nat.mod_upper_bound; lia).
  destruct (digit_char_decimal _ Hm) as [Hd Hv].
  destruct (Nat.ltb_spec n 10) as [Hlt|Hge].
  - exists [digit_char (n mod 10)]; repeat split; auto; try discriminate.
    unfold decimal_number; cbn [fold_left].
    rewrite Hv, Nat.mod_small by assumption; lia.
  - assert (Hq : (n / 10 < fuel)%nat).
    { pose proof (Nat.div_lt n 10); lia. }
    destruct (IH (n / 10)%nat (digit_char (n mod 10) :: acc) Hq)
      as (ds & E & Hne & Hall & Hval).
    exists (ds ++ [digit_char (n mod 10)]); repeat split.
    + now rewrite E, <- app_assoc.
    + destruct ds; discriminate.
    + apply Forall_app; split; auto.
    + unfold decimal_number in *; rewrite fold_left_app; cbn [fold_left].
      rewrite Hval, Hv.
      rewrite (Nat.div_mod_eq n 10) at 3; lia.
Qed.

Lemma Number_toString_spec (n : nat) :
  Number_toString n <> [] /\ Forall is_decimal (Number_toString n)
  /\ parseInt (Number_toString n) = Num (Z.of_nat n).
Proof.
  unfold Number_toString.
  destruct (digits_of_spec (S n) n [] (Nat.lt_succ_diag_r n))
    as (ds & E & Hne & Hall & Hval).
  rewrite E, app_nil_r; repeat split; auto.
  now rewrite parseInt_decimal, Hval.
Qed.

End JSFacts.

(** ** The codec: encoding then decoding *)

Module CodecFacts.
Import JS Base Codec Spec JSFacts.

Lemma substring_between (a b c : jsstring) (s : jsnum) (x y : Z) :
  toInteger s = jslength a -> y = jslength a + jslength b -> x = y ->
  substring (a ++ b ++ c) s (Num x) = b.
Proof.
  intros Hs -> ->.
  transitivity (substring (a ++ b ++ c) (Num (jslength a))
                          (Num (jslength a + jslength b))).
  - unfold substring; rewrite Hs; reflexivity.
  - apply substring_middle.
Qed.

Lemma encode_nil (e : jsstring) : encode e [] = getElement e ++ [";"%char].
Proof. reflexivity. Qed.

Lemma encode_cons (e e' : jsstring) (es : list jsstring) :
  encode e (e' :: es) = getElement e ++ ","%char :: encode e' es.
Proof.
  unfold encode; cbn [fold_left].
  assert (G : forall l x y,
             fold_left (fun message a => message ++ ","%char :: getElement a)
                       l (x ++ y)
             = x ++ fold_left
                      (fun message a => message ++ ","%char :: getElement a)
                      l y).
  { induction l as [|a l IH]; intros x y; cbn [fold_left]; auto.
    now rewrite <- app_assoc, IH. }
  change (getElement e ++ ","%char :: getElement e')
    with (getElement e ++ [","%char] ++ getElement e').
  rewrite G, <- !app_assoc; cbn [app].
  change (","%char :: getElement e') with ([","%char] ++ getElement e').
  now rewrite G, <- app_assoc.
Qed.

Lemma encode_shape (e : jsstring) (es : list jsstring) :
  exists c tail, encode e es = getElement e ++ c :: tail.
Proof.
  destruct es as [|e' es].
  - exists ";"%char, []; apply encode_nil.
  - exists ","%char, (encode e' es); apply encode_cons.
Qed.

Lemma encode_not_nil (e : jsstring) (es : list jsstring) : encode e es <> [].
Proof.
  unfold encode; intros H; apply app_eq_nil in H; destruct H; discriminate.
Qed.

(** *** One element on the wire

    In [pre ++ getElement e ++ post], with the search starting after
    [pre]: the period found is the one of the element, the text before it
    reads as the length of [e], and the characters after it are [e] and
    then the first character of [post]. *)
Section Element.
Variables pre e post : jsstring.
Let digits := Number_toString (List.length e).
Let message := pre ++ getElement e ++ post.

Lemma element_message :
  message = pre ++ digits ++ "."%char :: e ++ post.
Proof.
  unfold message, getElement, digits. now rewrite <- app_assoc.
Qed.

Lemma element_lengthEnd :
  indexOf "."%char message (Num (jslength pre))
  = jslength pre + jslength digits.
Proof.
  rewrite element_message; apply indexOf_skip.
  destruct (Number_toString_spec (List.length e)) as (_ & H & _).
  eapply Forall_impl; [|exact H]; apply decimal_not_period.
Qed.

Lemma element_length (s : jsnum) (x : Z) :
  toInteger s = jslength pre -> x = jslength pre + jslength digits ->
  parseInt (substring message s (Num x)) = Num (jslength e).
Proof.
  intros Hs Hx; rewrite element_message.
  rewrite (substring_between pre digits _ s x x) by auto.
  apply Number_toString_spec.
Qed.

Lemma element_value (x y : Z) :
  x = jslength pre + jslength digits + 1 -> y = x + jslength e ->
  substring message (Num x) (Num y) = e.
Proof.
  intros Hx Hy; rewrite element_message.
  change (pre ++ digits ++ "."%char :: e ++ post)
    with (pre ++ digits ++ ["."%char] ++ e ++ post).
  rewrite !app_assoc, <- (app_assoc _ e post).
  apply (substring_between _ e post (Num x) y y); auto.
  - cbn [toInteger]; rewrite !jslength_app; subst x.
    change (jslength ["."%char]) with 1; lia.
  - rewrite !jslength_app; change (jslength ["."%char]) with 1; lia.
Qed.

Lemma element_terminator (c : ascii) (tail : jsstring) (x y : Z) :
  post = c :: tail ->
  x = jslength pre + jslength digits + 1 + jslength e -> y = x + 1 ->
  substring message (Num x) (Num y) = [c].
Proof.
  intros Hp Hx Hy; rewrite element_message, Hp.
  change (pre ++ digits ++ "."%char :: e ++ c :: tail)
    with (pre ++ digits ++ ["."%char] ++ e ++ [c] ++ tail).
  rewrite !app_assoc, <- (app_assoc _ [c] tail).
  apply (substring_between _ [c] tail (Num x) y y); auto.
  - cbn [toInteger]; rewrite !jslength_app; subst x.
    change (jslength ["."%char]) with 1; lia.
  - rewrite !jslength_app; change (jslength ["."%char]) with 1.
    change (jslength [c]) with 1; lia.
Qed.

Lemma element_jslength :
  jslength message
  = jslength pre + jslength digits + 1 + jslength e + jslength post.
Proof.
  rewrite element_message.
  change (pre ++ digits ++ "."%char :: e ++ post)
    with (pre ++ digits ++ ["."%char] ++ e ++ post).
  rewrite !jslength_app; change (jslength ["."%char]) with 1; lia.
Qed.
End Element.

Lemma getElement_jslength (e : jsstring) :
  jslength (getElement e)
  = jslength (Number_toString (List.length e)) + 1 + jslength e.
Proof.
  unfold getElement.
  change (Number_toString (List.length e) ++ "."%char :: e)
    with (Number_toString (List.length e) ++ ["."%char] ++ e).
  rewrite !jslength_app; change (jslength ["."%char]) with 1; lia.
Qed.

End CodecFacts.
Module SocketDecoder.
Import JS Base Codec Spec JSFacts CodecFacts.

Section Loop.
Context {T : Type}.
Variable no_period : T -> outcome * T.
Variable handle : jsstring -> list jsstring -> T -> outcome * T.

(** One iteration on a well-formed element followed by a character. *)
Lemma message_loop_element (pre e : jsstring) (c : ascii) (tail : jsstring)
    (ee : jsnum) (acc : list jsstring) (fuel : nat) (t : T) :
  toInteger (add ee (Num 1)) = jslength pre ->
  let message := pre ++ getElement e ++ c :: tail in
  let elementEnd1 := jslength pre + jslength (getElement e) in
  message_loop no_period handle (S fuel) message (Num (jslength pre)) ee
               acc t
  = if jsstring_eqb [c] [";"%char] then
      match acc ++ [e] with
      | opcode :: rest =>
          match handle opcode rest t with
          | (Returned, t') =>
              if lt (Num (elementEnd1 + 1)) (Num (jslength message)) then
                message_loop no_period handle fuel message
                             (Num (elementEnd1 + 1)) (Num elementEnd1) [] t'
              else (Returned, t')
          | r => r
          end
      | [] => (Returned, t)
      end
    else if lt (Num (elementEnd1 + 1)) (Num (jslength message)) then
      message_loop no_period handle fuel message
                   (Num (elementEnd1 + 1)) (Num elementEnd1) (acc ++ [e]) t
    else (Returned, t).
Proof.
  intros Hee message elementEnd1; subst message elementEnd1.
  rewrite getElement_jslength.
  cbn [message_loop].
  rewrite (element_lengthEnd pre e (c :: tail)).
  pose proof (jslength_nonneg pre);
    pose proof (jslength_nonneg (Number_toString (List.length e))).
  replace (negb (jslength pre
                 + jslength (Number_toString (List.length e)) =? -1))
    with true by (symmetry; apply negb_true_iff, Z.eqb_neq; lia).
  cbv beta iota.
  rewrite (element_length pre e (c :: tail) _ _ Hee eq_refl).
  cbn [add].
  rewrite (element_value pre e (c :: tail) _ _ eq_refl eq_refl).
  rewrite (element_terminator pre e (c :: tail) c tail _ _ eq_refl eq_refl
                              eq_refl).
  replace (jslength pre
           + (jslength (Number_toString (List.length e)) + 1 + jslength e))
    with (jslength pre + jslength (Number_toString (List.length e)) + 1
          + jslength e) by lia.
  destruct (jsstring_eqb [c] [";"%char]).
  - destruct (acc ++ [e]) as [|opcode rest] eqn:E.
    + destruct acc; discriminate.
    + destruct (handle opcode rest t) as [[] t']; reflexivity.
  - reflexivity.
Qed.

Lemma message_loop_elements (es : list jsstring) :
  forall (e pre : jsstring) (ee : jsnum) (acc : list jsstring)
         (fuel : nat) (t : T),
    toInteger (add ee (Num 1)) = jslength pre ->
    (List.length es < fuel)%nat ->
    message_loop no_period handle fuel (pre ++ encode e es)
                 (Num (jslength pre)) ee acc t
    = match acc ++ e :: es with
      | opcode :: rest => handle opcode rest t
      | [] => (Returned, t)
      end.
Proof.
  induction es as [|e' es IH]; intros e pre ee acc fuel t Hee Hfuel;
    (destruct fuel as [|fuel]; [cbn in Hfuel; lia|]).
  - rewrite encode_nil, message_loop_element by assumption.
    rewrite jsstring_eqb_refl.
    destruct (acc ++ [e]) as [|opcode rest]; [reflexivity|].
    replace (lt _ _) with false.
    + destruct (handle opcode rest t) as [[] t']; reflexivity.
    + cbn [lt]; symmetry; apply Z.ltb_ge.
      rewrite !jslength_app; change (jslength [";"%char]) with 1; lia.
  - rewrite encode_cons, message_loop_element by assumption.
    rewrite jsstring_eqb_neq by discriminate.
    replace (lt _ _) with true.
    + replace (jslength pre + jslength (getElement e) + 1)
        with (jslength ((pre ++ getElement e ++ [","%char]))).
      2:{ rewrite !jslength_app; change (jslength [","%char]) with 1; lia. }
      replace (pre ++ getElement e ++ ","%char :: encode e' es)
        with ((pre ++ getElement e ++ [","%char]) ++ encode e' es)
        by (now rewrite <- !app_assoc).
      rewrite IH.
      * now rewrite <- app_assoc.
      * cbn [add toInteger]; rewrite !jslength_app;
          change (jslength [","%char]) with 1; lia.
      * cbn [List.length] in Hfuel; lia.
    + cbn [lt]; symmetry; apply Z.ltb_lt.
      rewrite !jslength_app.
      change (","%char :: encode e' es) with ([","%char] ++ encode e' es).
      rewrite jslength_app; change (jslength [","%char]) with 1.
      pose proof (encode_not_nil e' es).
      unfold jslength at 5; destruct (encode e' es); [congruence|].
      cbn [List.length]; lia.
Qed.
End Loop.

(** Decoding an encoded instruction with the loop of [socket.onmessage]. *)
Lemma socket_decode_encode (opcode : jsstring) (args : list jsstring)
    (fuel : nat) :
  (List.length args < fuel)%nat ->
  socket_decode fuel (encode opcode args) = (Returned, [(opcode, args)]).
Proof.
  intros Hfuel; unfold socket_decode.
  change (encode opcode args) with ([] ++ encode opcode args).
  change (Num 0) with (Num (jslength [])).
  now rewrite message_loop_elements.
Qed.

End SocketDecoder.

Module ResponseDecoder.
Import JS Base Codec Spec JSFacts CodecFacts.

Lemma indexOf_end (c : ascii) (s : jsstring) :
  indexOf c s (Num (jslength s)) = -1.
Proof.
  unfold indexOf, clamp; cbn [toInteger].
  pose proof (jslength_nonneg s).
  replace (Z.min (Z.max (jslength s) 0) (jslength s)) with (jslength s) by lia.
  unfold jslength; rewrite Nat2Z.id, skipn_all; reflexivity.
Qed.

Section Loop.
Context {T : Type}.
Variable handle : jsstring -> list jsstring -> T -> outcome * T.
Variable end_of_response : T -> outcome * T.

(** One iteration with the element [e] pending and its terminator
    received: the element is taken, and a complete instruction handled. *)
Lemma response_loop_element (pre e : jsstring) (c : ascii)
    (tail : jsstring) (acc : list jsstring) (fuel : nat) (t : T) :
  let current := pre ++ getElement e ++ c :: tail in
  let elementEnd1 := jslength pre + jslength (getElement e) in
  response_loop handle end_of_response (S fuel) current (pending pre e acc) t
  = let '(r1, elements1, t1) :=
      if jsstring_eqb [c] [";"%char] then
        match acc ++ [e] with
        | opcode :: rest =>
            let '(r, t') := handle opcode rest t in (r, [], t')
        | [] => (Returned, [], t)
        end
      else (Returned, acc ++ [e], t) in
    let p1 := {| elementEnd := Num elementEnd1;
                 startIndex := Num (elementEnd1 + 1);
                 elements := elements1 |} in
    match r1 with
    | Returned =>
        let lengthEnd := indexOf "."%char current (Num (elementEnd1 + 1)) in
        if negb (lengthEnd =? -1) then
          let length :=
            parseInt (substring current (Num (elementEnd1 + 1))
                                (Num lengthEnd)) in
          if is_num length 0 then
            let '(r, t2) := end_of_response t1 in (r, (p1, t2))
          else
            response_loop handle end_of_response fuel current
              {| elementEnd := add (Num (lengthEnd + 1)) length;
                 startIndex := Num (lengthEnd + 1);
                 elements := elements1 |}
              t1
        else
          (Returned,
           ({| elementEnd := Num elementEnd1;
               startIndex := Num (jslength current);
               elements := elements1 |}, t1))
    | _ => (r1, (p1, t1))
    end.
Proof.
  intros current elementEnd1; subst current elementEnd1.
  unfold pending; cbn [response_loop elementEnd startIndex elements].
  rewrite getElement_jslength.
  pose proof (jslength_nonneg pre);
    pose proof (jslength_nonneg (Number_toString (List.length e)));
    pose proof (jslength_nonneg e); pose proof (jslength_nonneg tail).
  replace (lt _ _) with true.
  2:{ cbn [lt]; symmetry; apply Z.ltb_lt.
      rewrite (element_jslength pre e (c :: tail)).
      change (c :: tail) with ([c] ++ tail); rewrite jslength_app.
      change (jslength [c]) with 1; lia. }
  replace (ge _ _) with true
    by (cbn [ge]; symmetry; apply Z.leb_le; lia).
  cbn [add].
  rewrite (element_value pre e (c :: tail) _ _ eq_refl) by lia.
  rewrite (element_terminator pre e (c :: tail) c tail _ _ eq_refl)
    by lia.
  destruct (jsstring_eqb [c] [";"%char]).
  - destruct (acc ++ [e]) as [|opcode rest] eqn:E.
    + destruct acc; discriminate.
    + destruct (handle opcode rest t) as [[] t']; reflexivity.
  - reflexivity.
Qed.

(** The search for the length in front of an element that is not empty
    finds it and leaves the element pending. *)
Lemma search_element (e : jsstring) (es : list jsstring) (pre : jsstring)
    (acc : list jsstring) (fuel : nat) (t : T) (p1 : parser) :
  e <> [] ->
  let current := pre ++ encode e es in
  (let lengthEnd := indexOf "."%char current (Num (jslength pre)) in
   if negb (lengthEnd =? -1) then
     let length :=
       parseInt (substring current (Num (jslength pre)) (Num lengthEnd)) in
     if is_num length 0 then
       let '(r, t2) := end_of_response t in (r, (p1, t2))
     else
       response_loop handle end_of_response fuel current
         {| elementEnd := add (Num (lengthEnd + 1)) length;
            startIndex := Num (lengthEnd + 1);
            elements := acc |}
         t
   else
     (Returned,
      ({| elementEnd := elementEnd p1;
          startIndex := Num (jslength current);
          elements := acc |}, t)))
  = response_loop handle end_of_response fuel current (pending pre e acc) t.
Proof.
  intros He current; subst current; cbv zeta.
  destruct (encode_shape e es) as (c & tail & ->).
  rewrite (element_lengthEnd pre e (c :: tail)).
  pose proof (jslength_nonneg pre);
    pose proof (jslength_nonneg (Number_toString (List.length e))).
  replace (negb (jslength pre
                 + jslength (Number_toString (List.length e)) =? -1))
    with true by (symmetry; apply negb_true_iff, Z.eqb_neq; lia).
  rewrite (element_length pre e (c :: tail) (Num (jslength pre)) _
                          eq_refl eq_refl).
  replace (is_num (Num (jslength e)) 0) with false.
  2:{ cbn [is_num]; symmetry; apply Z.eqb_neq.
      unfold jslength; destruct e; [congruence|cbn [List.length]; lia]. }
  unfold pending; cbn [add]; rewrite getElement_jslength.
  do 3 f_equal; lia.
Qed.

Lemma response_loop_elements (es : list jsstring) :
  forall (e pre : jsstring) (acc : list jsstring) (fuel : nat) (t : T),
    Forall (fun x => x <> []) es ->
    (List.length es < fuel)%nat ->
    response_loop handle end_of_response fuel (pre ++ encode e es)
                  (pending pre e acc) t
    = match acc ++ e :: es with
      | opcode :: rest =>
          let '(r, t') := handle opcode rest t in
          (r, (finished (pre ++ encode e es), t'))
      | [] => (Returned, (finished (pre ++ encode e es), t))
      end.
Proof.
  induction es as [|e' es IH]; intros e pre acc fuel t Hne Hfuel;
    (destruct fuel as [|fuel]; [cbn in Hfuel; lia|]).
  - rewrite encode_nil, response_loop_element.
    rewrite jsstring_eqb_refl.
    assert (L : jslength (pre ++ getElement e ++ [";"%char])
                = jslength pre + jslength (getElement e) + 1).
    { rewrite !jslength_app; change (jslength [";"%char]) with 1; lia. }
    destruct (acc ++ [e]) as [|opcode rest] eqn:E;
      [destruct acc; discriminate|].
    destruct (handle opcode rest t) as [r t']; unfold finished.
    rewrite <- L, indexOf_end; cbn [negb Z.eqb].
    replace (jslength (pre ++ getElement e ++ [";"%char]) - 1)
      with (jslength pre + jslength (getElement e)) by lia.
    destruct r; reflexivity.
  - rewrite encode_cons, response_loop_element.
    rewrite jsstring_eqb_neq by discriminate.
    cbv zeta.
    inversion Hne as [|? ? He' Hes]; subst.
    replace (pre ++ getElement e ++ ","%char :: encode e' es)
      with ((pre ++ getElement e ++ [","%char]) ++ encode e' es)
      by (now rewrite <- !app_assoc).
    replace (jslength pre + jslength (getElement e) + 1)
      with (jslength (pre ++ getElement e ++ [","%char])).
    2:{ rewrite !jslength_app; change (jslength [","%char]) with 1; lia. }
    set (pre' := pre ++ getElement e ++ [","%char]).
    rewrite search_element by assumption.
    rewrite IH by (auto; cbn [List.length] in Hfuel; lia).
    now rewrite <- app_assoc.
Qed.
End Loop.

(** Decoding an encoded instruction with the loop of [parseResponse],
    when no element is empty. *)
Lemma response_decode_encode (opcode : jsstring) (args : list jsstring)
    (fuel : nat) :
  opcode <> [] -> Forall (fun x => x <> []) args ->
  (S (List.length args) < fuel)%nat ->
  response_decode fuel (encode opcode args) new_parser
  = (Returned, (finished (encode opcode args), ([(opcode, args)], false))).
Proof.
  intros Hop Hargs Hfuel; unfold response_decode.
  destruct fuel as [|fuel]; [lia|].
  cbn [response_loop new_parser elementEnd startIndex elements].
  replace (lt _ _) with true
    by (cbn [lt]; symmetry; apply Z.ltb_lt;
        pose proof (jslength_nonneg (encode opcode args)); lia).
  cbn [ge Z.leb Z.compare add Z.add Z.opp].
  cbv beta iota.
  change (encode opcode args) with ([] ++ encode opcode args).
  change (Num 0) with (Num (jslength [])).
  rewrite (search_element _ _ opcode args [] []) by assumption.
  rewrite response_loop_elements by (auto; lia).
  reflexivity.
Qed.

End ResponseDecoder.

(** ** Encode-then-decode round trip *)

Module Roundtrip.
Import JS Base Codec Spec JSFacts CodecFacts.

(** C1, as stated, fails for the decoder of [parseResponse]: a length of
    zero ends the response there, so the instruction [a] with one empty
    argument, sent as [1.a,0.;], is never yielded, whatever the number of
    iterations allowed. *)
Lemma parseResponse_drops_empty_argument :
  ~ exists fuel,
      fst (snd (snd (response_decode fuel (encode (str "a") [str ""])
                                     new_parser)))
      = [(str "a", [str ""])].
Proof.
  intros [fuel H].
  destruct fuel as [|[|[|fuel]]]; vm_compute in H; discriminate.
Qed.

(** C1 (amended).  The text built by [sendMessage] from an opcode and
    arguments decodes to exactly that instruction: in [socket.onmessage]
    for all strings, in [parseResponse] when neither the opcode nor an
    argument is empty.  The loops need one iteration per element, and
    [parseResponse] one more.  On such a frame [socket.onmessage] as a
    whole resets the timeouts and handles that one instruction. *)
Theorem encode_decode_roundtrip {codes : StatusCode} (opcode : jsstring)
    (args : list jsstring) (fuel : nat) :
  (S (List.length args) < fuel)%nat ->
  socket_decode fuel (encode opcode args) = (Returned, [(opcode, args)])
  /\ (opcode <> [] -> Forall (fun x => x <> []) args ->
      response_decode fuel (encode opcode args) new_parser
      = (Returned,
         (finished (encode opcode args), ([(opcode, args)], false))))
  /\ (forall t : WS.WebSocketTunnel,
         WS.onmessage fuel (encode opcode args) t
         = WS.handle_instruction opcode args (WS.reset_timeout t)).
Proof.
  intros Hfuel; split; [|split].
  - apply SocketDecoder.socket_decode_encode; lia.
  - intros; now apply ResponseDecoder.response_decode_encode.
  - intros t; unfold WS.onmessage.
    change (encode opcode args) with ([] ++ encode opcode args).
    change (Num 0) with (Num (jslength [])).
    rewrite SocketDecoder.message_loop_elements; [reflexivity|reflexivity|lia].
Qed.

Lemma encode_decode_roundtrip_witness :
  socket_decode 4 (encode (str "key") [str "1,2;3."; str ""])
  = (Returned, [(str "key", [str "1,2;3."; str ""])])
  /\ response_decode 4 (encode (str "key") [str "1,2;3."; str "0"])
                     new_parser
     = (Returned,
        (finished (encode (str "key") [str "1,2;3."; str "0"]),
         ([(str "key", [str "1,2;3."; str "0"])], false))).
Proof.
  split.
  - apply (@encode_decode_roundtrip example_codes (str "key")
             [str "1,2;3."; str ""] 4).
    cbn; lia.
  - apply (@encode_decode_roundtrip example_codes (str "key")
             [str "1,2;3."; str "0"] 4).
    + cbn; lia.
    + discriminate.
    + repeat constructor; discriminate.
Defined.

End Roundtrip.

(** ** Traces *)

Module TraceFacts.
Import JS Base Codec Spec.

Lemma grows_refl (P : event -> Prop) (l : list event) : grows P l l.
Proof. exists []; split; [now rewrite app_nil_r|constructor]. Qed.

Lemma grows_trans (P : event -> Prop) (l1 l2 l3 : list event) :
  grows P l1 l2 -> grows P l2 l3 -> grows P l1 l3.
Proof.
  intros (n1 & -> & H1) (n2 & -> & H2); exists (n1 ++ n2); split.
  - now rewrite app_assoc.
  - now apply Forall_app.
Qed.

Lemma grows_one (P : event -> Prop) (l : list event) (e : event) :
  P e -> grows P l (l ++ [e]).
Proof. intros H; exists [e]; split; auto. Qed.

Lemma grows_weaken (P Q : event -> Prop) (l l' : list event) :
  (forall e, P e -> Q e) -> grows P l l' -> grows Q l l'.
Proof.
  intros H (n & -> & Hn); exists n; split; auto.
  eapply Forall_impl; eauto.
Qed.

Lemma setState_grows (P : event -> Prop) (s : State) (b : Tunnel) :
  P (Ev_onstatechange s) -> grows P (trace b) (trace (setState s b)).
Proof.
  intros H; unfold setState.
  destruct (negb (State_eqb s (state b))); [|apply grows_refl].
  cbn; destruct (onstatechange b); [now apply grows_one|apply grows_refl].
Qed.

Lemma setUUID_grows (P : event -> Prop) (u : uuid_value) (b : Tunnel) :
  P (Ev_onuuid u) -> grows P (trace b) (trace (setUUID u b)).
Proof.
  intros H; unfold setUUID; cbn.
  destruct (onuuid b); [now apply grows_one|apply grows_refl].
Qed.

Lemma setState_state (s : State) (b : Tunnel) : state (setState s b) = s.
Proof.
  unfold setState; destruct (State_eqb s (state b)) eqn:E; cbn.
  - destruct s, (state b); try discriminate; reflexivity.
  - destruct (onstatechange b); reflexivity.
Qed.

Lemma State_eqb_eq (a b : State) : State_eqb a b = true <-> a = b.
Proof. destruct a, b; cbn; split; congruence. Qed.

Lemma State_eqb_refl (a : State) : State_eqb a a = true.
Proof. now destruct a. Qed.

Lemma setState_same (b : Tunnel) : setState (state b) b = b.
Proof. unfold setState; now rewrite State_eqb_refl. Qed.

(** A loop whose hooks keep a preorder keeps it. *)
Lemma message_loop_preserves {T : Type} (R : T -> T -> Prop)
    (no_period : T -> outcome * T)
    (handle : jsstring -> list jsstring -> T -> outcome * T) :
  (forall t, R t t) ->
  (forall t1 t2 t3, R t1 t2 -> R t2 t3 -> R t1 t3) ->
  (forall t, R t (snd (no_period t))) ->
  (forall opcode elements t, R t (snd (handle opcode elements t))) ->
  forall fuel message startIndex elementEnd elements t,
    R t (snd (message_loop no_period handle fuel message startIndex
                           elementEnd elements t)).
Proof.
  intros Hrefl Htrans Hno Hhandle.
  induction fuel as [|fuel IH]; intros message si ee els t;
    cbn [message_loop]; [apply Hrefl|].
  destruct (negb (indexOf "."%char message si =? -1)).
  - match goal with
    | |- context [jsstring_eqb ?a ?b] => destruct (jsstring_eqb a b)
    end.
    + match goal with
      | |- context [match ?l with [] => _ | _ :: _ => _ end] =>
          destruct l as [|opcode rest]
      end.
      * destruct (lt _ _); [apply IH|apply Hrefl].
      * specialize (Hhandle opcode rest t).
        destruct (handle opcode rest t) as [[] t']; cbn [snd] in *; auto.
        destruct (lt _ _); [|exact Hhandle].
        eapply Htrans; [exact Hhandle|apply IH].
    + destruct (lt _ _); [apply IH|apply Hrefl].
  - specialize (Hno t).
    destruct (no_period t) as [[] t1]; cbn [snd] in *; auto.
    match goal with
    | |- context [jsstring_eqb ?a ?b] => destruct (jsstring_eqb a b)
    end.
    + match goal with
      | |- context [match ?l with [] => _ | _ :: _ => _ end] =>
          destruct l as [|opcode rest]
      end.
      * destruct (lt _ _); [|exact Hno].
        eapply Htrans; [exact Hno|apply IH].
      * specialize (Hhandle opcode rest t1).
        destruct (handle opcode rest t1) as [[] t']; cbn [snd] in *;
          try (eapply Htrans; [exact Hno|exact Hhandle]).
        destruct (lt _ _); [|eapply Htrans; [exact Hno|exact Hhandle]].
        eapply Htrans; [exact Hno|].
        eapply Htrans; [exact Hhandle|apply IH].
    + destruct (lt _ _); [|exact Hno].
      eapply Htrans; [exact Hno|apply IH].
Qed.

End TraceFacts.

(** ** The WebSocket tunnel *)

Module WSFacts.
Import JS Base Codec Spec JSFacts TraceFacts.
Import WS.

Section Facts.
Context {codes : StatusCode}.

Lemma reset_timeout_grows (P : event -> Prop) (t : WebSocketTunnel) :
(forall s, P (Ev_onstatechange s)) ->
grows P (trace (base t)) (trace (base (reset_timeout t))).
Proof.
intros H; unfold reset_timeout; cbn.
destruct (State_eqb (state (base t)) UNSTABLE); cbn;
  [now apply setState_grows|apply grows_refl].
Qed.

Lemma close_tunnel_grows (P : event -> Prop) (st : Status)
  (t : WebSocketTunnel) :
(forall e, not_instruction e -> P e) ->
grows P (trace (base t)) (trace (base (snd (close_tunnel st t)))).
Proof.
intros H; unfold close_tunnel, socket_close; cbn.
destruct (State_eqb (state (base t)) CLOSED); cbn; [apply grows_refl|].
destruct (negb (code_is st SUCCESS) && onerror (base t)); cbn;
  destruct (socket t); cbn;
  repeat first
    [ apply grows_refl
    | eapply grows_trans; [|apply grows_one, H; exact I]
    | eapply grows_trans; [|apply setState_grows, H; exact I] ].
all: cbn; apply grows_one, H; exact I.
Qed.

Lemma handle_instruction_grows (opcode : jsstring) (elements : list jsstring)
  (t : WebSocketTunnel) :
grows not_internal (trace (base t))
      (trace (base (snd (handle_instruction opcode elements t)))).
Proof.
assert (W : forall e, not_instruction e -> not_internal e)
  by (intros []; cbn; tauto).
unfold handle_instruction, and_then, ret.
set (t1 := establish opcode elements t).
assert (G1 : grows not_internal (trace (base t)) (trace (base t1))).
{ subst t1; unfold establish.
  destruct (uuid (base t)); try apply grows_refl.
  cbn; eapply grows_trans; [|apply setState_grows; exact I].
  destruct (jsstring_eqb opcode []); cbn;
    [apply setUUID_grows; exact I|apply grows_refl]. }
set (t2 := if jsstring_eqb opcode (str "getCredentials") then _ else t1).
assert (G2 : grows not_internal (trace (base t)) (trace (base t2))).
{ subst t2; destruct (jsstring_eqb opcode (str "getCredentials")); auto.
  eapply grows_trans; [exact G1|apply grows_one; exact I]. }
clearbody t2; clear G1 t1.
assert (D : forall t3, grows not_internal (trace (base t3))
          (trace (base
            (if negb (jsstring_eqb opcode []) && oninstruction (base t3)
             then on_base (emit (Ev_oninstruction opcode elements)) t3
             else t3)))).
{ intros t3; destruct (jsstring_eqb opcode []) eqn:E; cbn;
    [apply grows_refl|].
  destruct (oninstruction (base t3)); [|apply grows_refl].
  apply grows_one; cbn; intros ->.
  now rewrite jsstring_eqb_refl in E. }
destruct (jsstring_eqb opcode (str "reauth")).
- pose proof (close_tunnel_grows not_internal server_timeout t2 W) as G3.
  destruct (close_tunnel server_timeout t2) as [[] t3]; cbn [snd] in *;
    try (eapply grows_trans; [exact G2|exact G3]).
  eapply grows_trans; [exact G2|].
  eapply grows_trans; [exact G3|].
  eapply grows_trans; [|apply D].
  cbn; exists [Ev_alert (str "Session Timed out. Please login again.");
               Ev_reload]; split.
  + now rewrite <- app_assoc.
  + repeat constructor.
- cbn [snd]. eapply grows_trans; [exact G2|apply D].
Qed.

Lemma onmessage_grows (fuel : nat) (message : jsstring)
  (t : WebSocketTunnel) :
grows not_internal (trace (base t))
      (trace (base (snd (onmessage fuel message t)))).
Proof.
unfold onmessage.
eapply grows_trans; [apply (reset_timeout_grows _ t); intros; exact I|].
apply (message_loop_preserves
         (fun a b => grows not_internal (trace (base a)) (trace (base b)))).
- intros; apply grows_refl.
- intros; eapply grows_trans; eauto.
- intros; apply close_tunnel_grows; intros []; cbn; tauto.
- intros; apply handle_instruction_grows.
Qed.

End Facts.
End WSFacts.

(** ** Delivery of instructions by the WebSocket and static tunnels *)

Module Delivery.
Import JS Base Codec Spec JSFacts TraceFacts.

(** C7, as stated, fails for the static tunnel: [instructionReceived]
    hands an instruction with the empty opcode to the application's
    handler, as it does with any other.  So a dump that holds the
    instruction [0.,1.x;] reaches the handler. *)
Lemma static_tunnel_delivers_internal_opcode :
  trace (Static.base
           (@Static.instructionReceived spec_Parser [] [str "x"]
              (Static.new_StaticHTTPTunnel
                 (new_Tunnel true true true true))))
  = [Ev_oninstruction [] [str "x"]]
  /\ delivered
       (trace
          (Static.base
             (@Static.run example_codes spec_Parser
                [Static.Connect [];
                 Static.ReadyStateChange 4 (str "0.,1.x;")]
                (Static.new_StaticHTTPTunnel
                   (new_Tunnel true true true true)))))
     = [([], [str "x"])].
Proof. split; vm_compute; reflexivity. Qed.

(** C7 (amended).  In the WebSocket tunnel no call of [oninstruction] made
    while a frame is handled carries the empty opcode, whatever the frame
    and the state of the tunnel.  The static tunnel has no such filter:
    every instruction its parser reports, the empty opcode included, is
    handed to the handler if there is one. *)
Theorem internal_marker_isolation {codes : StatusCode} {P : Static.Parser} :
  (forall (fuel : nat) (message : jsstring) (t : WS.WebSocketTunnel),
      grows not_internal (trace (WS.base t))
            (trace (WS.base (snd (WS.onmessage fuel message t)))))
  /\ (forall (opcode : jsstring) (args : list jsstring)
             (t : Static.StaticHTTPTunnel),
         oninstruction (Static.base t) = true ->
         trace (Static.base (Static.instructionReceived opcode args t))
         = trace (Static.base t) ++ [Ev_oninstruction opcode args]).
Proof.
  split.
  - intros; apply WSFacts.onmessage_grows.
  - intros opcode args t H; unfold Static.instructionReceived.
    now rewrite H.
Qed.

Lemma internal_marker_isolation_witness :
  grows not_internal []
        (trace (WS.base (snd (@WS.onmessage example_codes 3
                                 (str "0.,4.ping;3.nop;")
                                 open_socket_tunnel))))
  /\ trace (Static.base
              (@Static.instructionReceived spec_Parser
                 [] [str "x"]
                 (Static.new_StaticHTTPTunnel
                    (new_Tunnel true true true true))))
     = [] ++ [Ev_oninstruction [] [str "x"]].
Proof.
  split.
  - apply (proj1 (@internal_marker_isolation example_codes spec_Parser)
                 3%nat (str "0.,4.ping;3.nop;") open_socket_tunnel).
  - apply (proj2 (@internal_marker_isolation example_codes spec_Parser)
                 [] [str "x"]
                 (Static.new_StaticHTTPTunnel
                    (new_Tunnel true true true true))).
    reflexivity.
Defined.

(** C8, as stated, fails for the WebSocket tunnel, which acts on two
    opcodes: on [reauth] it closes itself with a timeout status, alerts
    and reloads the page; on [getCredentials] it dispatches a document
    event.  Two frames that differ in the last letter of the opcode only
    leave the tunnel in different states. *)
Lemma reauth_closes_the_tunnel :
  state (WS.base (snd (@WS.onmessage example_codes 2 (str "6.reauth;")
                          open_socket_tunnel))) = CLOSED
  /\ state (WS.base (snd (@WS.onmessage example_codes 2 (str "6.reauti;")
                             open_socket_tunnel))) = OPEN.
Proof. split; vm_compute; reflexivity. Qed.

(** C8 (amended).  Apart from the empty opcode and from [getCredentials]
    and [reauth], the WebSocket tunnel handles every instruction alike,
    whatever its opcode: the first instruction of a tunnel without UUID
    opens it, and the instruction goes to the handler, if any.  On
    [getCredentials] it dispatches the document event [getAuthCredentials]
    before that; on [reauth] it closes itself with the status
    UPSTREAM_TIMEOUT, alerts and reloads the page before that.  The HTTP
    and static tunnels hand every instruction to the handler, if any, and
    do nothing else. *)
Theorem opcode_opacity {codes : StatusCode} {P : Static.Parser}
    (opcode : jsstring) (elements : list jsstring) :
  let first (t : WS.WebSocketTunnel) :=
    match uuid (WS.base t) with
    | uuid_null => WS.on_base (setState OPEN) t
    | _ => t
    end in
  let hand_over opcode (t : WS.WebSocketTunnel) :=
    if oninstruction (WS.base t)
    then WS.on_base (emit (Ev_oninstruction opcode elements)) t
    else t in
  (forall t : WS.WebSocketTunnel,
      opcode <> [] -> opcode <> str "getCredentials" ->
      opcode <> str "reauth" ->
      WS.handle_instruction opcode elements t
      = (Returned, hand_over opcode (first t)))
  /\ (forall t : WS.WebSocketTunnel,
         WS.handle_instruction (str "getCredentials") elements t
         = (Returned,
            hand_over (str "getCredentials")
              (WS.on_base (emit (Ev_dispatchEvent (str "getAuthCredentials")))
                          (first t))))
  /\ (forall t : WS.WebSocketTunnel,
         WS.handle_instruction (str "reauth") elements t
         = match WS.close_tunnel WS.server_timeout (first t) with
           | (Returned, t3) =>
               (Returned,
                hand_over (str "reauth")
                  (WS.on_base
                     (fun b =>
                        emit Ev_reload
                          (emit (Ev_alert
                                   (str "Session Timed out. Please login again."))
                                b))
                     t3))
           | r => r
           end)
  /\ (forall t : HTTP.HTTPTunnel,
         HTTP.handle_instruction opcode elements t
         = (Returned,
            if oninstruction (HTTP.base t)
            then HTTP.on_base (emit (Ev_oninstruction opcode elements)) t
            else t))
  /\ (forall t : Static.StaticHTTPTunnel,
         Static.instructionReceived opcode elements t
         = if oninstruction (Static.base t)
           then Static.on_base (emit (Ev_oninstruction opcode elements)) t
           else t).
Proof.
  cbv zeta; split; [|split; [|split; [|split]]].
  - intros t H1 H2 H3.
    unfold WS.handle_instruction, WS.establish, and_then, ret.
    rewrite !jsstring_eqb_neq by assumption.
    cbn [negb andb]; reflexivity.
  - intros t; reflexivity.
  - intros t; unfold WS.handle_instruction, WS.establish, and_then, ret.
    change (jsstring_eqb (str "reauth") []) with false.
    change (jsstring_eqb (str "reauth") (str "getCredentials")) with false.
    change (jsstring_eqb (str "reauth") (str "reauth")) with true.
    cbv beta iota zeta.
    destruct (WS.close_tunnel WS.server_timeout _) as [[] t3]; reflexivity.
  - reflexivity.
  - reflexivity.
Qed.

Lemma opcode_opacity_witness :
  @WS.handle_instruction example_codes (str "sync") [str "1"]
                         open_socket_tunnel
  = (Returned,
     WS.on_base (emit (Ev_oninstruction (str "sync") [str "1"]))
                open_socket_tunnel).
Proof.
  apply (proj1 (@opcode_opacity example_codes spec_Parser (str "sync")
                                [str "1"]) open_socket_tunnel);
    discriminate.
Defined.

(** On the frame [3.abc;xyz] the loop of [socket.onmessage] never ends:
    once the instruction [abc] is handled, every iteration finds no period,
    keeps [startIndex] and [elementEnd], and handles [;] again. *)
Lemma stale_element_loop {codes : StatusCode} (fuel : nat) :
  forall (t : WS.WebSocketTunnel) (id : nat),
    WS.socket t = Some id -> uuid (WS.base t) <> uuid_null ->
    fst (message_loop (WS.close_tunnel WS.incomplete_instruction)
                      WS.handle_instruction fuel (str "3.abc;xyz")
                      (Num 6) (Num 5) [] t) = Hang.
Proof.
  induction fuel as [|fuel IH]; intros t id Hs Hu; [reflexivity|].
  cbn [message_loop].
  change (indexOf "."%char (str "3.abc;xyz") (Num 6)) with (-1).
  cbn [negb Z.eqb Z.opp Pos.eqb].
  assert (C : exists t1,
             WS.close_tunnel WS.incomplete_instruction t = (Returned, t1)
             /\ WS.socket t1 = Some id
             /\ uuid (WS.base t1) = uuid (WS.base t)).
  { unfold WS.close_tunnel, WS.socket_close; cbn.
    destruct (State_eqb (state (WS.base t)) CLOSED).
    - eexists; split; [reflexivity|]; split; [exact Hs|reflexivity].
    - destruct (_ && _); cbn; rewrite Hs; eexists;
        (split; [reflexivity|]); (split; [exact Hs|]);
        cbn; unfold setState;
        repeat match goal with
               | |- context [if ?b then _ else _] => destruct b
               end; reflexivity. }
  destruct C as (t1 & -> & Hs1 & Hu1).
  change (substring (str "3.abc;xyz") (Num 6) (Num 5)) with (str ";").
  change (substring (str "3.abc;xyz") (Num 5) (add (Num 5) (Num 1)))
    with (str ";").
  change (jsstring_eqb (str ";") [";"%char]) with true.
  cbn [app add lt jslength].
  assert (H : exists t2,
             WS.handle_instruction (str ";") [] t1 = (Returned, t2)
             /\ WS.socket t2 = Some id
             /\ uuid (WS.base t2) = uuid (WS.base t1)).
  { unfold WS.handle_instruction, WS.establish, and_then, ret.
    destruct (uuid (WS.base t1)) eqn:E; [congruence| |];
      cbn; destruct (oninstruction (WS.base t1)); cbn;
      eexists; (split; [reflexivity|]); (split; [exact Hs1|]);
      cbn; auto. }
  destruct H as (t2 & -> & Hs2 & Hu2).
  change (5 + 1 <? Z.of_nat (List.length (str "3.abc;xyz"))) with true.
  cbv iota; apply (IH t2 id); congruence.
Qed.

Lemma incomplete_instruction_never_returns (fuel : nat) :
  fst (@WS.onmessage example_codes fuel (str "3.abc;xyz")
                     open_socket_tunnel) = Hang.
Proof.
  destruct fuel as [|fuel]; [reflexivity|].
  unfold WS.onmessage.
  set (t := WS.reset_timeout open_socket_tunnel).
  cbn [message_loop].
  change (indexOf "."%char (str "3.abc;xyz") (Num 0)) with 1.
  cbn [negb Z.eqb Z.opp Pos.eqb add].
  change (parseInt (substring (str "3.abc;xyz") NaN (Num 1))) with (Num 3).
  cbn [add Z.add Pos.add Pos.succ].
  change (substring (str "3.abc;xyz") (Num 2) (Num 5)) with (str "abc").
  change (substring (str "3.abc;xyz") (Num 5) (Num 6)) with (str ";").
  change (jsstring_eqb (str ";") [";"%char]) with true.
  cbn [app].
  change (WS.handle_instruction (str "abc") [] t)
    with (Returned,
          WS.on_base (emit (Ev_oninstruction (str "abc") [])) t).
  change (lt (Num 6) (Num (jslength (str "3.abc;xyz")))) with true.
  cbv iota.
  apply (stale_element_loop fuel _ 0%nat); [reflexivity|discriminate].
Qed.

(** C9: the code at the failing frame [3.abc;xyz].  After the complete
    instruction [abc], no period follows: the tunnel reports the error and
    closes, but the loop goes on with the stale [elementEnd], hands the
    terminator [;] to the application as an instruction, and does so again
    at every further iteration. *)
Theorem incomplete_instruction_keeps_parsing :
  @WS.onmessage example_codes 4 (str "3.abc;xyz") open_socket_tunnel
  = (Hang,
     {| WS.base :=
          {| state := CLOSED; uuid := uuid_string (str "uuid");
             onuuid := true; onerror := true; onstatechange := true;
             oninstruction := true;
             trace :=
               [Ev_oninstruction (str "abc") [];
                Ev_onerror (@WS.incomplete_instruction example_codes);
                Ev_onstatechange CLOSED;
                Ev_socket_close 0;
                Ev_oninstruction (str ";") [];
                Ev_oninstruction (str ";") [];
                Ev_oninstruction (str ";") []] |};
        WS.socket := Some 0%nat; WS.sockets := 1%nat;
        WS.receive_timeout := false; WS.unstableTimeout := false;
        WS.pingInterval := false; WS.orphan_intervals := 0%nat |}).
Proof. vm_compute; reflexivity. Qed.

End Delivery.

(** ** Sending and tearing down *)

Module Teardown.
Import JS Base Codec Spec JSFacts TraceFacts.

(** C10.  In both tunnels [sendMessage] returns the tunnel as it is, with
    nothing sent, buffered or raised, when the state is CONNECTING or
    CLOSED or when there is no argument.  In the state UNSTABLE, with
    arguments, the message is encoded and sent: the WebSocket tunnel hands
    it to its socket, the HTTP tunnel posts it with what was buffered, or
    buffers it while a write is in flight. *)
Theorem sendMessage_precondition
    (h : HTTP.HTTPTunnel) (w : WS.WebSocketTunnel) :
  (forall arguments,
      state (HTTP.base h) = CONNECTING \/ state (HTTP.base h) = CLOSED
      \/ arguments = [] ->
      HTTP.sendMessage arguments h = h)
  /\ (forall arguments,
         state (WS.base w) = CONNECTING \/ state (WS.base w) = CLOSED
         \/ arguments = [] ->
         WS.sendMessage arguments w = (Returned, w))
  /\ (forall first others,
         state (WS.base w) = UNSTABLE ->
         WS.sendMessage (first :: others) w
         = match WS.socket w with
           | Some id =>
               (Returned,
                WS.on_base (emit (Ev_socket_send id (encode first others))) w)
           | None => (TypeError, w)
           end)
  /\ (forall first others,
         state (HTTP.base h) = UNSTABLE ->
         let buffer := HTTP.outputMessageBuffer h ++ encode first others in
         HTTP.sendMessage (first :: others) h
         = if HTTP.sendingMessages h then HTTP.with_output true buffer h
           else HTTP.with_output true []
                  (HTTP.on_base (emit (Ev_xhr_write buffer)) h)).
Proof.
  repeat split.
  - intros arguments [H|[H|H]]; unfold HTTP.sendMessage, isConnected.
    + now rewrite H.
    + now rewrite H.
    + subst; now destruct (_ || _).
  - intros arguments [H|[H|H]]; unfold WS.sendMessage, isConnected.
    + now rewrite H.
    + now rewrite H.
    + subst; now destruct (_ || _).
  - intros first others H; unfold WS.sendMessage, isConnected.
    now rewrite H.
  - intros first others H buffer; unfold HTTP.sendMessage, isConnected.
    rewrite H; cbn [State_eqb orb negb].
    cbn [HTTP.with_output HTTP.sendingMessages].
    destruct (HTTP.sendingMessages h) eqn:E; cbn [negb].
    + destruct h; cbn in *; subst; reflexivity.
    + unfold HTTP.sendPendingMessages, isConnected; cbn.
      rewrite H; cbn.
      assert (N : buffer <> []).
      { subst buffer; intros N; apply app_eq_nil in N.
        now apply (CodecFacts.encode_not_nil first others). }
      fold buffer; destruct buffer; [congruence|reflexivity].
Qed.

Lemma sendMessage_precondition_witness :
  HTTP.sendMessage [str "nop"]
     (HTTP.new_HTTPTunnel (new_Tunnel true true true true))
  = HTTP.new_HTTPTunnel (new_Tunnel true true true true)
  /\ WS.sendMessage [str "key"; str "1"]
       (WS.on_base (with_state UNSTABLE) open_socket_tunnel)
     = (Returned,
        WS.on_base (emit (Ev_socket_send 0 (encode (str "key") [str "1"])))
                   (WS.on_base (with_state UNSTABLE) open_socket_tunnel)).
Proof.
  split.
  - apply (proj1 (sendMessage_precondition
                    (HTTP.new_HTTPTunnel (new_Tunnel true true true true))
                    open_socket_tunnel)).
    left; reflexivity.
  - apply (proj1 (proj2 (proj2 (sendMessage_precondition
                    (HTTP.new_HTTPTunnel (new_Tunnel true true true true))
                    (WS.on_base (with_state UNSTABLE) open_socket_tunnel))))
                 (str "key") [str "1"]).
    reflexivity.
Defined.

(** C6: the code at the failing input, [disconnect] on a WebSocket tunnel
    that has not been connected.  [close_tunnel] marks the tunnel closed,
    notifies the state handler, and then calls [close] on the socket,
    which is still [null]: the call of [disconnect] ends in a TypeError.
    A second call finds the tunnel closed and returns. *)
Theorem disconnect_before_connect_throws {codes : StatusCode}
    (h_uuid h_error h_state h_instruction : bool) :
  let fresh :=
    WS.new_WebSocketTunnel
      (new_Tunnel h_uuid h_error h_state h_instruction) in
  fst (WS.disconnect fresh) = TypeError
  /\ trace (WS.base (snd (WS.disconnect fresh)))
     = (if h_state then [Ev_onstatechange CLOSED] else [])
  /\ WS.disconnect (snd (WS.disconnect fresh))
     = (Returned, snd (WS.disconnect fresh)).
Proof.
  destruct h_uuid, h_error, h_state, h_instruction;
    unfold WS.disconnect, WS.close_tunnel, code_is; cbn;
    rewrite !Z.eqb_refl; cbn; repeat split.
Qed.

End Teardown.


(** ** The chained tunnel *)

Module ChainedFacts.
Import JS Base Codec Spec.
Import Chained.

Section Facts.
Context {codes : StatusCode}.

Lemma cgrows_refl (P : event -> Prop) (l : list event) : cgrows P l l.
Proof. exists []; split; [now rewrite app_nil_r|constructor]. Qed.

Lemma cgrows_trans (P : event -> Prop) (l1 l2 l3 : list event) :
  cgrows P l1 l2 -> cgrows P l2 l3 -> cgrows P l1 l3.
Proof.
  intros (n1 & -> & H1) (n2 & -> & H2); exists (n1 ++ n2); split.
  - now rewrite app_assoc.
  - now apply Forall_app.
Qed.

Lemma cgrows_one (P : event -> Prop) (l : list event) (e : event) :
  P e -> cgrows P l (l ++ [e]).
Proof. intros H; exists [e]; split; auto. Qed.

Lemma of_slot_not_wrapper (s : option nat) : of_slot s <> cb_wrapper.
Proof. destruct s; discriminate. Qed.

(** What [commit_tunnel] leaves. *)
Lemma commit_tunnel_spec (t : nat) (c : ChainedTunnel) :
  let c' := commit_tunnel t c in
  committedTunnel c' = Some t
  /\ rewired c c' t
  /\ tunnels c' = tunnels c
  /\ connect_data c' = connect_data c
  /\ onstatechange c' = onstatechange c
  /\ oninstruction c' = oninstruction c
  /\ onerror c' = onerror c
  /\ onuuid c' = onuuid c
  /\ uuid c'
     = (if uuid_truthy (w_uuid (objects c t)) then w_uuid (objects c t)
        else uuid c)
  /\ trace c'
     = trace c
       ++ (if uuid_truthy (w_uuid (objects c t)) then
             match onuuid c with
             | Some f => [App_onuuid f (w_uuid (objects c t))]
             | None => []
             end
           else []).
Proof.
  unfold commit_tunnel, rewired, setUUID; cbn.
  rewrite Nat.eqb_refl; cbn.
  destruct (uuid_truthy (w_uuid (objects c t))); cbn.
  - destruct (onuuid c) eqn:E; cbn; rewrite ?Nat.eqb_refl, ?app_nil_r; cbn;
      repeat split; auto.
  - rewrite ?Nat.eqb_refl, ?app_nil_r; cbn; repeat split.
Qed.

Lemma step_bypassing (t : nat) (tl : list nat) (i : input)
    (c : ChainedTunnel) :
  from_tunnel t i -> bypassing t tl c ->
  bypassing t tl (step i c)
  /\ cgrows not_connect (trace c) (trace (step i c)).
Proof.
  intros Hi (Hc & Ht & H1 & H2 & H3).
  destruct i as [d| |args|t' s|t' op el|t' st|t' u]; cbn in Hi;
    try contradiction; subst; cbn [step].
  - unfold disconnect; destruct (disconnect_of c); cbn;
      (split; [repeat split; auto|]);
      [apply cgrows_one; exact I|apply cgrows_refl].
  - unfold sendMessage; destruct (sendMessage_of c); cbn;
      (split; [repeat split; auto|]);
      [apply cgrows_one; exact I|apply cgrows_refl].
  - unfold tunnel_onstatechange.
    destruct (w_onstatechange (objects c t)) eqn:E; try congruence; cbn;
      (split; [repeat split; cbn; auto; rewrite ?E; congruence|]);
      [apply cgrows_refl|apply cgrows_one; exact I].
  - unfold tunnel_oninstruction.
    destruct (w_oninstruction (objects c t)) eqn:E; try congruence; cbn;
      (split; [repeat split; cbn; auto; rewrite ?E; congruence|]);
      [apply cgrows_refl|apply cgrows_one; exact I].
  - unfold tunnel_onerror.
    destruct (w_onerror (objects c t)) eqn:E; try congruence; cbn;
      (split; [repeat split; cbn; auto; rewrite ?E; congruence|]);
      [apply cgrows_refl|apply cgrows_one; exact I].
  - unfold tunnel_setUUID; cbn; rewrite Nat.eqb_refl; cbn.
    destruct (w_onuuid (objects c t)) eqn:E; cbn;
      (split; [repeat split; cbn; rewrite ?Nat.eqb_refl; cbn; auto|]);
      try apply cgrows_refl; apply cgrows_one; exact I.
Qed.

Lemma run_bypassing (t : nat) (tl : list nat) (inputs : list input) :
  forall c,
    Forall (from_tunnel t) inputs -> bypassing t tl c ->
    bypassing t tl (run inputs c)
    /\ cgrows not_connect (trace c) (trace (run inputs c)).
Proof.
  induction inputs as [|i inputs IH]; intros c Hall Hb.
  - split; [exact Hb|apply cgrows_refl].
  - inversion Hall as [|? ? Hi Hrest]; subst.
    destruct (step_bypassing t tl i c Hi Hb) as [Hb1 G1].
    destruct (IH (step i c) Hrest Hb1) as [Hb2 G2].
    split; [exact Hb2|].
    eapply cgrows_trans; [exact G1|exact G2].
Qed.

End Facts.
End ChainedFacts.


(** ** Failover *)

Module Failover.
Import JS Base Codec Spec ChainedFacts.
Import Chained.

(** C4.  When a wrapped tunnel whose slots hold the functions stored by
    [attach] reports an error with the code UPSTREAM_TIMEOUT, the list of
    tunnels still to try is emptied, no tunnel is connected, and the error
    goes to the [onerror] handler of the chained tunnel at once; the
    change to CLOSED that follows goes to its [onstatechange] handler and
    connects nothing either.  With any other status, the next tunnel of
    the list is taken off, gets the functions of [attach] in its slots, and
    is connected with the data stored by [connect]; if the list is empty,
    the error goes to the [onerror] handler of the chained tunnel. *)
Theorem timeout_is_fatal {codes : StatusCode} (c : ChainedTunnel) (t : nat)
    (status : Status) :
  attached c t ->
  (code_is status UPSTREAM_TIMEOUT = true ->
   let c1 := step (Error t status) c in
   let c2 := step (StateChange t CLOSED) c1 in
   tunnels c1 = []
   /\ trace c1
      = trace c ++ match onerror c with
                   | Some f => [App_onerror f status]
                   | None => []
                   end
   /\ tunnels c2 = []
   /\ trace c2
      = trace c1 ++ match onstatechange c with
                    | Some f => [App_onstatechange f CLOSED]
                    | None => []
                    end)
  /\ (code_is status UPSTREAM_TIMEOUT = false ->
      forall next rest, tunnels c = next :: rest ->
        let c1 := step (Error t status) c in
        tunnels c1 = rest
        /\ trace c1 = trace c ++ [Tunnel_connect next (connect_data c)]
        /\ connect_data c1 = connect_data c
        /\ attached c1 next
        /\ disconnect_of c1 = Some next
        /\ sendMessage_of c1 = Some next)
  /\ (code_is status UPSTREAM_TIMEOUT = false -> tunnels c = [] ->
      let c1 := step (Error t status) c in
      tunnels c1 = []
      /\ trace c1
         = trace c ++ match onerror c with
                      | Some f => [App_onerror f status]
                      | None => []
                      end).
Proof.
  intros (He & Hs & Hi); split; [|split].
  - intros Hto; cbn [step]; unfold tunnel_onerror; rewrite He.
    unfold wrapper_onerror, failTunnel; rewrite Hto.
    assert (E1 : forall c',
               c' = match onerror (with_tunnels [] c) with
                    | Some f => emit (App_onerror f status) (with_tunnels [] c)
                    | None => with_tunnels [] c
                    end ->
               tunnels c' = []
               /\ trace c' = trace c ++ match onerror c with
                                        | Some f => [App_onerror f status]
                                        | None => []
                                        end
               /\ objects c' = objects c
               /\ onstatechange c' = onstatechange c).
    { intros c' ->; cbn; destruct (onerror c); cbn;
        rewrite ?app_nil_r; repeat split. }
    specialize (E1 _ eq_refl); destruct E1 as (T1 & Tr1 & O1 & S1).
    set (c1 := match onerror (with_tunnels [] c) with
               | Some f => _ | None => _ end) in *.
    cbv zeta; split; [exact T1|]; split; [exact Tr1|].
    unfold tunnel_onstatechange; rewrite O1, Hs.
    unfold wrapper_onstatechange, failTunnel; rewrite T1, S1.
    destruct (onstatechange c); cbn; rewrite ?app_nil_r; auto.
  - intros Hto next rest Ht; cbn [step]; unfold tunnel_onerror; rewrite He.
    unfold wrapper_onerror, failTunnel; rewrite Hto, Ht.
    unfold attach, attached; cbn; rewrite Nat.eqb_refl; cbn.
    destruct (onerror c); cbn; rewrite ?Nat.eqb_refl; cbn; repeat split.
  - intros Hto Ht; cbn [step]; unfold tunnel_onerror; rewrite He.
    unfold wrapper_onerror, failTunnel; rewrite Hto, Ht.
    destruct (onerror c); cbn; rewrite ?app_nil_r; auto.
Qed.

Lemma timeout_is_fatal_witness :
  let c := @run example_codes [Connect (Some (str "data"))]
             (new_ChainedTunnel 3 (Some 10) (Some 11) (Some 12) (Some 13))%nat in
  let timeout := {| code := Num 514; message := None |} in
  let refused := {| code := Num 519; message := None |} in
  trace (@run example_codes [Error 0 timeout; StateChange 0 CLOSED] c)
  = trace c ++ [App_onerror 11 timeout] ++ [App_onstatechange 12 CLOSED]
  /\ trace (@step example_codes (Error 0 refused) c)
     = trace c ++ [Tunnel_connect 1 (Some (str "data"))].
Proof.
  cbv zeta.
  set (c := @run example_codes [Connect (Some (str "data"))]
              (new_ChainedTunnel 3 (Some 10) (Some 11) (Some 12)
                                 (Some 13))%nat).
  assert (A : attached c 0%nat) by (repeat split).
  split.
  - destruct (proj1 (@timeout_is_fatal example_codes c 0%nat
                       {| code := Num 514; message := None |} A) eq_refl)
      as (_ & E1 & _ & E2).
    cbn [run fold_left]; rewrite E2, E1, <- app_assoc; reflexivity.
  - apply (proj1 (proj2 (@timeout_is_fatal example_codes c 0%nat
                    {| code := Num 519; message := None |} A)) eq_refl
                 1%nat [2%nat] eq_refl).
Defined.

(** C3, as stated, fails once [connect] is called again: [connect] passes
    the committed tunnel to [attach], which stores its own functions in
    the slots of that tunnel again.  Here the first of two tunnels opens,
    is committed, and closes; after a second [connect] it closes without
    opening, and the second tunnel is connected. *)
Lemma committed_tunnel_fails_after_reconnect :
  let c1 :=
    @run example_codes
      [Connect (Some (str "data")); StateChange 0 OPEN; StateChange 0 CLOSED]
      (new_ChainedTunnel 2 (Some 10) (Some 11) (Some 12) (Some 13))%nat in
  let c2 :=
    @run example_codes
      [Connect (Some (str "data")); StateChange 0 CONNECTING;
       StateChange 0 CLOSED] c1 in
  committedTunnel c1 = Some 0%nat
  /\ trace c2
     = trace c1 ++ [Tunnel_connect 0 (Some (str "data"));
                    Tunnel_connect 1 (Some (str "data"))].
Proof. split; vm_compute; reflexivity. Qed.

(** C3 (amended).  When a wrapped tunnel whose slots hold the functions
    stored by [attach] changes to OPEN or hands over an instruction, it
    becomes the committed tunnel: its four slots receive what the slots of
    the chained tunnel hold, and its UUID, if it is a non-empty string,
    becomes the UUID of the chained tunnel.  From then on, and as long as
    [connect] is not called again, whatever the tunnel does, a change to
    CLOSED included, connects no other tunnel and leaves the list of
    tunnels to try as it is.  A later [connect] takes no tunnel off that
    list: it passes the committed tunnel to [attach] with the new data. *)
Theorem commit_rule {codes : StatusCode} (c : ChainedTunnel) (t : nat)
    (i : input) :
  attached c t ->
  i = StateChange t OPEN
  \/ (exists opcode elements, i = Instruction t opcode elements) ->
  let c1 := step i c in
  committedTunnel c1 = Some t
  /\ rewired c c1 t
  /\ (uuid_truthy (w_uuid (objects c t)) = true ->
      uuid c1 = w_uuid (objects c t))
  /\ (forall inputs,
         Forall (from_tunnel t) inputs ->
         let c2 := run inputs c1 in
         cgrows not_connect (trace c1) (trace c2)
         /\ tunnels c2 = tunnels c
         /\ committedTunnel c2 = Some t
         /\ forall data,
              connect data c2 = attach t (with_connect_data data c2)
              /\ tunnels (connect data c2) = tunnels c
              /\ trace (connect data c2)
                 = trace c2 ++ [Tunnel_connect t data]).
Proof.
  intros (He & Hs & Hi) Hin c1.
  destruct (commit_tunnel_spec t c)
    as (K1 & K2 & K3 & K4 & K5 & K6 & K7 & K8 & K9 & K10).
  assert (E : committedTunnel c1 = Some t /\ rewired c c1 t
              /\ tunnels c1 = tunnels c
              /\ uuid c1 = (if uuid_truthy (w_uuid (objects c t))
                            then w_uuid (objects c t) else uuid c)).
  { subst c1; destruct Hin as [->|(opcode & elements & ->)]; cbn [step].
    - unfold tunnel_onstatechange; rewrite Hs; cbn [wrapper_onstatechange].
      destruct (onstatechange (commit_tunnel t c)); cbn; auto.
    - unfold tunnel_oninstruction; rewrite Hi; unfold wrapper_oninstruction.
      destruct (oninstruction (commit_tunnel t c)); cbn; auto. }
  destruct E as (E1 & E2 & E3 & E4).
  split; [exact E1|]; split; [exact E2|]; split.
  { intros Hu; now rewrite E4, Hu. }
  intros inputs Hall c2.
  assert (B : bypassing t (tunnels c) c1).
  { destruct E2 as (R1 & R2 & R3 & _).
    repeat split; auto; rewrite ?R1, ?R2, ?R3; apply of_slot_not_wrapper. }
  destruct (run_bypassing t (tunnels c) inputs c1 Hall B)
    as ((B1 & B2 & _) & G).
  fold c2 in B1, B2, G.
  split; [exact G|]; split; [exact B2|]; split; [exact B1|].
  intros data; unfold connect; cbn; rewrite B1; repeat split; auto.
Qed.

Lemma commit_rule_witness :
  let c := @run example_codes
             [Connect (Some (str "data")); UUID 0 (uuid_string (str "id"))]
             (new_ChainedTunnel 3 (Some 10) (Some 11) (Some 12) (Some 13))%nat in
  let c1 := @step example_codes (StateChange 0 OPEN) c in
  committedTunnel c1 = Some 0%nat
  /\ uuid c1 = uuid_string (str "id")
  /\ tunnels (@run example_codes [StateChange 0 CLOSED] c1) = [1; 2]%nat.
Proof.
  cbv zeta.
  set (c := @run example_codes
              [Connect (Some (str "data")); UUID 0 (uuid_string (str "id"))]
              (new_ChainedTunnel 3 (Some 10) (Some 11) (Some 12)
                                 (Some 13))%nat).
  assert (A : attached c 0%nat) by (repeat split).
  destruct (@commit_rule example_codes c 0%nat (StateChange 0 OPEN) A
                         (or_introl eq_refl))
    as (H1 & _ & H3 & H4).
  split; [exact H1|]; split; [exact (H3 eq_refl)|].
  destruct (H4 [StateChange 0 CLOSED]) as (_ & H5 & _).
  - repeat constructor.
  - exact H5.
Defined.

End Failover.


(** ** The parse loop of [parseResponse] *)

Module ResponseFacts.
Import JS Base Codec Spec JSFacts TraceFacts.

Section Unfold.
Context {T : Type}.
Variable handle : jsstring -> list jsstring -> T -> outcome * T.
Variable end_of_response : T -> outcome * T.

Lemma response_loop_unfold (fuel : nat) (current : jsstring) (p : parser)
    (t : T) :
  response_loop handle end_of_response (S fuel) current p t
  = if lt (elementEnd p) (Num (jslength current)) then
      match take current p with
      | (Some (opcode, rest), p1) =>
          match handle opcode rest t with
          | (Returned, t1) =>
              after_take handle end_of_response fuel current p1 t1
          | (r, t1) => (r, (p1, t1))
          end
      | (None, p1) => after_take handle end_of_response fuel current p1 t
      end
    else (Returned, (p, t)).
Proof.
  cbn [response_loop]; unfold take, after_take, search.
  destruct (lt (elementEnd p) (Num (jslength current))); [|reflexivity].
  destruct (ge (elementEnd p) (startIndex p)); cbn [elementEnd startIndex elements].
  - destruct (jsstring_eqb _ _).
    + destruct (elements p ++ _) as [|opcode rest];
        cbn [elementEnd startIndex elements].
      * destruct (negb _); [|reflexivity].
        destruct (is_num _ _); reflexivity.
      * destruct (handle opcode rest t) as [[] t1];
          cbn [elementEnd startIndex elements]; try reflexivity.
        destruct (negb _); [|reflexivity].
        destruct (is_num _ _); reflexivity.
    + cbn [elementEnd startIndex elements].
      destruct (negb _); [|reflexivity].
      destruct (is_num _ _); reflexivity.
  - destruct (negb _); [|reflexivity].
    destruct (is_num _ _); reflexivity.
Qed.
End Unfold.

Lemma response_decode_eq (fuel : nat) (current : jsstring) (p : parser) :
  response_decode fuel current p
  = response_loop collect_instruction mark_end fuel current p ([], false).
Proof. reflexivity. Qed.

(** The instructions collected so far only grow. *)
Lemma response_loop_shift (fuel : nat) :
  forall current p acc e,
    response_loop collect_instruction mark_end fuel current p (acc, e)
    = let '(r, (p', (l, e'))) := response_decode fuel current p in
      (r, (p', (acc ++ l, e || e'))).
Proof.
  induction fuel as [|fuel IH]; intros current p acc e.
  - cbn; now rewrite app_nil_r, orb_false_r.
  - rewrite response_decode_eq, !response_loop_unfold.
    destruct (lt _ _); [|now rewrite app_nil_r, orb_false_r].
    unfold after_take.
    destruct (take current p) as [[[opcode rest]|] p1];
      cbn [collect_instruction fst snd app].
    + destruct (search current p1) as [|p2|p2]; cbn [mark_end fst snd].
      * now rewrite orb_true_r.
      * rewrite (IH current p2 (acc ++ [(opcode, rest)]) e).
        rewrite (IH current p2 [(opcode, rest)] false).
        destruct (response_decode fuel current p2) as [r [p' [l e']]].
        now rewrite <- app_assoc.
      * now rewrite orb_false_r.
    + destruct (search current p1) as [|p2|p2]; cbn [mark_end fst snd].
      * now rewrite app_nil_r, orb_true_r.
      * rewrite (IH current p2 acc e).
        rewrite <- response_decode_eq.
        now destruct (response_decode fuel current p2) as [r [p' [l e']]].
      * now rewrite app_nil_r, orb_false_r.
Qed.

(** With a handler that always returns, the loop hands over the decoded
    instructions in order, and then, if the end marker was reached, does
    what is done at the end of the response. *)
Section Simulation.
Context {T : Type}.
Variable deliver : jsstring -> list jsstring -> T -> T.
Variable end_of_response : T -> outcome * T.

Lemma response_loop_decode (fuel : nat) :
  forall current p t,
    response_loop (fun opcode rest t => (Returned, deliver opcode rest t))
                  end_of_response fuel current p t
    = let '(r, (p', (l, ended))) := response_decode fuel current p in
      if ended then
        let '(r', t') := end_of_response (deliver_all deliver l t) in
        (r', (p', t'))
      else (r, (p', deliver_all deliver l t)).
Proof.
  induction fuel as [|fuel IH]; intros current p t.
  - reflexivity.
  - rewrite response_decode_eq, !response_loop_unfold.
    destruct (lt _ _); [|reflexivity].
    unfold after_take.
    destruct (take current p) as [[[opcode rest]|] p1];
      cbn [collect_instruction fst snd app].
    + destruct (search current p1) as [|p2|p2]; cbn [mark_end fst snd];
        try reflexivity.
      rewrite IH, (response_loop_shift fuel current p2 [(opcode, rest)] false).
      destruct (response_decode fuel current p2) as [r [p' [l e']]].
      cbn [orb]; reflexivity.
    + destruct (search current p1) as [|p2|p2]; cbn [mark_end fst snd];
        try reflexivity.
      rewrite IH, <- response_decode_eq.
      now destruct (response_decode fuel current p2) as [r [p' [l e']]].
Qed.
End Simulation.

End ResponseFacts.


(** ** The HTTP tunnel: requests made ahead *)

Module HTTPFacts.
Import JS Base Codec Spec JSFacts TraceFacts ResponseFacts.
Import HTTP.

Lemma nth_error_update_eq {A : Type} (f : A -> A) (l : list A) (n : nat) :
  nth_error (update n f l) n = option_map f (nth_error l n).
Proof.
  revert n; induction l as [|x l IH]; intros [|n]; cbn; auto.
Qed.

Lemma nth_error_update_neq {A : Type} (f : A -> A) (l : list A) (n j : nat) :
  j <> n -> nth_error (update n f l) j = nth_error l j.
Proof.
  revert n j; induction l as [|x l IH]; intros [|n] [|j] H; cbn; auto;
    try congruence.
Qed.

Lemma length_update {A : Type} (f : A -> A) (l : list A) (n : nat) :
  List.length (update n f l) = List.length l.
Proof. revert n; induction l as [|x l IH]; intros [|n]; cbn; auto. Qed.

Lemma get_reader_on_reader_eq (id : nat) (f : reader -> reader)
    (t : HTTPTunnel) :
  get_reader id (on_reader id f t) = option_map f (get_reader id t).
Proof. unfold get_reader, on_reader; cbn; apply nth_error_update_eq. Qed.

Lemma get_reader_on_reader_neq (id j : nat) (f : reader -> reader)
    (t : HTTPTunnel) :
  j <> id -> get_reader j (on_reader id f t) = get_reader j t.
Proof.
  intros H; unfold get_reader, on_reader; cbn.
  now apply nth_error_update_neq.
Qed.

Lemma get_reader_range (id : nat) (t : HTTPTunnel) (r : reader) :
  get_reader id t = Some r -> (id < request_id t)%nat.
Proof.
  unfold get_reader, request_id; intros H.
  apply nth_error_Some; congruence.
Qed.

(** *** The two relations *)

Lemma prefix_refl (l : list event) : prefix l l.
Proof. exists []; now rewrite app_nil_r. Qed.

Lemma prefix_trans (l1 l2 l3 : list event) :
  prefix l1 l2 -> prefix l2 l3 -> prefix l1 l3.
Proof. intros [n1 ->] [n2 ->]; exists (n1 ++ n2); now rewrite app_assoc. Qed.

Lemma prefix_app (l l' new : list event) :
  prefix l l' -> prefix l (l' ++ new).
Proof. intros [n ->]; exists (n ++ new); now rewrite app_assoc. Qed.

Lemma prefix_In (l l' : list event) (e : event) :
  prefix l l' -> In e l -> In e l'.
Proof. intros [n ->] H; apply in_or_app; auto. Qed.

Lemma keeps_refl (t : HTTPTunnel) : keeps t t.
Proof. split; [apply prefix_refl|reflexivity]. Qed.

Lemma keeps_trans (t1 t2 t3 : HTTPTunnel) :
  keeps t1 t2 -> keeps t2 t3 -> keeps t1 t3.
Proof.
  intros [H1 H2] [H3 H4]; split; [eapply prefix_trans; eauto|congruence].
Qed.

Lemma keeps_touches (id : nat) (t t' : HTTPTunnel) :
  keeps t t' -> touches id t t'.
Proof.
  intros [H1 H2]; unfold touches, get_reader, request_id; rewrite H2.
  repeat split; auto; intros r Hr; exists r; auto.
Qed.

Lemma touches_refl (id : nat) (t : HTTPTunnel) : touches id t t.
Proof. apply keeps_touches, keeps_refl. Qed.

Lemma touches_trans (id : nat) (t1 t2 t3 : HTTPTunnel) :
  touches id t1 t2 -> touches id t2 t3 -> touches id t1 t3.
Proof.
  intros (A1 & A2 & A3 & A4) (B1 & B2 & B3 & B4); repeat split.
  - eapply prefix_trans; eauto.
  - congruence.
  - intros j Hj; rewrite B3, A3; auto.
  - intros r Hr; destruct (A4 r Hr) as (r' & Hr' & E).
    destruct (B4 r' Hr') as (r'' & Hr'' & E'); exists r''; split; congruence.
Qed.

Lemma on_reader_touches (id : nat) (f : reader -> reader) (t : HTTPTunnel) :
  (forall r, nextRequest (f r) = nextRequest r) ->
  touches id t (on_reader id f t).
Proof.
  intros Hf; repeat split.
  - apply prefix_refl.
  - unfold request_id, on_reader; cbn; apply length_update.
  - intros j Hj; now apply get_reader_on_reader_neq.
  - intros r Hr; rewrite get_reader_on_reader_eq, Hr; cbn.
    exists (f r); auto.
Qed.

Lemma pre_issued_touches (id : nat) (t t' : HTTPTunnel) (m n : nat) :
  touches id t t' -> pre_issued t' m n -> pre_issued t m n.
Proof.
  intros (_ & A2 & A3 & A4) (rm & Hm & Hn).
  destruct (Nat.eq_dec m id) as [->|Hne].
  - destruct (get_reader id t) as [r|] eqn:E.
    + destruct (A4 r eq_refl) as (r' & Hr' & E').
      exists r; split; congruence.
    + apply get_reader_range in Hm.
      unfold get_reader in E; apply nth_error_None in E.
      unfold request_id in *; lia.
  - rewrite A3 in Hm by assumption; exists rm; auto.
Qed.

Lemma ended_prefix (m : nat) (t t' : HTTPTunnel) :
  prefix (trace (base t)) (trace (base t')) -> ended m t -> ended m t'.
Proof. unfold ended; intros H; now apply prefix_In. Qed.

Lemma active_touches (id j : nat) (t t' : HTTPTunnel) :
  touches id t t' -> active j t -> active j t'.
Proof.
  intros H Ha m Hm.
  eapply ended_prefix; [apply H|].
  apply Ha; eapply pre_issued_touches; eauto.
Qed.

(** The invariant is kept when only the reader of an active request
    changes, or when that reader stays untouched. *)
Lemma read_ahead_touches (id : nat) (t t' : HTTPTunnel) :
  touches id t t' ->
  active id t
  \/ (forall r r', get_reader id t = Some r -> get_reader id t' = Some r' ->
                   untouched r -> untouched r') ->
  read_ahead t -> read_ahead t'.
Proof.
  intros H Hid [I1 I2 I3]; pose proof H as (A1 & A2 & A3 & A4).
  split.
  - intros m n Hp; rewrite A2; eapply I1, pre_issued_touches; eauto.
  - intros m m' n Hp Hp'; eapply I2; eapply pre_issued_touches; eauto.
  - intros m n rn Hp Hn.
    pose proof (pre_issued_touches _ _ _ _ _ H Hp) as Hp0.
    destruct (Nat.eq_dec n id) as [->|Hne].
    + destruct Hid as [Ha|Hu].
      * right; eapply ended_prefix; eauto.
      * destruct (get_reader id t) as [r|] eqn:E.
        -- destruct (I3 m id r Hp0 E) as [U|U];
             [left; eapply Hu; eauto|right; eapply ended_prefix; eauto].
        -- apply I1 in Hp0; unfold get_reader in E.
           apply nth_error_None in E; unfold request_id in *; lia.
    + rewrite A3 in Hn by assumption.
      destruct (I3 m n rn Hp0 Hn); [left|right; eapply ended_prefix]; eauto.
Qed.

Lemma read_ahead_keeps (t t' : HTTPTunnel) :
  keeps t t' -> read_ahead t -> read_ahead t'.
Proof.
  intros H; apply (read_ahead_touches 0 t t'); [now apply keeps_touches|].
  right; intros r r' Hr Hr'.
  destruct H as [_ H]; unfold get_reader in *; rewrite H in Hr'; congruence.
Qed.

Lemma active_keeps (j : nat) (t t' : HTTPTunnel) :
  keeps t t' -> active j t -> active j t'.
Proof. intros H; apply (active_touches 0); now apply keeps_touches. Qed.

(** A reader that is not untouched serves an active request. *)
Lemma touched_active (id : nat) (t : HTTPTunnel) (r : reader) :
  read_ahead t -> get_reader id t = Some r -> ~ untouched r -> active id t.
Proof.
  intros [_ _ I3] Hr Hu m Hm.
  destruct (I3 m id r Hm Hr); tauto.
Qed.

(** *** Operations that leave the requests alone *)

Lemma prefix_setState (l : list event) (s : State) (b : Tunnel) :
  prefix l (trace b) -> prefix l (trace (setState s b)).
Proof.
  intros H; unfold setState.
  destruct (negb (State_eqb s (state b))); auto.
  cbn; destruct (onstatechange b); cbn; auto using prefix_app.
Qed.

Lemma prefix_setUUID (l : list event) (u : uuid_value) (b : Tunnel) :
  prefix l (trace b) -> prefix l (trace (setUUID u b)).
Proof.
  intros H; unfold setUUID; cbn.
  destruct (onuuid b); cbn; auto using prefix_app.
Qed.

Lemma prefix_emit (l : list event) (e : event) (b : Tunnel) :
  prefix l (trace b) -> prefix l (trace (emit e b)).
Proof. intros H; cbn; auto using prefix_app. Qed.

Ltac keeps_tac :=
  repeat match goal with
         | |- context [if ?b then _ else _] => destruct b
         | |- context [match ?x with _ => _ end] => destruct x
         end;
  (split;
   [ cbn [base trace on_base with_timeouts with_pingInterval with_output
          with_token with_pollingMode];
     repeat first [ apply prefix_refl | apply prefix_setState | apply prefix_setUUID
                  | apply prefix_emit ]
   | reflexivity ]).

Section Keeps.
Context {codes : StatusCode}.

Lemma reset_timeout_keeps (t : HTTPTunnel) : keeps t (reset_timeout t).
Proof. unfold reset_timeout; keeps_tac. Qed.

Lemma close_tunnel_keeps (st : Status) (t : HTTPTunnel) :
  keeps t (close_tunnel st t).
Proof. unfold close_tunnel; keeps_tac. Qed.

Lemma sendPendingMessages_keeps (t : HTTPTunnel) :
  keeps t (sendPendingMessages t).
Proof. unfold sendPendingMessages; keeps_tac. Qed.

Lemma sendMessage_keeps (arguments : list jsstring) (t : HTTPTunnel) :
  keeps t (sendMessage arguments t).
Proof.
  unfold sendMessage.
  destruct (negb (isConnected (base t))); [apply keeps_refl|].
  destruct arguments as [|first others]; [apply keeps_refl|].
  match goal with
  | |- context [if ?b then _ else _] => destruct b
  end.
  - eapply keeps_trans; [|apply sendPendingMessages_keeps]. keeps_tac.
  - keeps_tac.
Qed.

Lemma handleHTTPTunnelError_keeps (x : XMLHttpRequest) (t : HTTPTunnel) :
  keeps t (handleHTTPTunnelError x t).
Proof.
  unfold handleHTTPTunnelError.
  destruct (truthy _); [apply close_tunnel_keeps|].
  destruct (negb _); apply close_tunnel_keeps.
Qed.

Lemma disconnect_keeps (t : HTTPTunnel) : keeps t (disconnect t).
Proof. apply close_tunnel_keeps. Qed.

Lemma write_readystatechange_keeps (x : XMLHttpRequest) (t : HTTPTunnel) :
  keeps t (write_readystatechange x t).
Proof.
  unfold write_readystatechange.
  destruct (readyState x =? 4); [|apply keeps_refl].
  destruct (negb _).
  - eapply keeps_trans; [apply reset_timeout_keeps|].
    apply handleHTTPTunnelError_keeps.
  - eapply keeps_trans; [apply reset_timeout_keeps|].
    apply sendPendingMessages_keeps.
Qed.

Lemma connect_keeps (data : jsstring) (t : HTTPTunnel) :
  keeps t (connect data t).
Proof.
  unfold connect.
  eapply keeps_trans; [apply reset_timeout_keeps|]. keeps_tac.
Qed.

Lemma deliver_keeps (opcode : jsstring) (elements : list jsstring)
    (t : HTTPTunnel) :
  keeps t (deliver opcode elements t).
Proof. unfold deliver; keeps_tac. Qed.

Lemma deliver_all_keeps (l : list instruction) (t : HTTPTunnel) :
  keeps t (deliver_all deliver l t).
Proof.
  revert t; induction l as [|i l IH]; intros t; cbn; [apply keeps_refl|].
  eapply keeps_trans; [apply deliver_keeps|apply IH].
Qed.

End Keeps.

(** *** Requests made ahead stay untouched *)

Section ReadAhead.
Context {codes : StatusCode}.

Lemma parseResponse_unfold (depth fuel id : nat) (t : HTTPTunnel) :
  parseResponse (S depth) fuel id t
  = match get_reader id t with
    | None => (Returned, t)
    | Some r =>
        if negb (isConnected (base t)) then
          (Returned, on_reader id clear_interval t)
        else if readyState (xhr r) <? 2 then (Returned, t)
        else
          let t1 := start_next id r t in
          if (readyState (xhr r) =? 3) || (readyState (xhr r) =? 4) then
            let t3 := adjust_polling id r (reset_timeout t1) in
            if status (xhr r) =? 0 then (Returned, disconnect t3)
            else if negb (status (xhr r) =? 200) then
              (Returned, handleHTTPTunnelError (xhr r) t3)
            else
              let '(r_, (p, t4)) :=
                response_loop handle_instruction
                              (end_of_response depth fuel id)
                              fuel (responseText (xhr r)) (parse r) t3 in
              (r_, on_reader id (set_parse p) t4)
          else (Returned, t1)
    end.
Proof. reflexivity. Qed.

Lemma handleResponse_unfold (depth fuel id : nat) (t : HTTPTunnel) :
  handleResponse depth fuel id t
  = parseResponse depth fuel id
      (on_reader id (reinitialise (pollingMode t)) t).
Proof. reflexivity. Qed.

Lemma extends_refl (t : HTTPTunnel) : extends t t.
Proof. repeat split; auto using prefix_refl. Qed.

Lemma extends_trans (t1 t2 t3 : HTTPTunnel) :
  extends t1 t2 -> extends t2 t3 -> extends t1 t3.
Proof.
  intros (A1 & A2 & A3) (B1 & B2 & B3); repeat split.
  - eapply prefix_trans; eauto.
  - lia.
  - intros m j Hj Hp; apply A3; auto; apply B3; auto; lia.
Qed.

Lemma touches_extends (id : nat) (t t' : HTTPTunnel) :
  touches id t t' -> extends t t'.
Proof.
  intros H; pose proof H as (A1 & A2 & _); repeat split; auto; [lia|].
  intros m j _; now apply (pre_issued_touches id).
Qed.

Lemma keeps_extends (t t' : HTTPTunnel) : keeps t t' -> extends t t'.
Proof. intros H; apply (touches_extends 0); now apply keeps_touches. Qed.

Lemma active_extends (j : nat) (t t' : HTTPTunnel) :
  extends t t' -> (j < request_id t)%nat -> active j t -> active j t'.
Proof.
  intros (A1 & _ & A3) Hj Ha m Hm.
  eapply ended_prefix; [exact A1|]; apply Ha, A3; auto.
Qed.

(** [makeRequest] adds an untouched request. *)
Lemma makeRequest_spec (t : HTTPTunnel) :
  let t' := snd (makeRequest t) in
  fst (makeRequest t) = request_id t
  /\ request_id t' = S (request_id t)
  /\ prefix (trace (base t)) (trace (base t'))
  /\ (forall j, (j < request_id t)%nat -> get_reader j t' = get_reader j t)
  /\ (exists r, get_reader (request_id t) t' = Some r
                /\ untouched r /\ nextRequest r = None).
Proof.
  unfold makeRequest, request_id, get_reader; cbn; repeat split.
  - rewrite length_app; cbn; lia.
  - apply prefix_app, prefix_refl.
  - intros j Hj; now rewrite nth_error_app1.
  - rewrite nth_error_app2, Nat.sub_diag by lia; cbn.
    eexists; repeat split.
Qed.

Lemma makeRequest_read_ahead (t : HTTPTunnel) :
  read_ahead t ->
  read_ahead (snd (makeRequest t))
  /\ extends t (snd (makeRequest t))
  /\ active (request_id t) (snd (makeRequest t)).
Proof.
  intros [I1 I2 I3].
  destruct (makeRequest_spec t) as (_ & M2 & M3 & M4 & (r0 & M5 & M6 & M7)).
  set (t' := snd (makeRequest t)) in *.
  assert (P : forall m n, pre_issued t' m n -> pre_issued t m n).
  { intros m n (rm & Hm & Hn).
    pose proof (get_reader_range _ _ _ Hm) as Hr; rewrite M2 in Hr.
    destruct (Nat.eq_dec m (request_id t)) as [->|Hne].
    - congruence.
    - rewrite M4 in Hm by lia; exists rm; auto. }
  repeat split.
  - intros m n Hp; rewrite M2; apply P, I1 in Hp; lia.
  - intros m m' n Hp Hp'; eapply I2; eauto.
  - intros m n rn Hp Hn; pose proof (P _ _ Hp) as Hp0.
    pose proof (I1 _ _ Hp0) as Hr; rewrite M4 in Hn by assumption.
    destruct (I3 m n rn Hp0 Hn); [left|right; eapply ended_prefix]; eauto.
  - exact M3.
  - lia.
  - intros m j _ Hp; auto.
  - intros m Hp; apply P, I1 in Hp; lia.
Qed.

(** The request made ahead by [start_next] is untouched, and the only
    new one. *)
Lemma start_next_read_ahead (id : nat) (r : reader) (t : HTTPTunnel) :
  get_reader id t = Some r -> read_ahead t -> active id t ->
  read_ahead (start_next id r t) /\ extends t (start_next id r t)
  /\ exists r', get_reader id (start_next id r t) = Some r'
                 /\ xhr r' = xhr r /\ interval r' = interval r
                 /\ parse r' = parse r.
Proof.
  intros Hr HI Ha; unfold start_next.
  destruct (nextRequest r) as [n|] eqn:En;
    [split; [auto|split; [apply extends_refl|exists r; auto]]|].
  destruct (status (xhr r) =? 200);
    [|split; [auto|split; [apply extends_refl|exists r; auto]]].
  destruct (makeRequest_spec t) as (M1 & M2 & M3 & M4 & (r0 & M5 & M6 & M7)).
  destruct (makeRequest_read_ahead t HI) as (J & X & _).
  destruct (makeRequest t) as [n t1]; cbn [fst snd] in *; subst n.
  pose proof (get_reader_range _ _ _ Hr) as Hid.
  set (t2 := on_reader id (set_nextRequest (Some (request_id t))) t1).
  assert (G : get_reader id t2
              = Some (set_nextRequest (Some (request_id t)) r)).
  { subst t2; rewrite get_reader_on_reader_eq, M4, Hr by assumption.
    reflexivity. }
  assert (P : forall m n, pre_issued t2 m n ->
                          pre_issued t m n
                          \/ (m = id /\ n = request_id t)).
  { intros m n (rm & Hm & Hn).
    destruct (Nat.eq_dec m id) as [->|Hne].
    - rewrite G in Hm; injection Hm as <-; cbn in Hn.
      right; split; congruence.
    - subst t2; rewrite get_reader_on_reader_neq in Hm by assumption.
      left; apply X.
      + pose proof (get_reader_range _ _ _ Hm) as Hr'.
        destruct J as [J1 _ _].
        assert (Q : pre_issued t1 m n) by (exists rm; auto).
        destruct (Nat.eq_dec n (request_id t)) as [->|Hn'].
        * exfalso.
          destruct (Nat.eq_dec m (request_id t)) as [->|Hm'];
            [congruence|].
          rewrite M4 in Hm by lia.
          destruct HI as [I1 _ _].
          assert (Q' : pre_issued t m (request_id t)) by (exists rm; auto).
          apply I1 in Q'; lia.
        * apply J1 in Q; lia.
      + exists rm; auto. }
  assert (R : request_id t2 = S (request_id t)).
  { subst t2; unfold request_id, on_reader; cbn; rewrite length_update.
    exact M2. }
  assert (T : trace (base t2) = trace (base t1)) by reflexivity.
  destruct HI as [I1 I2 I3].
  split; [split|split; [repeat split|]].
  - intros m n Hp; rewrite R.
    destruct (P _ _ Hp) as [Hp0|[-> ->]]; [apply I1 in Hp0|]; lia.
  - intros m m' n Hp Hp'.
    destruct (P _ _ Hp) as [Hp0|[-> ->]], (P _ _ Hp') as [Hp0'|[-> E]];
      auto.
    + eapply I2; eauto.
    + subst n; apply I1 in Hp0; lia.
    + apply I1 in Hp0'; lia.
  - intros m n rn Hp Hn; unfold ended; rewrite T.
    destruct (P _ _ Hp) as [Hp0|[-> ->]].
    + pose proof (I1 _ _ Hp0) as Hlt.
      destruct (Nat.eq_dec n id) as [->|Hne].
      * right; eapply prefix_In; [exact M3|]; apply Ha, Hp0.
      * subst t2; rewrite get_reader_on_reader_neq, M4 in Hn by assumption.
        destruct (I3 m n rn Hp0 Hn);
          [left|right; eapply prefix_In; [exact M3|]]; auto.
    + left; subst t2.
      rewrite get_reader_on_reader_neq in Hn by lia; congruence.
  - rewrite T; exact M3.
  - lia.
  - intros m j Hj Hp; destruct (P _ _ Hp) as [Hp0|[-> ->]]; [auto|lia].
  - eexists; split; [exact G|]; cbn; auto.
Qed.

Lemma adjust_polling_touches (id : nat) (r : reader) (t : HTTPTunnel) :
  touches id t (adjust_polling id r t).
Proof.
  unfold adjust_polling.
  repeat match goal with
         | |- context [if ?b then _ else _] => destruct b
         end;
    try apply touches_refl; apply on_reader_touches; intros r0;
    unfold clear_interval; try destruct (interval r0); reflexivity.
Qed.

Lemma abandon_touches (id : nat) (t : HTTPTunnel) :
  touches id t (abandon id t) /\ ended id (abandon id t).
Proof.
  unfold abandon; split.
  - eapply touches_trans.
    + apply (on_reader_touches id
               (fun r => set_handler no_handler (clear_interval r))).
      intros r0; unfold clear_interval; destruct (interval r0); reflexivity.
    + apply keeps_touches; keeps_tac.
  - unfold ended; cbn; apply in_or_app; right; left; reflexivity.
Qed.

(** A new call of [handleResponse] on an active request. *)
Lemma reinitialise_read_ahead (n : nat) (polling : bool) (t : HTTPTunnel) :
  read_ahead t -> active n t ->
  let t' := on_reader n (reinitialise polling) t in
  read_ahead t' /\ active n t' /\ extends t t'.
Proof.
  intros [I1 I2 I3] Ha t'.
  assert (R : request_id t' = request_id t).
  { unfold request_id, t', on_reader; cbn; apply length_update. }
  assert (P : forall m k, pre_issued t' m k -> pre_issued t m k).
  { intros m k (rm & Hm & Hk); unfold t' in Hm.
    destruct (Nat.eq_dec m n) as [->|Hne].
    - rewrite get_reader_on_reader_eq in Hm.
      destruct (get_reader n t); cbn in Hm; [|discriminate].
      injection Hm as <-; discriminate.
    - rewrite get_reader_on_reader_neq in Hm by assumption.
      exists rm; auto. }
  repeat split.
  - intros m k Hp; rewrite R; eauto.
  - intros m m' k Hp Hp'; eauto.
  - intros m k rk Hp Hk; pose proof (P _ _ Hp) as Hp0.
    destruct (Nat.eq_dec k n) as [->|Hne].
    + right; apply Ha, Hp0.
    + unfold t' in Hk; rewrite get_reader_on_reader_neq in Hk by assumption.
      exact (I3 m k rk Hp0 Hk).
  - intros m Hp; apply Ha, P, Hp.
  - apply prefix_refl.
  - lia.
  - intros m j _ Hp; auto.
Qed.

Lemma parse_loop_decode (eor : HTTPTunnel -> outcome * HTTPTunnel)
    (fuel : nat) (current : jsstring) (p : parser) (t : HTTPTunnel) :
  response_loop handle_instruction eor fuel current p t
  = let '(r, (p', (l, ended))) := response_decode fuel current p in
    if ended then
      let '(r', t') := eor (deliver_all deliver l t) in (r', (p', t'))
    else (r, (p', deliver_all deliver l t)).
Proof. exact (response_loop_decode deliver eor fuel current p t). Qed.

Lemma end_of_response_read_ahead (depth fuel : nat) :
  (forall n t, read_ahead t -> active n t ->
               read_ahead (snd (parseResponse depth fuel n t))
               /\ extends t (snd (parseResponse depth fuel n t))) ->
  forall id t,
    read_ahead t -> active id t ->
    read_ahead (snd (end_of_response depth fuel id t))
    /\ extends t (snd (end_of_response depth fuel id t)).
Proof.
  intros IH id t HI Ha; unfold end_of_response.
  destruct (abandon_touches id t) as [G E].
  assert (HI' : read_ahead (abandon id t))
    by (eapply read_ahead_touches; eauto).
  pose proof (touches_extends _ _ _ G) as X.
  set (t' := abandon id t) in *.
  destruct (get_reader id t') as [r'|] eqn:Hr'; [|cbn; auto].
  destruct (nextRequest r') as [n|] eqn:Hn; [|cbn; auto].
  assert (Hp : pre_issued t' id n) by (exists r'; auto).
  assert (Ha' : active n t').
  { intros m Hm; destruct HI' as [_ I2 _].
    now rewrite (I2 m id n Hm Hp). }
  destruct (reinitialise_read_ahead n (pollingMode t') t' HI' Ha')
    as (J & A & X').
  destruct (IH n _ J A) as [K X''].
  split; [exact K|].
  eapply extends_trans; [exact X|].
  eapply extends_trans; [exact X'|exact X''].
Qed.

(** [parseResponse] on an active request keeps the invariant. *)
Lemma parseResponse_read_ahead (depth fuel : nat) :
  forall id t,
    read_ahead t -> active id t ->
    read_ahead (snd (parseResponse depth fuel id t))
    /\ extends t (snd (parseResponse depth fuel id t)).
Proof.
  induction depth as [|depth IH]; intros id t HI Ha.
  - cbn; split; [auto|apply extends_refl].
  - rewrite parseResponse_unfold.
    destruct (get_reader id t) as [r|] eqn:Hr;
      [|cbn; split; [auto|apply extends_refl]].
    pose proof (get_reader_range _ _ _ Hr) as Hid.
    destruct (negb (isConnected (base t))).
    { cbn [snd].
      assert (G : touches id t (on_reader id clear_interval t)).
      { apply on_reader_touches; intros r0; unfold clear_interval.
        destruct (interval r0); reflexivity. }
      split; [eapply read_ahead_touches; eauto|
              eapply touches_extends; eauto]. }
    destruct (readyState (xhr r) <? 2);
      [cbn; split; [auto|apply extends_refl]|].
    destruct (start_next_read_ahead id r t Hr HI Ha)
      as (HI1 & X1 & (r1 & Hr1 & _)).
    pose proof (active_extends id _ _ X1 Hid Ha) as Ha1.
    cbv zeta; set (t1 := start_next id r t) in *.
    destruct ((readyState (xhr r) =? 3) || (readyState (xhr r) =? 4));
      [|cbn; auto].
    assert (G3 : touches id t1 (adjust_polling id r (reset_timeout t1))).
    { eapply touches_trans; [|apply adjust_polling_touches].
      apply keeps_touches, reset_timeout_keeps. }
    assert (HI3 : read_ahead (adjust_polling id r (reset_timeout t1)))
      by (eapply read_ahead_touches; eauto).
    assert (Ha3 : active id (adjust_polling id r (reset_timeout t1)))
      by (eapply active_touches; eauto).
    pose proof (extends_trans _ _ _ X1 (touches_extends _ _ _ G3)) as X3.
    set (t3 := adjust_polling id r (reset_timeout t1)) in *.
    destruct (status (xhr r) =? 0).
    { cbn [snd]; pose proof (disconnect_keeps t3) as K.
      split; [eapply read_ahead_keeps; eauto|].
      eapply extends_trans; [exact X3|now apply keeps_extends]. }
    destruct (negb (status (xhr r) =? 200)).
    { cbn [snd]; pose proof (handleHTTPTunnelError_keeps (xhr r) t3) as K.
      split; [eapply read_ahead_keeps; eauto|].
      eapply extends_trans; [exact X3|now apply keeps_extends]. }
    rewrite parse_loop_decode.
    destruct (response_decode fuel (responseText (xhr r)) (parse r))
      as [rd [p' [l ended]]].
    pose proof (deliver_all_keeps l t3) as K4.
    assert (HI4 : read_ahead (deliver_all deliver l t3))
      by (eapply read_ahead_keeps; eauto).
    assert (Ha4 : active id (deliver_all deliver l t3))
      by (eapply active_keeps; eauto).
    pose proof (extends_trans _ _ _ X3 (keeps_extends _ _ K4)) as X4.
    set (t4 := deliver_all deliver l t3) in *.
    assert (F : forall t5 p,
               read_ahead t5 -> extends t t5 ->
               read_ahead (on_reader id (set_parse p) t5)
               /\ extends t (on_reader id (set_parse p) t5)).
    { intros t5 p HI5 X5.
      assert (G5 : touches id t5 (on_reader id (set_parse p) t5))
        by (apply on_reader_touches; reflexivity).
      split.
      - eapply read_ahead_touches; [exact G5| |exact HI5].
        left; eapply active_extends; eauto.
      - eapply extends_trans; [exact X5|eapply touches_extends; eauto]. }
    destruct ended.
    + destruct (end_of_response_read_ahead depth fuel IH id t4 HI4 Ha4)
        as [HI5 X5].
      destruct (end_of_response depth fuel id t4) as [r' t5]; cbn [snd] in *.
      apply F; [exact HI5|eapply extends_trans; eauto].
    + cbn [snd]; apply F; auto.
Qed.

(** Every input keeps the invariant. *)
Lemma handleResponse_read_ahead (depth fuel id : nat) (t : HTTPTunnel) :
  read_ahead t -> active id t ->
  read_ahead (snd (handleResponse depth fuel id t))
  /\ extends t (snd (handleResponse depth fuel id t)).
Proof.
  intros HI Ha; rewrite handleResponse_unfold.
  destruct (reinitialise_read_ahead id (pollingMode t) t HI Ha)
    as (J & A & X).
  destruct (parseResponse_read_ahead depth fuel id _ J A) as [K X'].
  split; [exact K|eapply extends_trans; eauto].
Qed.

Lemma connect_readystatechange_read_ahead (depth fuel : nat)
    (x : XMLHttpRequest) (t : HTTPTunnel) :
  read_ahead t -> read_ahead (snd (connect_readystatechange depth fuel x t)).
Proof.
  intros HI; unfold connect_readystatechange.
  destruct (negb (readyState x =? 4)); [exact HI|].
  destruct (negb (status x =? 200)).
  { eapply read_ahead_keeps; [apply handleHTTPTunnelError_keeps|exact HI]. }
  set (t3 := with_token _ _).
  assert (K3 : keeps t t3).
  { subst t3; eapply keeps_trans; [apply reset_timeout_keeps|]. keeps_tac. }
  pose proof (read_ahead_keeps _ _ K3 HI) as HI3.
  destruct (tunnelSessionToken t3) as [[|c k]|].
  - eapply read_ahead_keeps; [apply close_tunnel_keeps|exact HI3].
  - set (t5 := with_pingInterval _ _ _).
    assert (K5 : keeps t3 t5) by (subst t5; keeps_tac).
    pose proof (read_ahead_keeps _ _ K5 HI3) as HI5.
    destruct (makeRequest_spec t5) as (M1 & _).
    destruct (makeRequest_read_ahead t5 HI5) as (J & _ & A).
    destruct (makeRequest t5) as [id t6]; cbn [fst snd] in *; subst id.
    apply handleResponse_read_ahead; assumption.
  - eapply read_ahead_keeps; [apply close_tunnel_keeps|exact HI3].
Qed.

(** What the browser's event does to the request before the handler
    runs. *)
Lemma read_event_touches (id : nat) (f : reader -> reader) (t : HTTPTunnel)
    (r : reader) :
  (forall r0, nextRequest (f r0) = nextRequest r0) ->
  read_ahead t -> get_reader id t = Some r -> ~ untouched r ->
  read_ahead (on_reader id f t) /\ active id (on_reader id f t).
Proof.
  intros Hf HI Hr Hu.
  pose proof (touched_active id t r HI Hr Hu) as Ha.
  pose proof (on_reader_touches id f t Hf) as G.
  split; [eapply read_ahead_touches; eauto|eapply active_touches; eauto].
Qed.

Lemma read_readystatechange_read_ahead (depth fuel id : nat)
    (x : XMLHttpRequest) (t : HTTPTunnel) :
  read_ahead t -> read_ahead (snd (read_readystatechange depth fuel id x t)).
Proof.
  intros HI; unfold read_readystatechange.
  destruct (get_reader id t) as [r|] eqn:Hr; [|exact HI].
  destruct (onreadystatechange r) eqn:Hh.
  - cbn [snd]; eapply read_ahead_touches; [|right|exact HI].
    + apply on_reader_touches; reflexivity.
    + intros r1 r' H1 H2 U; rewrite get_reader_on_reader_eq, H1 in H2.
      injection H2 as <-; exact U.
  - assert (Hu : ~ untouched r) by (intros (U & _); congruence).
    destruct (readyState x =? 3).
    + destruct (2 <=? S (dataUpdateEvents r))%nat.
      * destruct (read_event_touches id
                    (fun r0 => set_handler parse_handler
                       (set_dataUpdateEvents (S (dataUpdateEvents r))
                          (set_xhr x r0))) t r) as [J A]; auto.
        assert (K : keeps
                  (on_reader id
                     (fun r0 => set_handler parse_handler
                        (set_dataUpdateEvents (S (dataUpdateEvents r))
                           (set_xhr x r0))) t)
                  (on_reader id (set_handler parse_handler)
                     (with_pollingMode false
                        (on_reader id
                           (set_dataUpdateEvents (S (dataUpdateEvents r)))
                           (on_reader id (set_xhr x) t))))).
        { split; [apply prefix_refl|].
          unfold on_reader; cbn. clear.
          induction (requests t) as [|a l IH] in id |- *;
            destruct id; cbn; auto; now rewrite IH. }
        apply parseResponse_read_ahead;
          [eapply read_ahead_keeps|eapply active_keeps]; eauto.
      * destruct (read_event_touches id
                    (fun r0 => set_dataUpdateEvents (S (dataUpdateEvents r))
                                 (set_xhr x r0)) t r) as [J A]; auto.
        assert (K : keeps
                  (on_reader id
                     (fun r0 => set_dataUpdateEvents (S (dataUpdateEvents r))
                                  (set_xhr x r0)) t)
                  (on_reader id
                     (set_dataUpdateEvents (S (dataUpdateEvents r)))
                     (on_reader id (set_xhr x) t))).
        { split; [apply prefix_refl|].
          unfold on_reader; cbn. clear.
          induction (requests t) as [|a l IH] in id |- *;
            destruct id; cbn; auto; now rewrite IH. }
        apply parseResponse_read_ahead;
          [eapply read_ahead_keeps|eapply active_keeps]; eauto.
    + destruct (read_event_touches id (set_xhr x) t r) as [J A]; auto.
      apply parseResponse_read_ahead; auto.
  - assert (Hu : ~ untouched r) by (intros (U & _); congruence).
    destruct (read_event_touches id (set_xhr x) t r) as [J A]; auto.
    apply parseResponse_read_ahead; auto.
Qed.

Lemma poll_read_ahead (depth fuel id : nat) (t : HTTPTunnel) :
  read_ahead t -> read_ahead (snd (poll depth fuel id t)).
Proof.
  intros HI; unfold poll.
  destruct (get_reader id t) as [r|] eqn:Hr; [|exact HI].
  destruct (interval r) as [[|]|] eqn:Hi; try exact HI.
  apply parseResponse_read_ahead; auto.
  eapply touched_active; eauto; intros (_ & U & _); congruence.
Qed.

Lemma step_read_ahead (depth fuel : nat) (i : input) (t : HTTPTunnel) :
  read_ahead t -> read_ahead (snd (step depth fuel i t)).
Proof.
  intros HI; destruct i; cbn [step snd].
  - eapply read_ahead_keeps; [apply connect_keeps|exact HI].
  - eapply read_ahead_keeps; [apply disconnect_keeps|exact HI].
  - eapply read_ahead_keeps; [apply sendMessage_keeps|exact HI].
  - now apply connect_readystatechange_read_ahead.
  - eapply read_ahead_keeps; [apply write_readystatechange_keeps|exact HI].
  - now apply read_readystatechange_read_ahead.
  - now apply poll_read_ahead.
  - destruct (receive_timeout t); cbn [snd]; [|exact HI].
    eapply read_ahead_keeps; [|exact HI].
    unfold receive_timeout_fired.
    eapply keeps_trans; [|apply close_tunnel_keeps]. keeps_tac.
  - destruct (unstableTimeout t); cbn [snd]; [|exact HI].
    eapply read_ahead_keeps; [|exact HI].
    unfold unstableTimeout_fired; keeps_tac.
  - destruct (_ || _); cbn [snd]; [|exact HI].
    eapply read_ahead_keeps; [apply sendMessage_keeps|exact HI].
Qed.

Lemma run_read_ahead (depth fuel : nat) (inputs : list input) :
  forall t, read_ahead t -> read_ahead (snd (run depth fuel inputs t)).
Proof.
  induction inputs as [|i inputs IH]; intros t HI; cbn [run]; [exact HI|].
  pose proof (step_read_ahead depth fuel i t HI) as H1.
  destruct (step depth fuel i t) as [[] t1]; cbn [snd] in *; auto;
    specialize (IH t1 H1);
    destruct (run depth fuel inputs t1) as [rs t2]; exact IH.
Qed.

Lemma new_HTTPTunnel_read_ahead (b : Tunnel) : read_ahead (new_HTTPTunnel b).
Proof.
  assert (N : forall m n, ~ pre_issued (new_HTTPTunnel b) m n).
  { intros m n (rm & Hm & _); unfold get_reader in Hm; cbn in Hm.
    destruct m; discriminate. }
  split; intros; exfalso; eapply N; eauto.
Qed.

(** *** The order of the calls of the instruction handler *)

Lemma setState_oninstruction (s : State) (b : Tunnel) :
  oninstruction (setState s b) = oninstruction b.
Proof.
  unfold setState; destruct (negb _); auto.
  cbn; destruct (onstatechange b); reflexivity.
Qed.

Lemma deliver_all_trace (l : list instruction) (t : HTTPTunnel) :
  trace (base (deliver_all deliver l t))
  = trace (base t) ++ deliveries (oninstruction (base t)) l
  /\ oninstruction (base (deliver_all deliver l t)) = oninstruction (base t).
Proof.
  revert t; induction l as [|i l IH]; intros t; cbn [deliver_all fold_left].
  - unfold deliveries; destruct (oninstruction (base t));
      now rewrite app_nil_r.
  - destruct (IH (deliver (fst i) (snd i) t)) as [E1 E2].
    unfold deliver_all in *; rewrite E1, E2.
    unfold deliver, deliveries; destruct (oninstruction (base t)) eqn:E;
      cbn; rewrite ?E; [now rewrite <- app_assoc|split; auto].
Qed.

Lemma before_parsing (id : nat) (r : reader) (t : HTTPTunnel) :
  let t3 := adjust_polling id r (reset_timeout (start_next id r t)) in
  grows not_instruction (trace (base t)) (trace (base t3))
  /\ oninstruction (base t3) = oninstruction (base t).
Proof.
  assert (A : forall t2, base (adjust_polling id r t2) = base t2).
  { intros t2; unfold adjust_polling.
    repeat match goal with
           | |- context [if ?b then _ else _] => destruct b
           end; reflexivity. }
  assert (B : grows not_instruction (trace (base t))
                    (trace (base (start_next id r t)))
              /\ oninstruction (base (start_next id r t))
                 = oninstruction (base t)).
  { unfold start_next; destruct (nextRequest r);
      [split; [apply grows_refl|reflexivity]|].
    destruct (status (xhr r) =? 200);
      [|split; [apply grows_refl|reflexivity]].
    cbn; split; [apply grows_one; exact I|reflexivity]. }
  destruct B as [B1 B2]; cbv zeta; rewrite A.
  set (t1 := start_next id r t) in *.
  unfold reset_timeout; cbn.
  destruct (State_eqb (state (base t1)) UNSTABLE); cbn; [|auto].
  rewrite setState_oninstruction; split; [|auto].
  eapply grows_trans; [exact B1|apply setState_grows; exact I].
Qed.

Lemma end_of_response_trace (depth fuel id : nat) (t : HTTPTunnel) :
  read_ahead t -> active id t ->
  exists rest,
    trace (base (snd (end_of_response depth fuel id t)))
    = trace (base t) ++ Ev_xhr_abort id :: rest.
Proof.
  intros HI Ha; unfold end_of_response.
  destruct (abandon_touches id t) as [G E].
  assert (HI' : read_ahead (abandon id t))
    by (eapply read_ahead_touches; eauto).
  assert (T : trace (base (abandon id t))
              = trace (base t) ++ [Ev_xhr_abort id]) by reflexivity.
  set (t' := abandon id t) in *.
  destruct (get_reader id t') as [r'|] eqn:Hr';
    [|exists []; cbn [snd]; exact T].
  destruct (nextRequest r') as [n|] eqn:Hn;
    [|exists []; cbn [snd]; exact T].
  assert (Hp : pre_issued t' id n) by (exists r'; auto).
  assert (Ha' : active n t').
  { intros m Hm; destruct HI' as [_ I2 _].
    now rewrite (I2 m id n Hm Hp). }
  destruct (reinitialise_read_ahead n (pollingMode t') t' HI' Ha')
    as (J & A & _).
  destruct (parseResponse_read_ahead depth fuel n _ J A)
    as [_ ([new X] & _)].
  exists new; rewrite X; cbn [on_reader with_requests base].
  now rewrite T, <- app_assoc.
Qed.

(** When the response of an active request is parsed, the instructions
    decoded from it are handed over first; the end marker, if it is
    reached, comes next, and whatever else is handed over follows. *)
Lemma parseResponse_order (depth fuel id : nat) (t : HTTPTunnel)
    (r : reader) :
  read_ahead t -> active id t -> get_reader id t = Some r ->
  isConnected (base t) = true -> status (xhr r) = 200 ->
  readyState (xhr r) = 3 \/ readyState (xhr r) = 4 ->
  let decoded :=
    snd (snd (response_decode fuel (responseText (xhr r)) (parse r))) in
  exists before after,
    trace (base (snd (parseResponse (S depth) fuel id t)))
    = trace (base t) ++ before
      ++ deliveries (oninstruction (base t)) (fst decoded) ++ after
    /\ Forall not_instruction before
    /\ if snd decoded then exists rest, after = Ev_xhr_abort id :: rest
       else after = [].
Proof.
  intros HI Ha Hr Hc Hs Hrs decoded; subst decoded.
  rewrite parseResponse_unfold, Hr, Hc; cbn [negb].
  replace (readyState (xhr r) <? 2) with false
    by (destruct Hrs as [-> | ->]; reflexivity).
  replace ((readyState (xhr r) =? 3) || (readyState (xhr r) =? 4)) with true
    by (destruct Hrs as [-> | ->]; reflexivity).
  rewrite Hs; cbn [Z.eqb Pos.eqb negb]; cbv zeta.
  destruct (before_parsing id r t) as [(before & Tb & Fb) Eo].
  pose proof (get_reader_range _ _ _ Hr) as Hid.
  destruct (start_next_read_ahead id r t Hr HI Ha) as (HI1 & X1 & _).
  pose proof (active_extends id _ _ X1 Hid Ha) as Ha1.
  assert (G3 : touches id (start_next id r t)
                 (adjust_polling id r (reset_timeout (start_next id r t)))).
  { eapply touches_trans; [|apply adjust_polling_touches].
    apply keeps_touches, reset_timeout_keeps. }
  assert (HI3 : read_ahead
                  (adjust_polling id r (reset_timeout (start_next id r t))))
    by (eapply read_ahead_touches; eauto).
  assert (Ha3 : active id
                  (adjust_polling id r (reset_timeout (start_next id r t))))
    by (eapply active_touches; eauto).
  set (t3 := adjust_polling id r (reset_timeout (start_next id r t))) in *.
  rewrite parse_loop_decode.
  destruct (response_decode fuel (responseText (xhr r)) (parse r))
    as [rd [p' [l ended]]]; cbn [fst snd].
  destruct (deliver_all_trace l t3) as [T4 _].
  pose proof (deliver_all_keeps l t3) as K4.
  exists before.
  destruct ended.
  - destruct (end_of_response_trace depth fuel id (deliver_all deliver l t3))
      as [rest T5];
      [eapply read_ahead_keeps; eauto|eapply active_keeps; eauto|].
    destruct (end_of_response depth fuel id (deliver_all deliver l t3))
      as [r' t5]; cbn [snd] in *.
    exists (Ev_xhr_abort id :: rest); repeat split; eauto.
    cbn [on_reader with_requests base]; rewrite T5, T4, Tb, Eo.
    now rewrite <- !app_assoc.
  - exists []; repeat split; auto.
    cbn [on_reader with_requests base snd]; rewrite T4, Tb, Eo.
    now rewrite app_nil_r, <- !app_assoc.
Qed.

(** A [readystatechange] event on a request that has a handler ends in
    [parseResponse], with the new state of the request in place. *)
Lemma read_event_prepared (depth fuel id : nat) (x : XMLHttpRequest)
    (t : HTTPTunnel) (r : reader) :
  read_ahead t -> get_reader id t = Some r ->
  onreadystatechange r <> no_handler ->
  exists t2 r2,
    read_readystatechange depth fuel id x t = parseResponse depth fuel id t2
    /\ read_ahead t2 /\ active id t2
    /\ get_reader id t2 = Some r2
    /\ xhr r2 = x /\ parse r2 = parse r /\ base t2 = base t.
Proof.
  intros HI Hr Hh.
  assert (Hu : ~ untouched r) by (intros (U & _); congruence).
  assert (F : forall f,
             (forall r0, nextRequest (f r0) = nextRequest r0) ->
             (forall r0, xhr (f r0) = x) ->
             (forall r0, parse (f r0) = parse r0) ->
             forall t2 res,
               keeps (on_reader id f t) t2 -> base t2 = base t ->
               res = parseResponse depth fuel id t2 ->
               exists t2 r2,
                 res = parseResponse depth fuel id t2
                 /\ read_ahead t2 /\ active id t2
                 /\ get_reader id t2 = Some r2
                 /\ xhr r2 = x /\ parse r2 = parse r /\ base t2 = base t).
  { intros f F1 F2 F3 t2 res K B E.
    destruct (read_event_touches id f t r F1 HI Hr Hu) as [J A].
    exists t2, (f r).
    split; [exact E|].
    split; [eapply read_ahead_keeps; eauto|].
    split; [eapply active_keeps; eauto|].
    split; [|auto].
    destruct K as [_ K]; unfold get_reader at 1; rewrite K.
    change (get_reader id (on_reader id f t) = Some (f r)).
    now rewrite get_reader_on_reader_eq, Hr. }
  assert (U : forall (f g : reader -> reader) l,
             update id f (update id g l) = update id (fun r0 => f (g r0)) l).
  { clear; intros f g l; revert id; induction l as [|a l IH];
      intros [|id]; cbn; auto; now rewrite IH. }
  unfold read_readystatechange; rewrite Hr.
  destruct (onreadystatechange r) eqn:Eh; [congruence| |].
  - destruct (readyState x =? 3).
    + destruct (2 <=? S (dataUpdateEvents r))%nat.
      * refine (F (fun r0 => set_handler parse_handler
                       (set_dataUpdateEvents (S (dataUpdateEvents r))
                          (set_xhr x r0))) _ _ _ _ _ _ _ eq_refl);
          try reflexivity.
        split; [apply prefix_refl|].
        unfold on_reader; cbn; now rewrite !U.
      * refine (F (fun r0 => set_dataUpdateEvents (S (dataUpdateEvents r))
                                (set_xhr x r0)) _ _ _ _ _ _ _ eq_refl);
          try reflexivity.
        split; [apply prefix_refl|].
        unfold on_reader; cbn; now rewrite !U.
    + refine (F (set_xhr x) _ _ _ _ _ _ _ eq_refl); try reflexivity.
      apply keeps_refl.
  - refine (F (set_xhr x) _ _ _ _ _ _ _ eq_refl); try reflexivity.
    apply keeps_refl.
Qed.

End ReadAhead.






End HTTPFacts.


(** ** Long polling *)

Module LongPolling.
Import JS Base Codec Spec JSFacts TraceFacts ResponseFacts HTTPFacts.
Import HTTP.

(** C2.  Take any sequence of calls, request events and timers on a new
    HTTP tunnel, and in the state reached a request [m] that has made the
    request [n] ahead and whose end marker has not been handled yet.  Then
    nothing has been done with [n]: it has no handler and no polling
    interval, so data arriving on [n] is kept by the browser and nothing
    is handed to the application.  And when data arrives on [m], or its
    polling interval fires, what is handed over is first the instructions
    decoded from the response of [m], in order; only if its end marker is
    reached is [m] aborted and, after that, the response of the next
    request handled. *)
Theorem long_polling_order {codes : StatusCode} (b : Tunnel)
    (inputs : list input) (depth fuel : nat) (m n : nat) (rm rn : reader) :
  let t := snd (run (S depth) fuel inputs (new_HTTPTunnel b)) in
  get_reader m t = Some rm -> nextRequest rm = Some n ->
  get_reader n t = Some rn -> ~ ended m t ->
  untouched rn
  /\ (forall x,
         step (S depth) fuel (ReadEvent n x) t
         = (Returned, on_reader n (set_xhr x) t))
  /\ step (S depth) fuel (Poll n) t = (Returned, t)
  /\ (forall x,
         onreadystatechange rm <> no_handler ->
         isConnected (base t) = true -> status x = 200 ->
         readyState x = 3 \/ readyState x = 4 ->
         let decoded :=
           snd (snd (response_decode fuel (responseText x) (parse rm))) in
         exists before after,
           trace (base (snd (step (S depth) fuel (ReadEvent m x) t)))
           = trace (base t) ++ before
             ++ deliveries (oninstruction (base t)) (fst decoded) ++ after
           /\ Forall not_instruction before
           /\ if snd decoded
              then exists rest, after = Ev_xhr_abort m :: rest
              else after = [])
  /\ (interval rm = Some true ->
      isConnected (base t) = true -> status (xhr rm) = 200 ->
      readyState (xhr rm) = 3 \/ readyState (xhr rm) = 4 ->
      let decoded :=
        snd (snd (response_decode fuel (responseText (xhr rm))
                                  (parse rm))) in
      exists before after,
        trace (base (snd (step (S depth) fuel (Poll m) t)))
        = trace (base t) ++ before
          ++ deliveries (oninstruction (base t)) (fst decoded) ++ after
        /\ Forall not_instruction before
        /\ if snd decoded
           then exists rest, after = Ev_xhr_abort m :: rest
           else after = []).
Proof.
  intros t Hm Hmn Hn He.
  assert (HI : read_ahead t)
    by (apply run_read_ahead, new_HTTPTunnel_read_ahead).
  assert (Hp : pre_issued t m n) by (exists rm; auto).
  assert (U : untouched rn).
  { destruct HI as [_ _ I3]; destruct (I3 m n rn Hp Hn); tauto. }
  split; [exact U|].
  destruct U as (U1 & U2 & U3).
  split; [|split; [|split]].
  - intros x; cbn [step]; unfold read_readystatechange.
    now rewrite Hn, U1.
  - cbn [step]; unfold poll; now rewrite Hn, U2.
  - intros x Hh Hc Hs Hrs decoded; cbn [step].
    destruct (read_event_prepared (S depth) fuel m x t rm HI Hm Hh)
      as (t2 & r2 & E & J & A & Hr2 & X & P & B).
    rewrite E; subst decoded; rewrite <- X, <- P, <- B.
    apply parseResponse_order; auto; congruence.
  - intros Hi Hc Hs Hrs decoded; cbn [step]; unfold poll.
    rewrite Hm, Hi; apply parseResponse_order; auto.
    eapply touched_active; eauto; intros (_ & V & _); congruence.
Qed.

Lemma long_polling_order_witness :
  let t :=
    snd (@run example_codes 2 20
           [Connect (str "data"); ConnectEvent (ok_response 4 "uuid");
            ReadEvent 0 (ok_response 3 "4.sync,1.a;");
            ReadEvent 1 (ok_response 3 "3.abc;")]
           (new_HTTPTunnel (new_Tunnel true true true true))) in
  delivered (trace (base t)) = [(str "sync", [str "a"])]
  /\ @step example_codes 2 20 (Poll 1) t = (Returned, t).
Proof.
  cbv zeta; split; [vm_compute; reflexivity|].
  set (t := snd (@run example_codes 2 20 _ _)).
  assert (R0 : exists rm, get_reader 0 t = Some rm /\ nextRequest rm = Some 1%nat)
    by (eexists; split; vm_compute; reflexivity).
  assert (R1 : exists rn, get_reader 1 t = Some rn)
    by (eexists; vm_compute; reflexivity).
  destruct R0 as (rm & H0 & H1); destruct R1 as (rn & H2).
  refine (proj1 (proj2 (proj2
            (@long_polling_order example_codes
               (new_Tunnel true true true true) _ 1 20 0 1 rm rn
               H0 H1 H2 _)))).
  unfold ended; vm_compute; intuition discriminate.
Defined.

End LongPolling.


(** ** The state machine *)

Module StateMachine.
Import JS Base Codec Spec JSFacts TraceFacts.

(** C5, as stated, fails: [connect] of the static tunnel first calls
    [disconnect], which closes the new tunnel, and then marks it as
    connecting.  The application sees CLOSED, then CONNECTING. *)
Lemma static_connect_leaves_closed :
  state_changes
    (trace (Static.base
              (@Static.run example_codes spec_Parser [Static.Connect []]
                 (Static.new_StaticHTTPTunnel
                    (new_Tunnel true true true true)))))
  = [CLOSED; CONNECTING]
  /\ follows CONNECTING [CLOSED; CONNECTING] = false.
Proof. split; vm_compute; reflexivity. Qed.

(** C5 (amended).  In the three transports, closing leaves the state
    CLOSED whatever it was, and closing again changes nothing; a receipt
    of data ([reset_timeout]) changes the state from UNSTABLE to OPEN and
    no other; [connect] leaves the state CONNECTING whatever it was, CLOSED
    included. *)
Theorem state_machine {codes : StatusCode} {P : Static.Parser}
    (h : HTTP.HTTPTunnel) (w : WS.WebSocketTunnel)
    (s : Static.StaticHTTPTunnel) (status status' : Status)
    (data : jsstring) :
  (state (HTTP.base (HTTP.close_tunnel status h)) = CLOSED
   /\ state (WS.base (snd (WS.close_tunnel status w))) = CLOSED
   /\ state (Static.base (Static.disconnect s)) = CLOSED)
  /\ (HTTP.close_tunnel status' (HTTP.close_tunnel status h)
      = HTTP.close_tunnel status h
      /\ WS.close_tunnel status' (snd (WS.close_tunnel status w))
         = (Returned, snd (WS.close_tunnel status w))
      /\ Static.disconnect (Static.disconnect s) = Static.disconnect s)
  /\ (state (HTTP.base (HTTP.reset_timeout h))
      = after_data (state (HTTP.base h))
      /\ state (WS.base (WS.reset_timeout w))
         = after_data (state (WS.base w)))
  /\ (state (HTTP.base (HTTP.connect data h)) = CONNECTING
      /\ state (WS.base (WS.connect data w)) = CONNECTING
      /\ state (Static.base (Static.connect data s)) = CONNECTING).
Proof.
  assert (C1 : state (HTTP.base (HTTP.close_tunnel status h)) = CLOSED).
  { unfold HTTP.close_tunnel; cbn.
    destruct (State_eqb (state (HTTP.base h)) CLOSED) eqn:E; cbn.
    - now apply State_eqb_eq.
    - apply setState_state. }
  assert (C2 : state (WS.base (snd (WS.close_tunnel status w))) = CLOSED).
  { unfold WS.close_tunnel, WS.socket_close; cbn.
    destruct (State_eqb (state (WS.base w)) CLOSED) eqn:E; cbn.
    - now apply State_eqb_eq.
    - destruct (_ && _); cbn; destruct (WS.socket w); cbn;
        apply setState_state. }
  assert (C3 : state (Static.base (Static.disconnect s)) = CLOSED).
  { unfold Static.disconnect; destruct (Static.xhr s); cbn;
      apply setState_state. }
  split; [auto|]; split; [|split].
  - split; [|split].
    + set (h1 := HTTP.close_tunnel status h) in *.
      assert (T : HTTP.receive_timeout h1 = false
                  /\ HTTP.unstableTimeout h1 = false
                  /\ HTTP.pingInterval h1 = false).
      { subst h1; unfold HTTP.close_tunnel; cbn.
        destruct (State_eqb (state (HTTP.base h)) CLOSED); cbn; auto.
        destruct (_ && _); [destruct (_ || _)|]; cbn; auto. }
      destruct T as (T1 & T2 & T3).
      unfold HTTP.close_tunnel at 1; cbn; rewrite C1; cbn.
      destruct h1; cbn in *; subst; reflexivity.
    + set (w1 := snd (WS.close_tunnel status w)) in *.
      assert (T : WS.receive_timeout w1 = false
                  /\ WS.unstableTimeout w1 = false
                  /\ WS.pingInterval w1 = false).
      { subst w1; unfold WS.close_tunnel, WS.socket_close; cbn.
        destruct (State_eqb (state (WS.base w)) CLOSED); cbn; auto.
        destruct (_ && _); cbn; destruct (WS.socket w); cbn; auto. }
      destruct T as (T1 & T2 & T3).
      unfold WS.close_tunnel at 1; cbn; rewrite C2; cbn.
      destruct w1; cbn in *; subst; reflexivity.
    + set (s1 := Static.disconnect s) in *.
      assert (X : Static.xhr s1 = None).
      { subst s1; unfold Static.disconnect;
          destruct (Static.xhr s) eqn:E; cbn; auto. }
      unfold Static.disconnect at 1; rewrite X.
      unfold Static.on_base; rewrite <- C3 at 1; rewrite setState_same.
      destruct s1; reflexivity.
  - split.
    + unfold HTTP.reset_timeout; cbn.
      destruct (state (HTTP.base h)) eqn:E; cbn; rewrite ?E; auto.
      apply setState_state.
    + unfold WS.reset_timeout; cbn.
      destruct (state (WS.base w)) eqn:E; cbn; rewrite ?E; auto.
      apply setState_state.
  - split; [|split].
    + unfold HTTP.connect; cbn; apply setState_state.
    + unfold WS.connect; cbn; apply setState_state.
    + unfold Static.connect; cbn; apply setState_state.
Qed.

End StateMachine.

(** * Further properties *)

Module FrameFacts.
Import JS Base Codec Spec Views JSFacts CodecFacts.

Section SocketFrames.
Context {T : Type}.
Variable no_period : T -> outcome * T.
Variable handle : jsstring -> list jsstring -> T -> outcome * T.

(** A whole instruction followed by [tail]: it is handled, and the loop
    goes on if there is more text. *)
Lemma message_loop_instruction (es : list jsstring) :
  forall (e pre : jsstring) (ee : jsnum) (acc : list jsstring)
         (k : nat) (t : T) (tail : jsstring),
    toInteger (add ee (Num 1)) = jslength pre ->
    message_loop no_period handle (S (List.length es) + k)
                 (pre ++ encode e es ++ tail) (Num (jslength pre)) ee acc t
    = match acc ++ e :: es with
      | opcode :: rest =>
          match handle opcode rest t with
          | (Returned, t') =>
              match tail with
              | [] => (Returned, t')
              | _ :: _ =>
                  message_loop no_period handle k
                    (pre ++ encode e es ++ tail)
                    (Num (jslength (pre ++ encode e es)))
                    (Num (jslength (pre ++ encode e es) - 1)) [] t'
              end
          | r => r
          end
      | [] => (Returned, t)
      end.
Proof.
  induction es as [|e' es IH]; intros e pre ee acc k t tail Hee.
  - rewrite encode_nil, <- app_assoc; cbn [app List.length Nat.add].
    rewrite SocketDecoder.message_loop_element by assumption.
    rewrite jsstring_eqb_refl.
    destruct (acc ++ [e]) as [|opcode rest]; [reflexivity|].
    destruct (handle opcode rest t) as [[] t']; try reflexivity.
    assert (L : jslength (pre ++ getElement e ++ [";"%char])
                = jslength pre + jslength (getElement e) + 1).
    { rewrite !jslength_app; change (jslength [";"%char]) with 1; lia. }
    rewrite L.
    replace (jslength pre + jslength (getElement e) + 1 - 1)
      with (jslength pre + jslength (getElement e)) by lia.
    destruct tail as [|c tail].
    + replace (lt _ _) with false; [reflexivity|].
      cbn [lt]; symmetry; apply Z.ltb_ge.
      rewrite !jslength_app; change (jslength [";"%char]) with 1; lia.
    + replace (lt _ _) with true; [reflexivity|].
      cbn [lt]; symmetry; apply Z.ltb_lt.
      rewrite !jslength_app.
      change (jslength (";"%char :: c :: tail))
        with (Z.of_nat (S (S (List.length tail)))); lia.
  - rewrite encode_cons; cbn [List.length Nat.add].
    change ((getElement e ++ ","%char :: encode e' es) ++ tail)
      with ((getElement e ++ [","%char] ++ encode e' es) ++ tail).
    rewrite <- !app_assoc; cbn [app].
    rewrite SocketDecoder.message_loop_element by assumption.
    rewrite jsstring_eqb_neq by discriminate.
    replace (lt _ _) with true.
    2:{ cbn [lt]; symmetry; apply Z.ltb_lt.
        rewrite !jslength_app.
        change (","%char :: encode e' es ++ tail)
          with ([","%char] ++ encode e' es ++ tail).
        rewrite !jslength_app; change (jslength [","%char]) with 1.
        pose proof (encode_not_nil e' es).
        pose proof (jslength_nonneg tail).
        unfold jslength at 5; destruct (encode e' es); [congruence|].
        cbn [List.length]; lia. }
    replace (jslength pre + jslength (getElement e) + 1)
      with (jslength ((pre ++ getElement e ++ [","%char]))).
    2:{ rewrite !jslength_app; change (jslength [","%char]) with 1; lia. }
    replace (pre ++ getElement e ++ ","%char :: encode e' es ++ tail)
      with ((pre ++ getElement e ++ [","%char]) ++ encode e' es ++ tail)
      by (now rewrite <- !app_assoc).
    change (S (List.length es + k)) with (S (List.length es) + k)%nat.
    rewrite IH.
    + rewrite <- app_assoc; cbn [app].
      replace ((pre ++ getElement e ++ [","%char]) ++ encode e' es)
        with (pre ++ getElement e ++ ","%char :: encode e' es)
        by (now rewrite <- !app_assoc).
      reflexivity.
    + cbn [add toInteger]; rewrite !jslength_app;
        change (jslength [","%char]) with 1; lia.
Qed.

Lemma wire_not_nil (l : list instruction) : l <> [] -> wire l <> [].
Proof.
  destruct l as [|[o a] l]; [congruence|]; intros _ W; cbn in W.
  apply app_eq_nil in W; destruct W as [W _].
  now apply encode_not_nil in W.
Qed.

Lemma match_not_nil {A B : Type} (l : list A) (x y : B) :
  l <> [] -> match l with [] => x | _ :: _ => y end = y.
Proof. destruct l; congruence. Qed.

(** A frame of several instructions: they are handled in order. *)
Lemma message_loop_wire (l : list instruction) :
  forall (pre : jsstring) (ee : jsnum) (k : nat) (t : T),
    l <> [] ->
    toInteger (add ee (Num 1)) = jslength pre ->
    message_loop no_period handle (elements_count l + k) (pre ++ wire l)
                 (Num (jslength pre)) ee [] t
    = handle_all handle l t.
Proof.
  induction l as [|[opcode args] l IH]; intros pre ee k t Hne Hee;
    [congruence|].
  cbn [wire flat_map fst snd elements_count fold_right handle_all].
  fold (wire l); fold (elements_count l).
  rewrite <- Nat.add_assoc.
  rewrite message_loop_instruction by assumption.
  cbn [app].
  destruct (handle opcode args t) as [[] t']; try reflexivity.
  destruct l as [|i l]; [reflexivity|].
  rewrite match_not_nil by (apply wire_not_nil; discriminate).
  rewrite app_assoc.
  apply IH; [discriminate|].
  cbn [add toInteger]; lia.
Qed.
End SocketFrames.

(** *** The parser of [parseResponse] on whole elements *)

Lemma waiting_length (pre : jsstring) (x : jsstring) :
  jslength (pre ++ x) - 1 = jslength pre + jslength x - 1.
Proof. rewrite jslength_app; lia. Qed.

(** The pending element is taken once its terminator is there. *)
Lemma take_pending (pre e : jsstring) (c : ascii) (tail : jsstring)
    (acc : list jsstring) :
  take (pre ++ getElement e ++ c :: tail) (pending pre e acc)
  = if jsstring_eqb [c] [";"%char] then
      (match acc ++ [e] with
       | opcode :: rest => Some (opcode, rest)
       | [] => None
       end,
       waiting (pre ++ getElement e ++ [c]) [])
    else (None, waiting (pre ++ getElement e ++ [c]) (acc ++ [e])).
Proof.
  unfold take, pending, waiting; cbn [elementEnd startIndex elements].
  rewrite getElement_jslength.
  pose proof (jslength_nonneg pre);
    pose proof (jslength_nonneg (Number_toString (List.length e)));
    pose proof (jslength_nonneg e).
  replace (ge _ _) with true
    by (cbn [ge]; symmetry; apply Z.leb_le; lia).
  cbn [add].
  rewrite (element_value pre e (c :: tail) _ _ eq_refl) by lia.
  rewrite (element_terminator pre e (c :: tail) c tail _ _ eq_refl) by lia.
  rewrite !jslength_app, getElement_jslength.
  change (jslength [c]) with 1.
  destruct (jsstring_eqb [c] [";"%char]).
  - destruct (acc ++ [e]) as [|opcode rest]; do 3 f_equal; lia.
  - do 3 f_equal; lia.
Qed.

(** Nothing is taken between two elements. *)
Lemma take_waiting (current pre : jsstring) (acc : list jsstring) :
  take current (waiting pre acc) = (None, waiting pre acc).
Proof.
  unfold take, waiting; cbn [elementEnd startIndex ge].
  now replace (jslength pre <=? jslength pre - 1) with false
    by (symmetry; apply Z.leb_gt; lia).
Qed.

Lemma lt_waiting (pre rest : jsstring) (acc : list jsstring) :
  lt (elementEnd (waiting pre acc)) (Num (jslength (pre ++ rest))) = true.
Proof.
  cbn [waiting elementEnd lt]; apply Z.ltb_lt.
  rewrite jslength_app; pose proof (jslength_nonneg rest); lia.
Qed.

(** The search between two elements: the length of an element that is
    not empty, a length of zero, or no period yet. *)
Lemma search_waiting_element (pre e post : jsstring) (acc : list jsstring) :
  e <> [] ->
  search (pre ++ getElement e ++ post) (waiting pre acc)
  = next_element (pending pre e acc).
Proof.
  intros He; unfold search, waiting; cbn [elementEnd startIndex elements].
  rewrite (element_lengthEnd pre e post).
  pose proof (jslength_nonneg pre);
    pose proof (jslength_nonneg (Number_toString (List.length e))).
  replace (negb (jslength pre
                 + jslength (Number_toString (List.length e)) =? -1))
    with true by (symmetry; apply negb_true_iff, Z.eqb_neq; lia).
  cbn [add].
  rewrite (element_length pre e post (Num (jslength pre - 1 + 1)) _)
    by (cbn [toInteger]; lia).
  replace (is_num (Num (jslength e)) 0) with false.
  2:{ cbn [is_num]; symmetry; apply Z.eqb_neq.
      unfold jslength; destruct e; [congruence|cbn [List.length]; lia]. }
  unfold pending; cbn [add]; rewrite getElement_jslength.
  do 2 f_equal; f_equal; lia.
Qed.

Lemma search_waiting_end (pre post : jsstring) (acc : list jsstring) :
  search (pre ++ getElement [] ++ post) (waiting pre acc) = end_marker.
Proof.
  unfold search, waiting; cbn [elementEnd startIndex elements].
  rewrite (element_lengthEnd pre [] post).
  pose proof (jslength_nonneg pre);
    pose proof (jslength_nonneg (Number_toString (List.length (@nil ascii)))).
  replace (negb (jslength pre
                 + jslength (Number_toString (List.length (@nil ascii))) =? -1))
    with true by (symmetry; apply negb_true_iff, Z.eqb_neq; lia).
  cbn [add].
  rewrite (element_length pre [] post (Num (jslength pre - 1 + 1)) _)
    by (cbn [toInteger]; lia).
  reflexivity.
Qed.

Lemma search_waiting_nothing (pre : jsstring) (acc : list jsstring) :
  search pre (waiting pre acc) = no_period (waiting pre acc).
Proof.
  unfold search, waiting; cbn [elementEnd startIndex elements].
  now rewrite ResponseDecoder.indexOf_end.
Qed.

Section ResponseFrames.
Context {T : Type}.
Variable deliver : jsstring -> list jsstring -> T -> T.
Variable end_of_response : T -> outcome * T.
Let handle := fun opcode rest (t : T) => (Returned, deliver opcode rest t).

(** Between two elements, in front of an element that is not empty. *)
Lemma after_take_encode (pre e : jsstring) (es : list jsstring)
    (tail : jsstring) (acc : list jsstring) (f : nat) (t : T) :
  e <> [] ->
  after_take handle end_of_response f (pre ++ encode e es ++ tail)
             (waiting pre acc) t
  = response_loop handle end_of_response f (pre ++ encode e es ++ tail)
                  (pending pre e acc) t.
Proof.
  intros He; unfold after_take.
  destruct (encode_shape e es) as (c & rest & Es).
  rewrite Es at 1; rewrite <- app_assoc.
  now rewrite search_waiting_element.
Qed.

(** A whole instruction whose first element is pending. *)
Lemma response_loop_instruction (es : list jsstring) :
  forall (e pre : jsstring) (acc : list jsstring) (k : nat) (t : T)
         (tail : jsstring),
    Forall (fun x => x <> []) es ->
    response_loop handle end_of_response (S (List.length es) + k)
                  (pre ++ encode e es ++ tail) (pending pre e acc) t
    = match acc ++ e :: es with
      | opcode :: rest =>
          after_take handle end_of_response k (pre ++ encode e es ++ tail)
                     (waiting (pre ++ encode e es) [])
                     (deliver opcode rest t)
      | [] => (Returned, (waiting (pre ++ encode e es) [], t))
      end.
Proof.
  induction es as [|e' es IH]; intros e pre acc k t tail Hne.
  - rewrite encode_nil, <- app_assoc; cbn [app List.length Nat.add].
    rewrite ResponseFacts.response_loop_unfold, take_pending.
    rewrite jsstring_eqb_refl.
    replace (lt _ _) with true.
    2:{ symmetry; unfold pending; cbn [elementEnd lt]; apply Z.ltb_lt.
        rewrite !jslength_app.
        change (jslength (";"%char :: tail))
          with (Z.of_nat (S (List.length tail))); lia. }
    replace (pre ++ getElement e ++ ";"%char :: tail)
      with ((pre ++ getElement e ++ [";"%char]) ++ tail)
      by (now rewrite <- !app_assoc).
    destruct (acc ++ [e]) as [|opcode rest] eqn:E;
      [destruct acc; discriminate|].
    reflexivity.
  - inversion Hne as [|? ? He' Hes]; subst.
    set (pre' := pre ++ getElement e ++ [","%char]).
    assert (C1 : pre ++ encode e (e' :: es) ++ tail
                 = pre ++ getElement e ++ ","%char :: encode e' es ++ tail).
    { rewrite encode_cons, <- app_assoc; reflexivity. }
    assert (C2 : pre ++ encode e (e' :: es) ++ tail
                 = pre' ++ encode e' es ++ tail).
    { rewrite C1; unfold pre'; now rewrite <- !app_assoc. }
    assert (C3 : pre ++ encode e (e' :: es) = pre' ++ encode e' es).
    { rewrite encode_cons; unfold pre'; now rewrite <- !app_assoc. }
    rewrite C3.
    transitivity
      (response_loop handle end_of_response (S (S (List.length es) + k))
         (pre ++ getElement e ++ ","%char :: encode e' es ++ tail)
         (pending pre e acc) t);
      [now rewrite C1|].
    rewrite ResponseFacts.response_loop_unfold, take_pending.
    rewrite jsstring_eqb_neq by discriminate.
    replace (lt _ _) with true.
    2:{ symmetry; unfold pending; cbn [elementEnd lt]; apply Z.ltb_lt.
        rewrite !jslength_app.
        change (jslength (","%char :: encode e' es ++ tail))
          with (Z.of_nat (S (List.length (encode e' es ++ tail)))); lia. }
    fold pre'; rewrite <- C1, C2.
    rewrite after_take_encode, IH by assumption.
    now rewrite <- (app_assoc acc [e]).
Qed.

(** A list of instructions without empty element, between two elements. *)
Lemma after_take_wire (l : list instruction) :
  forall (pre : jsstring) (k : nat) (t : T) (tail : jsstring),
    Forall no_empty_element l ->
    after_take handle end_of_response (elements_count l + k)
               (pre ++ wire l ++ tail) (waiting pre []) t
    = after_take handle end_of_response k (pre ++ wire l ++ tail)
                 (waiting (pre ++ wire l) []) (deliver_all deliver l t).
Proof.
  induction l as [|[opcode args] l IH]; intros pre k t tail Hne.
  - cbn; now rewrite app_nil_r.
  - inversion Hne as [|? ? [Ho Ha] Hl]; subst; cbn [fst snd] in *.
    cbn [wire flat_map fst snd elements_count fold_right deliver_all
         fold_left].
    fold (wire l); fold (elements_count l).
    fold (deliver_all deliver l (deliver opcode args t)).
    rewrite <- Nat.add_assoc.
    rewrite <- (app_assoc (encode opcode args)).
    rewrite after_take_encode by assumption.
    rewrite response_loop_instruction by assumption.
    cbn [app].
    rewrite !(app_assoc pre (encode opcode args)).
    now rewrite IH.
Qed.

(** The first call of [parseResponse] on such a text, followed by
    [tail]. *)
Lemma response_loop_wire (l : list instruction) (k : nat) (t : T)
    (tail : jsstring) :
  Forall no_empty_element l ->
  response_loop handle end_of_response (S (elements_count l + k))
                (wire l ++ tail) new_parser t
  = after_take handle end_of_response k (wire l ++ tail)
               (waiting (wire l) []) (deliver_all deliver l t).
Proof.
  intros Hne.
  change new_parser with (waiting [] []).
  rewrite ResponseFacts.response_loop_unfold.
  change (wire l ++ tail) with ([] ++ wire l ++ tail) at 1.
  rewrite lt_waiting, take_waiting.
  now apply (after_take_wire l []).
Qed.
End ResponseFrames.

Lemma handle_all_collect (l : list instruction) (acc : list instruction) :
  handle_all collect l acc = (Returned, acc ++ l).
Proof.
  revert acc; induction l as [|[o a] l IH]; intros acc; cbn.
  - now rewrite app_nil_r.
  - now rewrite IH, <- app_assoc.
Qed.

Lemma deliver_all_collect (l : list instruction) (acc : list instruction)
    (e : bool) :
  deliver_all (fun o a (s : list instruction * bool) =>
                 (fst s ++ [(o, a)], snd s)) l (acc, e)
  = (acc ++ l, e).
Proof.
  revert acc; induction l as [|[o a] l IH]; intros acc; cbn.
  - now rewrite app_nil_r.
  - unfold deliver_all in IH; rewrite IH, <- app_assoc; reflexivity.
Qed.

End FrameFacts.

(** ** Frames of several instructions *)

Module Frames.
Import JS Base Codec Spec Views JSFacts CodecFacts FrameFacts.

(** X1.  A WebSocket frame that carries several instructions, each
    encoded as [sendMessage] does, is decoded by [socket.onmessage] into
    exactly these instructions, in order: after the timeouts are reset
    they are handled one after the other, and nothing else is done.  One
    iteration per element is enough. *)
Theorem socket_frame {codes : StatusCode} (l : list instruction)
    (fuel : nat) :
  l <> [] -> (elements_count l <= fuel)%nat ->
  socket_decode fuel (wire l) = (Returned, l)
  /\ (forall t : WS.WebSocketTunnel,
         WS.onmessage fuel (wire l) t
         = handle_all WS.handle_instruction l (WS.reset_timeout t)).
Proof.
  intros Hne Hfuel.
  replace fuel with (elements_count l + (fuel - elements_count l))%nat
    by lia.
  split.
  - unfold socket_decode.
    change (wire l) with ([] ++ wire l).
    change (Num 0) with (Num (jslength [])).
    rewrite message_loop_wire by auto.
    apply handle_all_collect.
  - intros t; unfold WS.onmessage.
    change (wire l) with ([] ++ wire l).
    change (Num 0) with (Num (jslength [])).
    now rewrite message_loop_wire.
Qed.

Lemma socket_frame_witness :
  socket_decode 5 (wire [(str "size", [str "1,2;"; str ""]);
                         (str "", [str "ping"])])
  = (Returned, [(str "size", [str "1,2;"; str ""]); (str "", [str "ping"])]).
Proof.
  apply (@socket_frame example_codes
           [(str "size", [str "1,2;"; str ""]); (str "", [str "ping"])] 5).
  - discriminate.
  - cbn; lia.
Defined.

(** X2.  A response that carries several instructions without empty
    element, each encoded as [sendMessage] does, is decoded by the loop
    of [parseResponse] into exactly these instructions, in order; the
    variables are left at the end of the text.  When the end marker [0.;]
    follows, the same instructions are handed over before the end of the
    response is handled.  One iteration per element and one more are
    enough. *)
Theorem response_frame (l : list instruction) (fuel : nat) :
  Forall no_empty_element l -> (elements_count l < fuel)%nat ->
  response_decode fuel (wire l) new_parser
  = (Returned, (finished (wire l), (l, false)))
  /\ response_decode fuel (wire l ++ encode [] []) new_parser
     = (Returned, (waiting (wire l) [], (l, true))).
Proof.
  intros Hne Hfuel.
  replace fuel
    with (S (elements_count l + (fuel - S (elements_count l))))%nat by lia.
  set (k := (fuel - S (elements_count l))%nat).
  rewrite !ResponseFacts.response_decode_eq.
  change collect_instruction
    with (fun o a (s : list instruction * bool) =>
            (Returned,
             (fun o a (s : list instruction * bool) =>
                (fst s ++ [(o, a)], snd s)) o a s)).
  split.
  - rewrite <- (app_nil_r (wire l)) at 1.
    rewrite response_loop_wire by assumption.
    rewrite app_nil_r, deliver_all_collect.
    unfold after_take; now rewrite search_waiting_nothing.
  - rewrite response_loop_wire by assumption.
    rewrite deliver_all_collect.
    unfold after_take.
    change (encode [] []) with (getElement [] ++ [";"%char]).
    now rewrite search_waiting_end.
Qed.

Lemma response_frame_witness :
  response_decode 5 (wire [(str "size", [str "1,2;"; str "0"]);
                           (str "sync", [])]) new_parser
  = (Returned,
     (finished (wire [(str "size", [str "1,2;"; str "0"]); (str "sync", [])]),
      ([(str "size", [str "1,2;"; str "0"]); (str "sync", [])], false)))
  /\ response_decode 5 (wire [(str "size", [str "1,2;"; str "0"]);
                              (str "sync", [])] ++ encode [] []) new_parser
     = (Returned,
        (waiting (wire [(str "size", [str "1,2;"; str "0"]);
                        (str "sync", [])]) [],
         ([(str "size", [str "1,2;"; str "0"]); (str "sync", [])], true))).
Proof.
  apply (response_frame
           [(str "size", [str "1,2;"; str "0"]); (str "sync", [])] 5).
  - repeat constructor; cbn; discriminate.
  - cbn; lia.
Defined.

End Frames.

(** ** The parser of [parseResponse] on a text that grows *)

Module ResumeFacts.
Import JS Base Codec Spec Views JSFacts CodecFacts ResponseFacts.

Lemma clamp_app (x : Z) (a b : jsstring) :
  x <= jslength a -> clamp x (jslength (a ++ b)) = clamp x (jslength a).
Proof.
  intros H; unfold clamp; rewrite jslength_app.
  pose proof (jslength_nonneg a); pose proof (jslength_nonneg b); lia.
Qed.

Lemma clamp_range (x len : Z) : 0 <= len -> 0 <= clamp x len <= len.
Proof. unfold clamp; lia. Qed.

(** A part of a text does not depend on what follows it. *)
Lemma substring_app (a b : jsstring) (x y : Z) :
  x <= jslength a -> y <= jslength a ->
  substring (a ++ b) (Num x) (Num y) = substring a (Num x) (Num y).
Proof.
  intros Hx Hy; unfold substring; cbn [toInteger].
  rewrite !clamp_app by assumption.
  pose proof (clamp_range x (jslength a) (jslength_nonneg a)).
  pose proof (clamp_range y (jslength a) (jslength_nonneg a)).
  set (from := Z.min (clamp x (jslength a)) (clamp y (jslength a))) in *.
  set (to := Z.max (clamp x (jslength a)) (clamp y (jslength a))) in *.
  assert (Hf : (Z.to_nat from <= List.length a)%nat)
    by (unfold jslength in *; lia).
  rewrite skipn_app.
  replace (Z.to_nat from - List.length a)%nat with 0%nat by lia.
  cbn [skipn]; rewrite firstn_app, length_skipn.
  replace (Z.to_nat (to - from) - (List.length a - Z.to_nat from))%nat
    with 0%nat by (unfold jslength in *; lia).
  cbn [firstn]; apply app_nil_r.
Qed.

Lemma find_from_range (c : ascii) (s : jsstring) (i : Z) :
  find_from c s i = -1 \/ i <= find_from c s i < i + jslength s.
Proof.
  revert i; induction s as [|x s IH]; intros i; cbn [find_from]; auto.
  change (jslength (x :: s)) with (Z.of_nat (S (List.length s))).
  destruct (Ascii.eqb x c); [right; lia|].
  destruct (IH (i + 1)) as [H|H]; [auto|right].
  unfold jslength in H; lia.
Qed.

Lemma find_from_app (c : ascii) (s b : jsstring) (i : Z) :
  0 <= i ->
  find_from c (s ++ b) i
  = if find_from c s i =? -1 then find_from c b (i + jslength s)
    else find_from c s i.
Proof.
  revert i; induction s as [|x s IH]; intros i Hi; cbn [find_from app].
  - change (jslength []) with 0; now rewrite Z.add_0_r.
  - destruct (Ascii.eqb x c).
    + now replace (i =? -1) with false by (symmetry; apply Z.eqb_neq; lia).
    + rewrite IH by lia.
      change (jslength (x :: s)) with (Z.of_nat (S (List.length s))).
      replace (i + Z.of_nat (S (List.length s))) with (i + 1 + jslength s)
        by (unfold jslength; lia).
      reflexivity.
Qed.

(** A search in a text is a search in the longer text: what is found is
    found at the same place, and what is not found is to be searched in
    the new part only. *)
Lemma indexOf_app (c : ascii) (a b : jsstring) (position : jsnum) :
  toInteger position <= jslength a ->
  let i := indexOf c a position in
  (i = -1 /\ indexOf c (a ++ b) position
             = indexOf c (a ++ b) (Num (jslength a)))
  \/ (0 <= i < jslength a /\ indexOf c (a ++ b) position = i).
Proof.
  intros Hp; cbv zeta; unfold indexOf.
  rewrite clamp_app by assumption.
  pose proof (clamp_range (toInteger position) (jslength a)
                          (jslength_nonneg a)) as Hc.
  set (start := clamp (toInteger position) (jslength a)) in *.
  cbn [toInteger].
  rewrite (clamp_app (jslength a)) by lia.
  replace (clamp (jslength a) (jslength a)) with (jslength a)
    by (unfold clamp; pose proof (jslength_nonneg a); lia).
  assert (Hs : (Z.to_nat start <= List.length a)%nat)
    by (unfold jslength in *; lia).
  rewrite !skipn_app.
  replace (Z.to_nat start - List.length a)%nat with 0%nat by lia.
  replace (Z.to_nat (jslength a) - List.length a)%nat with 0%nat
    by (unfold jslength; lia).
  replace (skipn (Z.to_nat (jslength a)) a) with (@nil ascii)
    by (unfold jslength; now rewrite Nat2Z.id, skipn_all).
  cbn [skipn app].
  rewrite find_from_app by lia.
  assert (L : start + jslength (skipn (Z.to_nat start) a) = jslength a).
  { unfold jslength in *; rewrite length_skipn; lia. }
  destruct (find_from_range c (skipn (Z.to_nat start) a) start) as [E|E].
  - left; rewrite E; cbn [Z.eqb]; now rewrite L.
  - right; split; [lia|].
    now replace (_ =? -1) with false by (symmetry; apply Z.eqb_neq; lia).
Qed.

(** The element taken and the search, on a text and on a longer one. *)
Lemma take_app (a b : jsstring) (p : parser) (z : Z) :
  elementEnd p = Num z -> z < jslength a ->
  take (a ++ b) p = take a p.
Proof.
  intros Hz Hlt; unfold take; rewrite Hz.
  destruct (startIndex p) as [| |s]; cbn [ge]; try reflexivity.
  destruct (Z.leb_spec s z) as [Hs|Hs]; [|reflexivity].
  cbn [add].
  now rewrite !substring_app by lia.
Qed.

Lemma take_startIndex (c : jsstring) (p : parser) (z len : Z) :
  elementEnd p = Num z -> z < len -> toInteger (startIndex p) <= len ->
  elementEnd (snd (take c p)) = Num z
  /\ toInteger (startIndex (snd (take c p))) <= len.
Proof.
  intros Hz Hlt Hs; unfold take; rewrite Hz.
  destruct (ge (Num z) (startIndex p)); [|cbn [snd]; auto].
  destruct (jsstring_eqb _ _); [destruct (elements p ++ _)|];
    cbn [snd elementEnd startIndex add toInteger]; split; auto; lia.
Qed.

Lemma search_app (a b : jsstring) (p : parser) (z : Z) :
  elementEnd p = Num z -> z < jslength a ->
  toInteger (startIndex p) <= jslength a ->
  match search a p with
  | end_marker => search (a ++ b) p = end_marker
  | next_element p2 =>
      search (a ++ b) p = next_element p2
      /\ toInteger (startIndex p2) <= jslength a
  | no_period p2 =>
      search (a ++ b) p2 = search (a ++ b) p
      /\ p2 = {| elementEnd := Num z; startIndex := Num (jslength a);
                 elements := elements p |}
  end.
Proof.
  intros Hz Hlt Hs; unfold search.
  destruct (indexOf_app "."%char a b (startIndex p) Hs) as [[E E']|[E E']].
  - rewrite E; cbn [Z.eqb negb startIndex elementEnd elements].
    now rewrite E', Hz.
  - rewrite E'.
    replace (negb (indexOf "."%char a (startIndex p) =? -1)) with true
      by (symmetry; apply negb_true_iff, Z.eqb_neq; lia).
    rewrite Hz; cbn [add].
    rewrite substring_app by lia.
    destruct (is_num _ 0); [reflexivity|].
    split; [reflexivity|cbn [startIndex toInteger]; lia].
Qed.

(** More iterations change nothing once the loop has ended. *)
Lemma response_loop_more {T : Type}
    (handle : jsstring -> list jsstring -> T -> outcome * T)
    (end_of_response : T -> outcome * T) (k : nat) :
  forall (f : nat) (c : jsstring) (p : parser) (t : T),
    fst (response_loop handle end_of_response f c p t) <> Hang ->
    response_loop handle end_of_response (f + k) c p t
    = response_loop handle end_of_response f c p t.
Proof.
  induction f as [|f IH]; intros c p t H; [now cbn in H|].
  cbn [Nat.add]; rewrite !response_loop_unfold in *.
  destruct (lt _ _); [|reflexivity].
  unfold after_take in *.
  destruct (take c p) as [[[opcode rest]|] p1].
  - destruct (handle opcode rest t) as [[] t1]; try reflexivity.
    destruct (search c p1); try reflexivity; now apply IH.
  - destruct (search c p1); try reflexivity; now apply IH.
Qed.

(** The second call goes on where the first one stopped. *)
Lemma response_loop_resumes (a b : jsstring) :
  forall (f : nat) (p p1 : parser) (acc acc1 : list instruction),
    toInteger (startIndex p) <= jslength a ->
    response_loop collect_instruction mark_end f a p (acc, false)
    = (Returned, (p1, (acc1, false))) ->
    toInteger (startIndex p1) <= jslength a
    /\ forall (f' : nat) (r : outcome) (p2 : parser)
              (s : list instruction * bool),
         response_loop collect_instruction mark_end f' (a ++ b) p1
                       (acc1, false) = (r, (p2, s)) ->
         r <> Hang ->
         exists p3,
           response_loop collect_instruction mark_end (f + f') (a ++ b) p
                         (acc, false) = (r, (p3, s))
           /\ (snd s = false -> p3 = p2).
Proof.
  induction f as [|f IH]; intros p p1 acc acc1 Hs H; [discriminate|].
  rewrite response_loop_unfold in H.
  destruct (elementEnd p) as [| |z] eqn:Hz; cbn [lt] in H.
  1,2: injection H as <- <-; split; auto; intros f' r p2 s H' Hr;
       exists p2; split; auto;
       rewrite Nat.add_comm, response_loop_more; [auto|now rewrite H'].
  destruct (Z.ltb_spec z (jslength a)) as [Hlt|Hge].
  2:{ injection H as <- <-; split; auto; intros f' r p2 s H' Hr.
      exists p2; split; auto.
      rewrite Nat.add_comm, response_loop_more; [auto|now rewrite H']. }
  destruct (take_startIndex a p z (jslength a) Hz Hlt Hs) as [Hz1 Hs1].
  pose proof (take_app a b p z Hz Hlt) as Ht.
  assert (Hlt' : lt (elementEnd p) (Num (jslength (a ++ b))) = true).
  { rewrite Hz; cbn [lt]; apply Z.ltb_lt; rewrite jslength_app.
    pose proof (jslength_nonneg b); lia. }
  destruct (take a p) as [oi pt] eqn:Et; cbn [snd] in Hz1, Hs1.
  set (acc' := match oi with Some i => acc ++ [i] | None => acc end).
  assert (H0 : after_take collect_instruction mark_end f a pt (acc', false)
               = (Returned, (p1, (acc1, false)))).
  { destruct oi as [[opcode rest]|]; exact H. }
  assert (D : forall n,
             response_loop collect_instruction mark_end (S n) (a ++ b) p
                           (acc, false)
             = after_take collect_instruction mark_end n (a ++ b) pt
                          (acc', false)).
  { intros n; rewrite response_loop_unfold, Hlt', Ht.
    destruct oi as [[opcode rest]|]; reflexivity. }
  clear H; unfold after_take in H0.
  pose proof (search_app a b pt z Hz1 Hlt Hs1) as Hsearch.
  destruct (search a pt) as [|p2'|p2'].
  - discriminate.
  - destruct Hsearch as [Hsearch Hs2].
    destruct (IH p2' p1 acc' acc1 Hs2 H0) as [Hp1 C].
    split; [exact Hp1|].
    intros f' r p2 s H' Hr.
    destruct (C f' r p2 s H' Hr) as (p3 & E & Hp3).
    exists p3; split; [|exact Hp3].
    cbn [Nat.add]; rewrite D; unfold after_take; now rewrite Hsearch.
  - destruct Hsearch as [Hsearch ->].
    injection H0 as <- <-.
    split; [cbn [startIndex toInteger]; lia|].
    intros [|f'] r p2 s H' Hr; [cbn in H'; congruence|].
    rewrite response_loop_unfold in H'.
    cbn [elementEnd lt] in H'.
    replace (z <? jslength (a ++ b)) with true in H'
      by (symmetry; apply Z.ltb_lt; rewrite jslength_app;
          pose proof (jslength_nonneg b); lia).
    unfold take in H'; cbn [elementEnd startIndex ge] in H'.
    replace (jslength a <=? z) with false in H'
      by (symmetry; apply Z.leb_gt; lia).
    replace (S f + S f')%nat with (S (f' + S f)) by lia.
    rewrite D.
    unfold after_take in *; rewrite Hsearch in H'.
    destruct (search (a ++ b) pt) as [|q|q].
    + cbn [mark_end] in *. injection H' as <- <- <-.
      eexists; split; [reflexivity|discriminate].
    + exists p2; split; auto.
      rewrite response_loop_more; [auto|now rewrite H'].
    + injection H' as <- <- <-. exists q; split; auto.
Qed.

End ResumeFacts.

Module Resume.
Import JS Base Codec Spec Views JSFacts ResponseFacts ResumeFacts.

(** X3.  The parser of [parseResponse] is incremental.  When a call has
    parsed the text [a], from variables whose [startIndex] lies within
    [a], without reaching the end marker, a later call on the longer
    text [a ++ b] that starts from the variables the first call has left
    hands over exactly what is still missing: the instructions of both
    calls, in this order, are those of one call on [a ++ b], the end
    marker is reached by the one if and only if it is reached by the
    other, and, when it is not reached, the variables are left the same.
    The variables left by the first call have their [startIndex] within
    the text again. *)
Theorem response_decode_resumes (a b : jsstring) (p p1 p2 : parser)
    (l1 l2 : list instruction) (e : bool) (f f' : nat) :
  toInteger (startIndex p) <= jslength a ->
  response_decode f a p = (Returned, (p1, (l1, false))) ->
  response_decode f' (a ++ b) p1 = (Returned, (p2, (l2, e))) ->
  toInteger (startIndex p1) <= jslength (a ++ b)
  /\ exists p3,
       response_decode (f + f') (a ++ b) p
       = (Returned, (p3, (l1 ++ l2, e)))
       /\ (e = false -> p3 = p2).
Proof.
  intros Hs H1 H2.
  rewrite response_decode_eq in H1.
  destruct (response_loop_resumes a b f p p1 [] l1 Hs H1) as [Hs1 C].
  split.
  - rewrite jslength_app; pose proof (jslength_nonneg b); lia.
  - pose proof (response_loop_shift f' (a ++ b) p1 l1 false) as S.
    rewrite H2 in S; cbn [orb] in S.
    destruct (C f' Returned p2 (l1 ++ l2, e) S) as (p3 & E & Hp3);
      [discriminate|].
    exists p3; split; [now rewrite response_decode_eq|exact Hp3].
Qed.

Lemma response_decode_resumes_witness :
  exists p3,
    response_decode (5 + 5) (str "4.sync;4.size,2.1" ++ str "0;") new_parser
    = (Returned,
       (p3, ([(str "sync", [])] ++ [(str "size", [str "10"])], false)))
    /\ (false = false
        -> p3 = {| elementEnd := Num 18; startIndex := Num 19;
                   elements := [] |}).
Proof.
  apply (response_decode_resumes
           (str "4.sync;4.size,2.1") (str "0;") new_parser
           {| elementEnd := Num 18; startIndex := Num 16;
              elements := [str "size"] |}
           {| elementEnd := Num 18; startIndex := Num 19; elements := [] |}
           [(str "sync", [])] [(str "size", [str "10"])] false 5 5).
  - cbn; lia.
  - reflexivity.
  - reflexivity.
Defined.

End Resume.

(** ** The HTTP tunnel: properties kept by every handler *)

Module StableFacts.
Import JS Base Codec Spec Views JSFacts TraceFacts ResponseFacts HTTPFacts.
Import HTTP.

(** A property of the state that the hooks keep is kept by the loop. *)
Lemma response_loop_invariant {T : Type} (I : T -> Prop)
    (handle : jsstring -> list jsstring -> T -> outcome * T)
    (end_of_response : T -> outcome * T) :
  (forall o a t, I t -> I (snd (handle o a t))) ->
  (forall t, I t -> I (snd (end_of_response t))) ->
  forall fuel c p t,
    I t -> I (snd (snd (response_loop handle end_of_response fuel c p t))).
Proof.
  intros Hh He; induction fuel as [|fuel IH]; intros c p t Ht; [exact Ht|].
  rewrite response_loop_unfold.
  destruct (lt _ _); [|exact Ht].
  assert (A : forall p1 t1, I t1 ->
             I (snd (snd (after_take handle end_of_response fuel c p1 t1)))).
  { intros p1 t1 H1; unfold after_take.
    destruct (search c p1); auto.
    specialize (He t1 H1); now destruct (end_of_response t1). }
  destruct (take c p) as [[[opcode rest]|] p1]; auto.
  specialize (Hh opcode rest t Ht).
  destruct (handle opcode rest t) as [[] t1]; cbn [snd] in *; auto.
Qed.

Section Stable.
Context {codes : StatusCode}.
Variable P : HTTPTunnel -> Prop.
Hypothesis HP : stable P.

Ltac stable_step :=
  first
    [ assumption
    | apply (stable_setState P HP) | apply (stable_setUUID P HP)
    | apply (stable_onerror P HP) | apply (stable_oninstruction P HP)
    | apply (stable_abort P HP) | apply (stable_connect P HP)
    | apply (stable_timeouts P HP) | apply (stable_pingInterval P HP)
    | apply (stable_token P HP) | apply (stable_polling P HP)
    | apply (stable_sending P HP) | apply (stable_send P HP)
    | apply (stable_makeRequest P HP)
    | apply (stable_reader P HP); [intros []; reflexivity|] ].

Ltac stable_tac :=
  repeat match goal with
         | |- context [if ?b then _ else _] => destruct b
         | |- context [match ?x with _ => _ end] => destruct x
         end;
  repeat stable_step.

Lemma reset_timeout_stable (t : HTTPTunnel) : P t -> P (reset_timeout t).
Proof. intros H; unfold reset_timeout; stable_tac. Qed.

Lemma close_tunnel_stable (st : Status) (t : HTTPTunnel) :
  P t -> P (close_tunnel st t).
Proof. intros H; unfold close_tunnel; stable_tac. Qed.

Lemma handleHTTPTunnelError_stable (x : XMLHttpRequest) (t : HTTPTunnel) :
  P t -> P (handleHTTPTunnelError x t).
Proof.
  intros H; unfold handleHTTPTunnelError.
  destruct (truthy _); [now apply close_tunnel_stable|].
  destruct (negb _); now apply close_tunnel_stable.
Qed.

Lemma disconnect_stable (t : HTTPTunnel) : P t -> P (disconnect t).
Proof. apply close_tunnel_stable. Qed.

Lemma write_readystatechange_stable (x : XMLHttpRequest) (t : HTTPTunnel) :
  P t -> P (write_readystatechange x t).
Proof.
  intros H; unfold write_readystatechange.
  destruct (readyState x =? 4); [|exact H].
  destruct (negb _).
  - now apply handleHTTPTunnelError_stable, reset_timeout_stable.
  - now apply (stable_send P HP), reset_timeout_stable.
Qed.

Lemma connect_stable (data : jsstring) (t : HTTPTunnel) :
  P t -> P (connect data t).
Proof.
  intros H; unfold connect.
  apply (stable_connect P HP), (stable_setState P HP).
  now apply reset_timeout_stable.
Qed.

Lemma handle_instruction_stable (opcode : jsstring)
    (elements : list jsstring) (t : HTTPTunnel) :
  P t -> P (snd (handle_instruction opcode elements t)).
Proof. intros H; unfold handle_instruction; cbn [snd]; stable_tac. Qed.

Lemma start_next_stable (id : nat) (r : reader) (t : HTTPTunnel) :
  P t -> P (start_next id r t).
Proof.
  intros H; unfold start_next.
  destruct (nextRequest r); [exact H|].
  destruct (status (xhr r) =? 200); [|exact H].
  pose proof (stable_makeRequest P HP t H) as M.
  destruct (makeRequest t) as [n t']; cbn [snd] in M.
  apply (stable_reader P HP); [intros []; reflexivity|exact M].
Qed.

Lemma clear_interval_xhr (r : reader) : xhr (clear_interval r) = xhr r.
Proof. unfold clear_interval; now destruct (interval r). Qed.

Lemma adjust_polling_stable (id : nat) (r : reader) (t : HTTPTunnel) :
  P t -> P (adjust_polling id r t).
Proof.
  intros H; unfold adjust_polling.
  destruct (pollingMode t); [|exact H].
  destruct (_ && _).
  - apply (stable_reader P HP); [intros []; reflexivity|exact H].
  - destruct (_ && _); [|exact H].
    apply (stable_reader P HP); [apply clear_interval_xhr|exact H].
Qed.

Lemma abandon_stable (id : nat) (t : HTTPTunnel) : P t -> P (abandon id t).
Proof.
  intros H; unfold abandon.
  apply (stable_abort P HP), (stable_reader P HP); [|exact H].
  intros r; cbn; apply clear_interval_xhr.
Qed.

Lemma end_of_response_stable (depth fuel id : nat) :
  (forall id t, P t -> P (snd (parseResponse depth fuel id t))) ->
  forall t, P t -> P (snd (end_of_response depth fuel id t)).
Proof.
  intros IH t H; unfold end_of_response.
  pose proof (abandon_stable id t H) as H1.
  destruct (get_reader id (abandon id t)) as [r'|]; [|exact H1].
  destruct (nextRequest r') as [n|]; [|exact H1].
  apply IH, (stable_reader P HP); [intros []; reflexivity|exact H1].
Qed.

Lemma parseResponse_stable (depth fuel : nat) :
  forall (id : nat) (t : HTTPTunnel),
    P t -> P (snd (parseResponse depth fuel id t)).
Proof.
  induction depth as [|depth IH]; intros id t H; [exact H|].
  rewrite parseResponse_unfold.
  destruct (get_reader id t) as [r|]; [|exact H].
  destruct (negb (isConnected (base t))).
  { apply (stable_reader P HP); [apply clear_interval_xhr|exact H]. }
  destruct (readyState (xhr r) <? 2); [exact H|].
  cbv zeta.
  pose proof (start_next_stable id r t H) as H1.
  destruct (_ || _); [|exact H1].
  pose proof (adjust_polling_stable id r _ (reset_timeout_stable _ H1)) as H3.
  destruct (status (xhr r) =? 0); [now apply disconnect_stable|].
  destruct (negb _); [now apply handleHTTPTunnelError_stable|].
  pose proof (response_loop_invariant P handle_instruction
                (end_of_response depth fuel id)
                (fun o a t => handle_instruction_stable o a t)
                (end_of_response_stable depth fuel id IH)
                fuel (responseText (xhr r)) (parse r) _ H3) as L.
  destruct (response_loop _ _ _ _ _ _) as [r_ [p t4]]; cbn [snd] in *.
  apply (stable_reader P HP); [intros []; reflexivity|exact L].
Qed.

Lemma handleResponse_stable (depth fuel id : nat) (t : HTTPTunnel) :
  P t -> P (snd (handleResponse depth fuel id t)).
Proof.
  intros H; rewrite handleResponse_unfold.
  apply parseResponse_stable, (stable_reader P HP);
    [intros []; reflexivity|exact H].
Qed.

Lemma connect_readystatechange_stable (depth fuel : nat)
    (x : XMLHttpRequest) (t : HTTPTunnel) :
  P t -> P (snd (connect_readystatechange depth fuel x t)).
Proof.
  intros H; unfold connect_readystatechange.
  destruct (negb (readyState x =? 4)); [exact H|].
  destruct (negb (status x =? 200));
    [now apply handleHTTPTunnelError_stable|].
  cbv zeta.
  assert (H3 : P (with_token (tunnel_token_header x)
                    (on_base (setUUID (uuid_string (responseText x)))
                             (reset_timeout t)))).
  { apply (stable_token P HP), (stable_setUUID P HP).
    now apply reset_timeout_stable. }
  destruct (tunnelSessionToken _) as [[|c k]|];
    try (now apply close_tunnel_stable).
  match goal with
  | |- context [makeRequest ?t5] =>
      assert (H5 : P t5)
        by (apply (stable_pingInterval P HP), (stable_setState P HP);
            exact H3);
      pose proof (stable_makeRequest P HP t5 H5) as H6;
      destruct (makeRequest t5) as [id t6]
  end.
  now apply handleResponse_stable.
Qed.

Lemma poll_stable (depth fuel id : nat) (t : HTTPTunnel) :
  P t -> P (snd (poll depth fuel id t)).
Proof.
  intros H; unfold poll.
  destruct (get_reader id t) as [r|]; [|exact H].
  destruct (interval r) as [[]|]; try exact H.
  now apply parseResponse_stable.
Qed.

(** The arrival of data on a request, when the change of the request
    itself keeps the property. *)
Lemma read_readystatechange_stable (depth fuel id : nat)
    (x : XMLHttpRequest) (t : HTTPTunnel) :
  P (on_reader id (set_xhr x) t) -> P t ->
  P (snd (read_readystatechange depth fuel id x t)).
Proof.
  intros Hx H; unfold read_readystatechange.
  destruct (get_reader id t) as [r|]; [|exact H].
  destruct (onreadystatechange r); [exact Hx| |];
    apply parseResponse_stable; [|exact Hx].
  destruct (readyState x =? 3); [|exact Hx].
  destruct (2 <=? _)%nat.
  - apply (stable_reader P HP); [intros []; reflexivity|].
    apply (stable_polling P HP).
    apply (stable_reader P HP); [intros []; reflexivity|exact Hx].
  - apply (stable_reader P HP); [intros []; reflexivity|exact Hx].
Qed.

Lemma receive_timeout_fired_stable (t : HTTPTunnel) :
  P t -> P (receive_timeout_fired t).
Proof.
  intros H; apply close_tunnel_stable, (stable_timeouts P HP), H.
Qed.

Lemma unstableTimeout_fired_stable (t : HTTPTunnel) :
  P t -> P (unstableTimeout_fired t).
Proof.
  intros H; apply (stable_setState P HP), (stable_timeouts P HP), H.
Qed.

(** Every event keeps the property, when the two changes that are left
    out of [stable] keep it as well. *)
Lemma step_stable (depth fuel : nat) (i : input) (t : HTTPTunnel) :
  (forall arguments,
      i = SendMessage arguments \/ i = PingInterval ->
      P (sendMessage arguments t)) ->
  (forall id x, i = ReadEvent id x -> P (on_reader id (set_xhr x) t)) ->
  P t -> P (snd (step depth fuel i t)).
Proof.
  intros Hsend Hread H; destruct i; cbn [step snd].
  - now apply connect_stable.
  - now apply disconnect_stable.
  - apply Hsend; auto.
  - now apply connect_readystatechange_stable.
  - now apply write_readystatechange_stable.
  - apply read_readystatechange_stable; auto.
  - now apply poll_stable.
  - destruct (receive_timeout t); cbn [snd];
      [now apply receive_timeout_fired_stable|exact H].
  - destruct (unstableTimeout t); cbn [snd];
      [now apply unstableTimeout_fired_stable|exact H].
  - destruct (_ || _); cbn [snd]; [apply Hsend; auto|exact H].
Qed.

End Stable.
End StableFacts.

(** ** The handlers of the HTTP tunnel return *)

Module TerminationFacts.
Import JS Base Codec Spec Views JSFacts TraceFacts ResponseFacts HTTPFacts.
Import ResumeFacts StableFacts.
Import HTTP.

Lemma indexOf_range (c : ascii) (s : jsstring) (position : jsnum) :
  indexOf c s position = -1
  \/ clamp (toInteger position) (jslength s) <= indexOf c s position
     < jslength s.
Proof.
  unfold indexOf.
  pose proof (clamp_range (toInteger position) (jslength s)
                          (jslength_nonneg s)) as Hc.
  set (start := clamp (toInteger position) (jslength s)) in *.
  destruct (find_from_range c (skipn (Z.to_nat start) s) start) as [E|E];
    [now left|right].
  unfold jslength in *; rewrite length_skipn in E; lia.
Qed.

Lemma remaining_take (c : jsstring) (p : parser) :
  remaining c (snd (take c p)) <= remaining c p.
Proof.
  unfold take, remaining.
  destruct (ge (elementEnd p) (startIndex p)) eqn:G; cbn [snd]; [|lia].
  destruct (elementEnd p) as [| |z], (startIndex p) as [| |s];
    try discriminate G.
  cbn [ge] in G; apply Z.leb_le in G.
  destruct (jsstring_eqb _ _); [destruct (_ ++ _)|];
    cbn [snd startIndex add toInteger]; unfold clamp;
    pose proof (jslength_nonneg c); lia.
Qed.

Lemma remaining_search (c : jsstring) (p p2 : parser) :
  search c p = next_element p2 -> remaining c p2 < remaining c p.
Proof.
  unfold search, remaining.
  destruct (indexOf_range "."%char c (startIndex p)) as [E|E].
  - rewrite E; discriminate.
  - replace (negb (indexOf "."%char c (startIndex p) =? -1)) with true.
    2:{ symmetry; apply negb_true_iff, Z.eqb_neq.
        pose proof (clamp_range (toInteger (startIndex p)) (jslength c)
                                (jslength_nonneg c)); lia. }
    destruct (is_num _ 0); [discriminate|].
    intros H; injection H as <-; cbn [startIndex toInteger].
    unfold clamp in *; lia.
Qed.

(** The loop of [parseResponse] ends within one iteration per character
    of the text, and one more, when its hooks return. *)
Lemma response_loop_returns {T : Type} (I : T -> Prop)
    (handle : jsstring -> list jsstring -> T -> outcome * T)
    (end_of_response : T -> outcome * T) :
  (forall o a t, I t -> fst (handle o a t) = Returned
                        /\ I (snd (handle o a t))) ->
  (forall t, I t -> fst (end_of_response t) = Returned) ->
  forall fuel c p t,
    I t -> remaining c p < Z.of_nat fuel ->
    fst (response_loop handle end_of_response fuel c p t) = Returned.
Proof.
  intros Hh He; induction fuel as [|fuel IH]; intros c p t Ht Hm.
  - exfalso; unfold remaining in Hm.
    pose proof (clamp_range (toInteger (startIndex p)) (jslength c)
                            (jslength_nonneg c)); lia.
  - rewrite response_loop_unfold.
    destruct (lt _ _); [|reflexivity].
    pose proof (remaining_take c p) as Hp1.
    assert (A : forall p1 t1, I t1 -> remaining c p1 <= remaining c p ->
               fst (after_take handle end_of_response fuel c p1 t1)
               = Returned).
    { intros p1 t1 H1 L; unfold after_take.
      destruct (search c p1) as [|p2|p2] eqn:Es; [|  |reflexivity].
      - specialize (He t1 H1); now destruct (end_of_response t1).
      - apply IH; [exact H1|].
        apply remaining_search in Es; lia. }
    destruct (take c p) as [[[opcode rest]|] p1]; cbn [snd] in Hp1; auto.
    destruct (Hh opcode rest t Ht) as [E1 E2].
    destruct (handle opcode rest t) as [r t1]; cbn [fst snd] in *; subst r.
    now apply A.
Qed.

Lemma Forall_update {A : Type} (Q : A -> Prop) (f : A -> A) (n : nat)
    (l : list A) :
  (forall x, Q x -> Q (f x)) -> Forall Q l -> Forall Q (update n f l).
Proof.
  intros Hf H; revert n; induction H as [|x l Hx Hl IH]; intros [|n]; cbn;
    constructor; auto.
Qed.

Section Returns.
Context {codes : StatusCode}.
Variable fuel : nat.

Lemma texts_below_stable : stable (texts_below fuel).
Proof.
  split; try (intros; assumption).
  - intros id f t Hf [H0 H]; split; [exact H0|].
    unfold on_reader; cbn [requests with_requests].
    apply Forall_update; [|exact H].
    intros r; now rewrite Hf.
  - intros t [H0 H]; split; [exact H0|]; cbn.
    apply Forall_app; split; [exact H|].
    repeat constructor; exact H0.
  - intros t H; unfold sendPendingMessages.
    destruct (negb _); [exact H|].
    destruct (outputMessageBuffer t); exact H.
Qed.

Lemma texts_below_reader (id : nat) (t : HTTPTunnel) (r : reader) :
  texts_below fuel t -> get_reader id t = Some r ->
  remaining (responseText (xhr r)) (parse r) < Z.of_nat fuel.
Proof.
  intros [_ H] Hr; unfold get_reader in Hr.
  apply nth_error_In in Hr.
  rewrite Forall_forall in H; specialize (H r Hr).
  unfold remaining.
  pose proof (clamp_range (toInteger (startIndex (parse r)))
                          (jslength (responseText (xhr r)))
                          (jslength_nonneg _)).
  unfold jslength in *; lia.
Qed.

Lemma texts_below_sendMessage (arguments : list jsstring) (t : HTTPTunnel) :
  texts_below fuel t -> texts_below fuel (sendMessage arguments t).
Proof.
  intros [H0 H]; split; [exact H0|].
  destruct (sendMessage_keeps arguments t) as [_ E]; now rewrite E.
Qed.

Lemma response_decode_returns (c : jsstring) (p : parser) :
  remaining c p < Z.of_nat fuel ->
  fst (response_decode fuel c p) = Returned.
Proof.
  intros H; rewrite response_decode_eq.
  apply (response_loop_returns (fun _ => True)); auto.
Qed.

(** The outcome of the loop of [parseResponse] is that of what is done
    at the end of the response. *)
Lemma parse_loop_returns (eor : HTTPTunnel -> outcome * HTTPTunnel)
    (c : jsstring) (p : parser) (t : HTTPTunnel) :
  remaining c p < Z.of_nat fuel ->
  (forall l, fst (eor (deliver_all deliver l t)) = Returned) ->
  fst (response_loop handle_instruction eor fuel c p t) = Returned.
Proof.
  intros Hm He; rewrite parse_loop_decode.
  pose proof (response_decode_returns c p Hm) as D.
  destruct (response_decode fuel c p) as [r [p' [l e]]]; cbn [fst] in D.
  destruct e; [|exact D].
  specialize (He l); now destruct (eor (deliver_all deliver l t)).
Qed.

(** A request that has just been made is not parsed. *)
Lemma parseResponse_sent (depth id : nat) (t : HTTPTunnel) (r : reader) :
  get_reader id t = Some r -> readyState (xhr r) = 1 ->
  fst (parseResponse (S depth) fuel id t) = Returned.
Proof.
  intros Hr H1; rewrite parseResponse_unfold, Hr, H1.
  destruct (negb _); reflexivity.
Qed.

Lemma deliver_all_requests (l : list instruction) (t : HTTPTunnel) :
  requests (deliver_all deliver l t) = requests t.
Proof. apply deliver_all_keeps. Qed.

Lemma get_reader_requests (id : nat) (t t' : HTTPTunnel) :
  requests t' = requests t -> get_reader id t' = get_reader id t.
Proof. unfold get_reader; now intros ->. Qed.

(** The request served by a new call of [handleResponse]: the request
    it makes ahead has just been made when its own response ends. *)
Lemma parseResponse_returns_new (depth id : nat) (t : HTTPTunnel)
    (r : reader) :
  texts_below fuel t -> get_reader id t = Some r -> nextRequest r = None ->
  fst (parseResponse (S (S depth)) fuel id t) = Returned.
Proof.
  intros Ht Hr Hn; rewrite parseResponse_unfold, Hr.
  destruct (negb _); [reflexivity|].
  destruct (readyState (xhr r) <? 2); [reflexivity|].
  cbv zeta.
  destruct (_ || _); [|reflexivity].
  destruct (status (xhr r) =? 0); [reflexivity|].
  destruct (Z.eqb_spec (status (xhr r)) 200) as [E200|]; [|reflexivity].
  cbn [negb].
  set (t3 := adjust_polling id r (reset_timeout (start_next id r t))).
  pose proof (get_reader_range _ _ _ Hr) as Hid.
  assert (F : exists r3 r',
             get_reader id t3 = Some r3
             /\ nextRequest r3 = Some (request_id t)
             /\ get_reader (request_id t) t3 = Some r'
             /\ readyState (xhr r') = 1).
  { assert (F1 : exists r1 r',
               get_reader id (start_next id r t) = Some r1
               /\ nextRequest r1 = Some (request_id t)
               /\ get_reader (request_id t) (start_next id r t) = Some r'
               /\ readyState (xhr r') = 1).
    { unfold start_next; rewrite Hn, E200, Z.eqb_refl.
      destruct (makeRequest_spec t) as (M1 & M2 & M3 & M4 & (r0 & M5 & M6)).
      assert (X : forall r0, get_reader (request_id t) (snd (makeRequest t))
                             = Some r0 -> readyState (xhr r0) = 1).
      { unfold makeRequest, get_reader, request_id; cbn.
        intros r1; rewrite nth_error_app2, Nat.sub_diag by lia; cbn.
        now intros [= <-]. }
      destruct (makeRequest t) as [n t1]; cbn [fst snd] in *; subst n.
      exists (set_nextRequest (Some (request_id t)) r), r0.
      rewrite get_reader_on_reader_eq, get_reader_on_reader_neq by lia.
      rewrite M4, Hr by lia; repeat split; auto. }
    destruct F1 as (r1 & r' & A1 & A2 & A3 & A4).
    assert (G : touches id (start_next id r t) t3).
    { eapply touches_trans;
        [apply keeps_touches, reset_timeout_keeps
        |apply adjust_polling_touches]. }
    destruct G as (_ & _ & G3 & G4).
    destruct (G4 r1 A1) as (r3 & B1 & B2).
    exists r3, r'; repeat split; auto; [congruence|].
    rewrite G3 by lia; exact A3. }
  destruct F as (r3 & r' & F1 & F2 & F3 & F4).
  assert (L : fst (response_loop handle_instruction
                     (end_of_response (S depth) fuel id) fuel
                     (responseText (xhr r)) (parse r) t3) = Returned).
  { apply parse_loop_returns; [exact (texts_below_reader id t r Ht Hr)|].
    intros l; unfold end_of_response.
    set (t4 := deliver_all deliver l t3).
    assert (E4 : forall j, get_reader j t4 = get_reader j t3)
      by (intros j; apply get_reader_requests, deliver_all_requests).
    destruct (abandon_touches id t4) as [(_ & _ & G3 & G4) _].
    rewrite <- E4 in F1, F3.
    destruct (G4 r3 F1) as (r4 & C1 & C2).
    rewrite C1, C2, F2.
    eapply (parseResponse_sent depth (request_id t)).
    - rewrite get_reader_on_reader_eq, G3, F3 by lia; reflexivity.
    - exact F4. }
  now destruct (response_loop _ _ _ _ _ _) as [r_ [p t4]].
Qed.

(** Any request: the end of its response starts a new call of
    [handleResponse]. *)
Lemma parseResponse_returns (depth id : nat) (t : HTTPTunnel) :
  texts_below fuel t ->
  fst (parseResponse (S (S (S depth))) fuel id t) = Returned.
Proof.
  intros Ht; rewrite parseResponse_unfold.
  destruct (get_reader id t) as [r|] eqn:Hr; [|reflexivity].
  destruct (negb _); [reflexivity|].
  destruct (readyState (xhr r) <? 2); [reflexivity|].
  cbv zeta.
  destruct (_ || _); [|reflexivity].
  destruct (status (xhr r) =? 0); [reflexivity|].
  destruct (negb _); [reflexivity|].
  set (t3 := adjust_polling id r (reset_timeout (start_next id r t))).
  assert (H3 : texts_below fuel t3).
  { apply (adjust_polling_stable _ texts_below_stable).
    apply (reset_timeout_stable _ texts_below_stable).
    now apply (start_next_stable _ texts_below_stable). }
  assert (L : fst (response_loop handle_instruction
                     (end_of_response (S (S depth)) fuel id) fuel
                     (responseText (xhr r)) (parse r) t3) = Returned).
  { apply parse_loop_returns; [exact (texts_below_reader id t r Ht Hr)|].
    intros l; unfold end_of_response.
    set (t4 := deliver_all deliver l t3).
    assert (H4 : texts_below fuel (abandon id t4)).
    { apply (abandon_stable _ texts_below_stable).
      destruct H3 as [H0 H3]; split; [exact H0|].
      unfold t4; now rewrite deliver_all_requests. }
    destruct (get_reader id (abandon id t4)) as [r'|]; [|reflexivity].
    destruct (nextRequest r') as [n|]; [|reflexivity].
    set (t5 := on_reader n _ _).
    assert (H5 : texts_below fuel t5)
      by (apply (stable_reader _ texts_below_stable);
          [intros []; reflexivity|exact H4]).
    destruct (get_reader n t5) as [rn|] eqn:En.
    - apply (parseResponse_returns_new depth n t5 rn H5 En).
      unfold t5 in En; rewrite get_reader_on_reader_eq in En.
      destruct (get_reader n (abandon id t4)); cbn in En; [|discriminate].
      now injection En as <-.
    - now rewrite parseResponse_unfold, En. }
  now destruct (response_loop _ _ _ _ _ _) as [r_ [p t4]].
Qed.

Lemma step_returns (depth : nat) (i : input) (t : HTTPTunnel) :
  texts_below fuel t -> input_below fuel i ->
  fst (step (S (S (S depth))) fuel i t) = Returned
  /\ texts_below fuel (snd (step (S (S (S depth))) fuel i t)).
Proof.
  intros Ht Hi; split.
  - destruct i; cbn [step fst]; try reflexivity.
    + unfold connect_readystatechange.
      destruct (negb _); [reflexivity|].
      destruct (negb _); [reflexivity|].
      cbv zeta.
      assert (H3 : texts_below fuel
                     (with_token (tunnel_token_header x)
                        (on_base (setUUID (uuid_string (responseText x)))
                                 (reset_timeout t)))).
      { apply (stable_token _ texts_below_stable).
        apply (stable_setUUID _ texts_below_stable).
        now apply (reset_timeout_stable _ texts_below_stable). }
      destruct (tunnelSessionToken _) as [[|c k]|]; try reflexivity.
      match goal with
      | |- context [makeRequest ?t5] =>
          assert (H5 : texts_below fuel t5)
            by (apply (stable_pingInterval _ texts_below_stable),
                      (stable_setState _ texts_below_stable); exact H3);
          pose proof (stable_makeRequest _ texts_below_stable t5 H5) as H6;
          destruct (makeRequest t5) as [id t6]
      end.
      rewrite handleResponse_unfold.
      apply parseResponse_returns.
      apply (stable_reader _ texts_below_stable);
        [intros []; reflexivity|exact H6].
    + unfold read_readystatechange.
      destruct (get_reader id t) as [r|]; [|reflexivity].
      assert (H1 : texts_below fuel (on_reader id (set_xhr x) t)).
      { cbn [input_below] in Hi.
        destruct Ht as [H0 H]; split; [exact H0|].
        unfold on_reader; cbn [requests with_requests].
        clear - H Hi; revert id; induction H as [|y l Hy Hl IH];
          intros [|id]; cbn; constructor; auto. }
      destruct (onreadystatechange r); [reflexivity| |];
        apply parseResponse_returns; [|exact H1].
      destruct (readyState x =? 3); [|exact H1].
      destruct (2 <=? _)%nat.
      * apply (stable_reader _ texts_below_stable);
          [intros []; reflexivity|].
        apply (stable_polling _ texts_below_stable).
        apply (stable_reader _ texts_below_stable);
          [intros []; reflexivity|exact H1].
      * apply (stable_reader _ texts_below_stable);
          [intros []; reflexivity|exact H1].
    + unfold poll.
      destruct (get_reader id t) as [r|]; [|reflexivity].
      destruct (interval r) as [[]|]; try reflexivity.
      now apply parseResponse_returns.
    + destruct (receive_timeout t); reflexivity.
    + destruct (unstableTimeout t); reflexivity.
    + destruct (_ || _); reflexivity.
  - apply (step_stable _ texts_below_stable); auto.
    + intros; now apply texts_below_sendMessage.
    + intros id x ->; cbn in Hi.
      destruct Ht as [H0 H]; split; [exact H0|].
      unfold on_reader; cbn [requests with_requests].
      clear - H Hi; revert id; induction H as [|y l Hy Hl IH];
        intros [|id]; cbn; constructor; auto.
Qed.

End Returns.
End TerminationFacts.

Module Termination.
Import JS Base Codec Spec Views TerminationFacts.
Import HTTP.

(** X4.  The handlers of the HTTP tunnel return.  Whatever the calls of
    its methods, the events of its requests and the timers, no handler
    runs on for ever: the loop of [parseResponse] ends within one
    iteration per character of the response text and one more, and
    [handleResponse] is never nested more than three calls deep, because
    the request made ahead by a call that has just begun has itself just
    been made. *)
Theorem http_handlers_return {codes : StatusCode} (depth fuel : nat)
    (inputs : list input) (t : HTTPTunnel) :
  texts_below fuel t -> Forall (input_below fuel) inputs ->
  fst (run (S (S (S depth))) fuel inputs t)
  = map (fun _ => Returned) inputs
  /\ texts_below fuel (snd (run (S (S (S depth))) fuel inputs t)).
Proof.
  intros Ht Hi; revert t Ht.
  induction Hi as [|i inputs Hi _ IH]; intros t Ht; cbn [run map];
    [split; auto|].
  destruct (step_returns fuel depth i t Ht Hi) as [E1 E2].
  destruct (step _ _ i t) as [r t1]; cbn [fst snd] in *; subst r.
  destruct (IH t1 E2) as [E3 E4].
  destruct (run _ _ inputs t1) as [rs t2]; cbn [fst snd] in *.
  now rewrite E3.
Qed.

Lemma http_handlers_return_witness :
  fst (@run example_codes 3 12
         [Connect (str "id"); ConnectEvent (ok_response 4 "uuid");
          ReadEvent 0 (ok_response 3 "4.sync;"); SendMessage [str "key"];
          ReadEvent 0 (ok_response 4 "4.sync;0.;"); Poll 1]
         (new_HTTPTunnel (new_Tunnel true true true true)))
  = map (fun _ => Returned)
        [Connect (str "id"); ConnectEvent (ok_response 4 "uuid");
         ReadEvent 0 (ok_response 3 "4.sync;"); SendMessage [str "key"];
         ReadEvent 0 (ok_response 4 "4.sync;0.;"); Poll 1].
Proof.
  apply (@http_handlers_return example_codes 0 12).
  - split; [lia|constructor].
  - repeat (apply Forall_cons; [cbn; try lia; exact I|]); apply Forall_nil.
Defined.

End Termination.

(** ** The output of the HTTP tunnel *)

Module OutputFacts.
Import JS Base Codec Spec Views JSFacts TraceFacts HTTPFacts StableFacts.
Import HTTP.

Lemma written_app (l l' : list event) :
  written (l ++ l') = written l ++ written l'.
Proof.
  induction l as [|e l IH]; [reflexivity|].
  destruct e; cbn [app written]; auto.
  now rewrite IH, app_assoc.
Qed.

Lemma written_setState (s : State) (b : Tunnel) :
  written (trace (setState s b)) = written (trace b).
Proof.
  unfold setState; destruct (negb _); [|reflexivity].
  cbn; destruct (onstatechange b); [|reflexivity].
  cbn; rewrite written_app; apply app_nil_r.
Qed.

Lemma written_setUUID (u : uuid_value) (b : Tunnel) :
  written (trace (setUUID u b)) = written (trace b).
Proof.
  unfold setUUID; cbn; destruct (onuuid b); [|reflexivity].
  cbn; rewrite written_app; apply app_nil_r.
Qed.

Lemma output_stable (K : jsstring) : stable (fun t => output t = K).
Proof.
  split; unfold output; intros; cbn [base outputMessageBuffer on_base
    with_timeouts with_pingInterval with_token with_pollingMode with_output
    on_reader with_requests makeRequest snd trace emit];
    rewrite ?written_setState, ?written_setUUID, ?written_app;
    cbn [written]; rewrite ?app_nil_r; auto.
  unfold sendPendingMessages.
  destruct (negb _); [assumption|].
  destruct (outputMessageBuffer t) as [|c b] eqn:E; cbn; rewrite ?E; auto.
  rewrite written_app; cbn [written]; now rewrite !app_nil_r.
Qed.

End OutputFacts.

Module Output.
Import JS Base Codec Spec Views JSFacts TraceFacts HTTPFacts StableFacts.
Import OutputFacts.
Import HTTP.

(** X5.  Messages leave the HTTP tunnel in the order of the calls of
    [sendMessage], each of them once.  What has been sent in write
    requests, followed by what waits in the output buffer, grows with an
    event by exactly the message the event adds: the encoding of the
    arguments for a call of [sendMessage] with arguments on a connected
    tunnel, [3.nop;] for a ping on a connected tunnel, and nothing for
    any other event, the closing of the tunnel included. *)
Theorem output_order {codes : StatusCode} (depth fuel : nat) (i : input)
    (t : HTTPTunnel) :
  output (snd (step depth fuel i t)) = output t ++ accepted i t.
Proof.
  assert (S : forall arguments,
             output (sendMessage arguments t)
             = output t
               ++ match arguments with
                  | first :: others =>
                      if isConnected (base t) then encode first others
                      else []
                  | [] => []
                  end).
  { intros arguments; unfold sendMessage.
    destruct (isConnected (base t)); cbn [negb];
      [|destruct arguments; now rewrite app_nil_r].
    destruct arguments as [|first others]; [now rewrite app_nil_r|].
    set (t1 := with_output _ _ t).
    assert (E : output t1 = output t ++ encode first others)
      by (unfold output; cbn; now rewrite app_assoc).
    destruct (negb _); [|exact E].
    now apply (stable_send _ (output_stable _)). }
  assert (G : forall j, accepted j t = [] ->
             (forall a, j <> SendMessage a) -> j <> PingInterval ->
             output (snd (step depth fuel j t)) = output t ++ accepted j t).
  { intros j -> N1 N2; rewrite app_nil_r.
    apply (step_stable _ (output_stable _)); [| |reflexivity].
    - intros a [->| ->]; [now elim (N1 a)|now elim N2].
    - intros id x _; reflexivity. }
  destruct i; try (apply G; [reflexivity|discriminate|discriminate]).
  - cbn [step snd accepted]; rewrite S.
    now destruct arguments.
  - cbn [step accepted].
    destruct (_ || _); cbn [snd andb]; [|now rewrite app_nil_r].
    unfold sendPing; now rewrite S.
Qed.

End Output.

(** ** Notifications of the state *)

Module NotifyFacts.
Import JS Base Codec Spec Views JSFacts TraceFacts HTTPFacts StableFacts.

Lemma state_changes_app (l l' : list event) :
  state_changes (l ++ l') = state_changes l ++ state_changes l'.
Proof.
  induction l as [|e l IH]; [reflexivity|].
  destruct e; cbn [app state_changes]; auto.
  now rewrite IH.
Qed.

Lemma last_default (d d' : State) (l : list State) :
  l <> [] -> last l d = last l d'.
Proof.
  induction l as [|x l IH]; [congruence|intros _].
  destruct l as [|y l]; [reflexivity|].
  change (last (x :: y :: l) d) with (last (y :: l) d).
  change (last (x :: y :: l) d') with (last (y :: l) d').
  apply IH; discriminate.
Qed.

Lemma changing_snoc (init s : State) (l : list State) :
  changing init l -> s <> last l init -> changing init (l ++ [s]).
Proof.
  revert init; induction l as [|x l IH]; intros init H N; cbn [app changing].
  - cbn in N; auto.
  - destruct H as [H1 H2]; split; [exact H1|].
    apply IH; [exact H2|].
    destruct l as [|y l]; [exact N|].
    rewrite (last_default x init) by discriminate; exact N.
Qed.

Lemma last_snoc (init s : State) (l : list State) :
  last (l ++ [s]) init = s.
Proof. apply last_last. Qed.

Lemma informed_base_stable (init : State) : base_stable (informed init).
Proof.
  split.
  - intros s b (H1 & H2 & H3); unfold setState.
    destruct (State_eqb s (state b)) eqn:E; cbn [negb]; [now split|].
    cbn; rewrite H1; unfold informed; cbn.
    rewrite state_changes_app; cbn [state_changes].
    repeat split; auto; [|apply last_snoc].
    apply changing_snoc; [exact H2|].
    rewrite H3; intros ->; now rewrite State_eqb_refl in E.
  - intros u b (H1 & H2 & H3); unfold setUUID, informed; cbn.
    destruct (onuuid b); cbn; repeat split; auto;
      rewrite state_changes_app; cbn [state_changes];
      now rewrite app_nil_r.
  - intros e b N (H1 & H2 & H3); unfold informed; cbn; repeat split; auto;
      rewrite state_changes_app;
      (destruct e; cbn [state_changes]; rewrite ?app_nil_r; auto;
       now elim (N s)).
Qed.

(** *** The three tunnels change the inherited fields by [setState],
    [setUUID] and calls only *)

Section Bases.
Context {codes : StatusCode}.
Variable Q : Tunnel -> Prop.
Hypothesis HQ : base_stable Q.

Lemma base_stable_http : stable (fun t => Q (HTTP.base t)).
Proof.
  split; intros; cbn; auto;
    try (apply (base_setState Q HQ); assumption);
    try (apply (base_setUUID Q HQ); assumption);
    try (apply (base_emit Q HQ); [discriminate|assumption]).
  unfold HTTP.sendPendingMessages.
  destruct (negb _); [assumption|].
  destruct (HTTP.outputMessageBuffer t); cbn; auto.
  apply (base_emit Q HQ); [discriminate|assumption].
Qed.

Lemma http_sendMessage_base (arguments : list jsstring)
    (t : HTTP.HTTPTunnel) :
  Q (HTTP.base t) -> Q (HTTP.base (HTTP.sendMessage arguments t)).
Proof.
  intros H; unfold HTTP.sendMessage.
  destruct (negb _); [exact H|].
  destruct arguments as [|first others]; [exact H|].
  destruct (negb _); [|exact H].
  now apply (stable_send _ base_stable_http).
Qed.

Lemma http_run_base (depth fuel : nat) (inputs : list HTTP.input) :
  forall t : HTTP.HTTPTunnel,
    Q (HTTP.base t) ->
    Q (HTTP.base (snd (HTTP.run depth fuel inputs t))).
Proof.
  induction inputs as [|i inputs IH]; intros t H; cbn [HTTP.run];
    [exact H|].
  assert (H1 : Q (HTTP.base (snd (HTTP.step depth fuel i t)))).
  { apply (step_stable _ base_stable_http); auto.
    intros; now apply http_sendMessage_base. }
  destruct (HTTP.step depth fuel i t) as [[] t1]; cbn [snd] in *; auto;
    specialize (IH t1 H1);
    now destruct (HTTP.run depth fuel inputs t1).
Qed.

Ltac base_tac :=
  repeat match goal with
         | |- context [if ?b then _ else _] => destruct b
         | |- context [match ?x with _ => _ end] => destruct x
         end;
  cbn;
  repeat first
    [ assumption
    | apply (base_setState Q HQ) | apply (base_setUUID Q HQ)
    | apply (base_emit Q HQ); [discriminate|] ].

Lemma ws_reset_timeout_base (t : WS.WebSocketTunnel) :
  Q (WS.base t) -> Q (WS.base (WS.reset_timeout t)).
Proof. intros H; unfold WS.reset_timeout; base_tac. Qed.

Lemma ws_close_tunnel_base (st : Status) (t : WS.WebSocketTunnel) :
  Q (WS.base t) -> Q (WS.base (snd (WS.close_tunnel st t))).
Proof.
  intros H; unfold WS.close_tunnel, WS.socket_close; base_tac.
Qed.

Lemma ws_sendMessage_base (arguments : list jsstring)
    (t : WS.WebSocketTunnel) :
  Q (WS.base t) -> Q (WS.base (snd (WS.sendMessage arguments t))).
Proof. intros H; unfold WS.sendMessage; base_tac. Qed.

Lemma ws_handle_instruction_base (opcode : jsstring)
    (elements : list jsstring) (t : WS.WebSocketTunnel) :
  Q (WS.base t) ->
  Q (WS.base (snd (WS.handle_instruction opcode elements t))).
Proof.
  intros H; unfold WS.handle_instruction, and_then, ret.
  set (t2 := if jsstring_eqb opcode (str "getCredentials") then _ else _).
  assert (H2 : Q (WS.base t2)).
  { subst t2; unfold WS.establish; base_tac. }
  clearbody t2.
  destruct (jsstring_eqb opcode (str "reauth")).
  - pose proof (ws_close_tunnel_base WS.server_timeout t2 H2) as H3.
    destruct (WS.close_tunnel WS.server_timeout t2) as [[] t3];
      cbn [snd] in *; auto.
    base_tac.
  - cbn [snd]; base_tac.
Qed.

Lemma ws_onmessage_base (fuel : nat) (message : jsstring)
    (t : WS.WebSocketTunnel) :
  Q (WS.base t) -> Q (WS.base (snd (WS.onmessage fuel message t))).
Proof.
  intros H; unfold WS.onmessage.
  apply (message_loop_preserves
           (fun a b => Q (WS.base a) -> Q (WS.base b))); auto.
  - intros; now apply ws_close_tunnel_base.
  - intros; now apply ws_handle_instruction_base.
  - now apply ws_reset_timeout_base.
Qed.

Lemma ws_step_base (fuel : nat) (i : WS.input) (t : WS.WebSocketTunnel) :
  Q (WS.base t) -> Q (WS.base (snd (WS.step fuel i t))).
Proof.
  intros H; destruct i; cbn [WS.step].
  - unfold WS.connect; cbn [snd WS.base WS.on_base WS.with_socket].
    apply (base_emit Q HQ); [discriminate|].
    apply (base_setState Q HQ); now apply ws_reset_timeout_base.
  - now apply ws_close_tunnel_base.
  - now apply ws_sendMessage_base.
  - destruct (WS.socket t); cbn [snd]; [|exact H].
    unfold WS.onopen; cbn; now apply ws_reset_timeout_base.
  - destruct (WS.socket t); cbn [snd]; [|exact H].
    unfold WS.onclose.
    destruct reason; [destruct (negb _)|]; now apply ws_close_tunnel_base.
  - destruct (WS.socket t); cbn [snd]; [|exact H].
    now apply ws_onmessage_base.
  - destruct (WS.receive_timeout t); cbn [snd]; [|exact H].
    now apply ws_close_tunnel_base.
  - destruct (WS.unstableTimeout t); cbn [snd]; [|exact H].
    unfold WS.unstableTimeout_fired; cbn.
    now apply (base_setState Q HQ).
  - destruct (_ || _); cbn [snd]; [|exact H].
    now apply ws_sendMessage_base.
Qed.

Lemma ws_run_base (fuel : nat) (inputs : list WS.input) :
  forall t : WS.WebSocketTunnel,
    Q (WS.base t) -> Q (WS.base (snd (WS.run fuel inputs t))).
Proof.
  induction inputs as [|i inputs IH]; intros t H; cbn [WS.run]; [exact H|].
  pose proof (ws_step_base fuel i t H) as H1.
  destruct (WS.step fuel i t) as [[] t1]; cbn [snd] in *; auto;
    specialize (IH t1 H1);
    now destruct (WS.run fuel inputs t1).
Qed.

Context {P : Static.Parser}.

Lemma static_disconnect_base (t : Static.StaticHTTPTunnel) :
  Q (Static.base t) -> Q (Static.base (Static.disconnect t)).
Proof. intros H; unfold Static.disconnect; base_tac. Qed.

Lemma static_report_base (l : list instruction)
    (t : Static.StaticHTTPTunnel) :
  Q (Static.base t) -> Q (Static.base (Static.report l t)).
Proof.
  unfold Static.report; revert t; induction l as [|i l IH]; intros t H;
    cbn [fold_left]; [exact H|].
  apply IH; unfold Static.instructionReceived; base_tac.
Qed.

Lemma static_step_base (i : Static.input) (t : Static.StaticHTTPTunnel) :
  Q (Static.base t) -> Q (Static.base (Static.step i t)).
Proof.
  intros H; destruct i; cbn [Static.step].
  - unfold Static.connect; cbn.
    apply (base_emit Q HQ); [discriminate|].
    apply (base_setState Q HQ).
    now apply static_disconnect_base.
  - now apply static_disconnect_base.
  - exact H.
  - destruct (Static.xhr t); [|exact H].
    unfold Static.readyStateChanged.
    assert (H3 : Q (Static.base
                      (if (readyState =? 3) || (readyState =? 4) then
                         let t1 := Static.on_base (setState OPEN) t in
                         if Static.offset t1 <? jslength responseText then
                           let '(p, l) :=
                             Static.receive (Static.parser t1)
                               (substring responseText
                                          (Num (Static.offset t1))
                                          undefined) in
                           Static.with_parser (jslength responseText) p
                                              (Static.report l t1)
                         else t1
                       else t))).
    { destruct (_ || _); [|exact H].
      cbv zeta.
      assert (H1 : Q (Static.base (Static.on_base (setState OPEN) t)))
        by (cbn; now apply (base_setState Q HQ)).
      destruct (_ <? _); [|exact H1].
      destruct (Static.receive _ _) as [p l]; cbn.
      now apply static_report_base. }
    destruct (readyState =? 4); [now apply static_disconnect_base|exact H3].
  - destruct (Static.xhr t); [|exact H].
    unfold Static.httpError.
    apply static_disconnect_base.
    destruct (onerror (Static.base t)); [|exact H].
    cbn; apply (base_emit Q HQ); [discriminate|exact H].
Qed.

Lemma static_run_base (inputs : list Static.input) :
  forall t : Static.StaticHTTPTunnel,
    Q (Static.base t) -> Q (Static.base (Static.run inputs t)).
Proof.
  unfold Static.run; induction inputs as [|i inputs IH]; intros t H;
    cbn [fold_left]; [exact H|].
  now apply IH, static_step_base.
Qed.

End Bases.
End NotifyFacts.

Module Notify.
Import JS Base Codec Spec Views NotifyFacts.

(** X6.  The [onstatechange] handler is told of changes only.  For each
    of the HTTP, WebSocket and static tunnels, constructed with the
    handler installed and driven by any calls, events and timers: no two
    successive calls of the handler announce the same state, the first
    call does not announce CONNECTING, the state of a new tunnel, and the
    state announced last is the state the tunnel is in. *)
Theorem state_notifications {codes : StatusCode} {P : Static.Parser}
    (h_uuid h_error h_instruction : bool) :
  let b := new_Tunnel h_uuid h_error true h_instruction in
  (forall depth fuel inputs,
      informed CONNECTING
        (HTTP.base (snd (HTTP.run depth fuel inputs (HTTP.new_HTTPTunnel b)))))
  /\ (forall fuel inputs,
         informed CONNECTING
           (WS.base (snd (WS.run fuel inputs (WS.new_WebSocketTunnel b)))))
  /\ (forall inputs,
         informed CONNECTING
           (Static.base (Static.run inputs (Static.new_StaticHTTPTunnel b)))).
Proof.
  cbv zeta.
  assert (I0 : informed CONNECTING
                 (new_Tunnel h_uuid h_error true h_instruction))
    by (repeat split).
  split; [|split]; intros.
  - now apply (http_run_base _ (informed_base_stable CONNECTING)).
  - now apply (ws_run_base _ (informed_base_stable CONNECTING)).
  - now apply (static_run_base _ (informed_base_stable CONNECTING)).
Qed.

End Notify.

(** ** The numbers of the read requests *)

Module RequestFacts.
Import JS Base Codec Spec Views JSFacts TraceFacts HTTPFacts StableFacts.
Import HTTP.

Lemma reads_app (l l' : list event) : reads (l ++ l') = reads l ++ reads l'.
Proof.
  induction l as [|e l IH]; [reflexivity|].
  destruct e; cbn [app reads]; auto.
  now rewrite IH.
Qed.

Lemma reads_setState (s : State) (b : Tunnel) :
  reads (trace (setState s b)) = reads (trace b).
Proof.
  unfold setState; destruct (negb _); [|reflexivity].
  cbn; destruct (onstatechange b); [|reflexivity].
  cbn; rewrite reads_app; apply app_nil_r.
Qed.

Lemma reads_setUUID (u : uuid_value) (b : Tunnel) :
  reads (trace (setUUID u b)) = reads (trace b).
Proof.
  unfold setUUID; cbn; destruct (onuuid b); [|reflexivity].
  cbn; rewrite reads_app; apply app_nil_r.
Qed.

Lemma numbered_stable : stable numbered.
Proof.
  split; unfold numbered, request_id; intros;
    cbn [base requests on_base with_timeouts with_pingInterval with_token
         with_pollingMode with_output on_reader with_requests makeRequest
         snd trace emit];
    rewrite ?reads_setState, ?reads_setUUID, ?reads_app, ?length_update;
    cbn [reads]; rewrite ?app_nil_r; auto.
  - rewrite length_app, Nat.add_1_r, seq_S; cbn [List.length Nat.add].
    unfold request_id; now f_equal.
  - unfold sendPendingMessages.
    destruct (negb _); [assumption|].
    destruct (outputMessageBuffer t) as [|c b] eqn:E; cbn; rewrite ?E; auto.
    rewrite reads_app; cbn [reads]; now rewrite app_nil_r.
Qed.

Lemma numbered_sendMessage (arguments : list jsstring) (t : HTTPTunnel) :
  numbered t -> numbered (sendMessage arguments t).
Proof.
  intros H; unfold sendMessage.
  destruct (negb _); [exact H|].
  destruct arguments as [|first others]; [exact H|].
  destruct (negb _); [|exact H].
  now apply (stable_send _ numbered_stable).
Qed.

End RequestFacts.

Module Requests.
Import JS Base Codec Spec Views StableFacts RequestFacts.
Import HTTP.

(** X7.  Read requests are numbered as they are made: on a tunnel that
    has made none yet, after any calls, events and timers, the numbers in
    the addresses of the read requests made are 0, 1, 2, ... in this
    order, none missing and none used twice, and [request_id] is the
    number of requests made. *)
Theorem read_requests_numbered {codes : StatusCode} (depth fuel : nat)
    (inputs : list input) (t : HTTPTunnel) :
  reads (trace (base t)) = [] -> requests t = [] ->
  let t' := snd (run depth fuel inputs t) in
  reads (trace (base t')) = List.seq 0 (request_id t').
Proof.
  intros H1 H2; cbv zeta.
  assert (H : numbered t) by (unfold numbered, request_id; now rewrite H1, H2).
  clear H1 H2; revert t H.
  induction inputs as [|i inputs IH]; intros t H; cbn [run]; [exact H|].
  assert (H' : numbered (snd (step depth fuel i t))).
  { apply (step_stable _ numbered_stable); auto.
    - intros; now apply numbered_sendMessage.
    - intros id x _; unfold numbered, request_id in *; cbn.
      now rewrite HTTPFacts.length_update. }
  destruct (step depth fuel i t) as [[] t1]; cbn [snd] in *; auto;
    specialize (IH t1 H');
    now destruct (run depth fuel inputs t1).
Qed.

Lemma read_requests_numbered_witness :
  reads (trace (base (snd (@run example_codes 3 12
           [Connect (str "id"); ConnectEvent (ok_response 4 "uuid");
            ReadEvent 0 (ok_response 3 "4.sync;");
            ReadEvent 0 (ok_response 4 "4.sync;0.;");
            ReadEvent 1 (ok_response 3 "4.sync;")]
           (new_HTTPTunnel (new_Tunnel true true true true))))))
  = List.seq 0 (request_id (snd (@run example_codes 3 12
           [Connect (str "id"); ConnectEvent (ok_response 4 "uuid");
            ReadEvent 0 (ok_response 3 "4.sync;");
            ReadEvent 0 (ok_response 4 "4.sync;0.;");
            ReadEvent 1 (ok_response 3 "4.sync;")]
           (new_HTTPTunnel (new_Tunnel true true true true))))).
Proof.
  apply (@read_requests_numbered example_codes 3 12); reflexivity.
Defined.

End Requests.

(** ** The HTTP tunnel: connecting, failing, and what comes late *)

Module SessionFacts.
Import JS Base Codec Spec Views JSFacts TraceFacts HTTPFacts.
Import HTTP.

Lemma delivered_app (l l' : list event) :
  delivered (l ++ l') = delivered l ++ delivered l'.
Proof.
  induction l as [|e l IH]; [reflexivity|].
  destruct e; cbn [app delivered]; auto.
  now rewrite IH.
Qed.

Lemma delivered_setState (s : State) (b : Tunnel) :
  delivered (trace (setState s b)) = delivered (trace b).
Proof.
  unfold setState; destruct (negb _); [|reflexivity].
  cbn; destruct (onstatechange b); [|reflexivity].
  cbn; rewrite delivered_app; apply app_nil_r.
Qed.

Lemma delivered_setUUID (u : uuid_value) (b : Tunnel) :
  delivered (trace (setUUID u b)) = delivered (trace b).
Proof.
  unfold setUUID; cbn; destruct (onuuid b); [|reflexivity].
  cbn; rewrite delivered_app; apply app_nil_r.
Qed.

Lemma update_last {A : Type} (f : A -> A) (l : list A) (x : A) :
  update (List.length l) f (l ++ [x]) = l ++ [f x].
Proof. induction l as [|y l IH]; cbn; [reflexivity|now rewrite IH]. Qed.

Lemma uuid_setState (s : State) (b : Tunnel) : uuid (setState s b) = uuid b.
Proof.
  unfold setState; destruct (negb _); [|reflexivity].
  cbn; now destruct (onstatechange b).
Qed.

Lemma uuid_setUUID (u : uuid_value) (b : Tunnel) : uuid (setUUID u b) = u.
Proof. unfold setUUID; cbn; now destruct (onuuid b). Qed.

Section Session.
Context {codes : StatusCode}.

Lemma handleHTTPTunnelError_status (x : XMLHttpRequest) (t : HTTPTunnel) :
  handleHTTPTunnelError x t = close_tunnel (error_status x) t.
Proof.
  unfold handleHTTPTunnelError, error_status.
  destruct (truthy _); [reflexivity|].
  destruct (negb _); reflexivity.
Qed.



Lemma reset_timeout_not_connected (t : HTTPTunnel) :
  isConnected (base t) = false ->
  base (reset_timeout t) = base t.
Proof.
  intros H; unfold reset_timeout; cbn.
  destruct (state (base t)) eqn:E; cbn; try reflexivity.
  unfold isConnected in H; rewrite E in H; discriminate.
Qed.


Lemma close_tunnel_closed (st : Status) (t : HTTPTunnel) :
  state (base (close_tunnel st t)) = CLOSED
  /\ uuid (base (close_tunnel st t)) = uuid (base t)
  /\ requests (close_tunnel st t) = requests t
  /\ tunnelSessionToken (close_tunnel st t) = tunnelSessionToken t.
Proof.
  unfold close_tunnel; cbn.
  destruct (State_eqb (state (base t)) CLOSED) eqn:E; cbn.
  - apply State_eqb_eq in E; auto.
  - rewrite setState_state, uuid_setState.
    destruct (_ && _); [destruct (_ || _)|]; cbn; auto.
Qed.

(** [handleResponse] on a request that has just been made, on a
    connected tunnel: the request is taken over and not parsed yet. *)
Lemma handleResponse_sent (depth fuel : nat) (t : HTTPTunnel) :
  isConnected (base t) = true ->
  let r := handleResponse (S depth) fuel (fst (makeRequest t))
                          (snd (makeRequest t)) in
  fst r = Returned
  /\ base (snd r) = emit (Ev_xhr_read (request_id t)) (base t)
  /\ requests (snd r) = requests t ++ [first_reader (pollingMode t)]
  /\ tunnelSessionToken (snd r) = tunnelSessionToken t
  /\ pingInterval (snd r) = pingInterval t.
Proof.
  intros Hc; cbv zeta.
  rewrite handleResponse_unfold, parseResponse_unfold.
  unfold makeRequest, get_reader, on_reader, request_id.
  cbn [fst snd requests with_requests on_base pollingMode base].
  rewrite update_last, nth_error_app2, Nat.sub_diag by lia.
  cbn [nth_error].
  change (isConnected (emit _ (base t))) with (isConnected (base t)).
  rewrite Hc; cbn; auto.
Qed.



Lemma delivered_close_tunnel (st : Status) (t : HTTPTunnel) :
  delivered (trace (base (close_tunnel st t))) = delivered (trace (base t)).
Proof.
  unfold close_tunnel; cbn.
  destruct (State_eqb _ _); [reflexivity|]; cbn.
  rewrite delivered_setState.
  destruct (_ && _); [destruct (_ || _)|]; cbn; auto.
  rewrite delivered_app; apply app_nil_r.
Qed.

Lemma delivered_reset_timeout (t : HTTPTunnel) :
  delivered (trace (base (reset_timeout t))) = delivered (trace (base t)).
Proof.
  unfold reset_timeout; cbn.
  destruct (State_eqb _ _); [|reflexivity]; cbn; apply delivered_setState.
Qed.

Lemma parseResponse_not_connected (depth fuel id : nat) (t : HTTPTunnel) :
  isConnected (base t) = false ->
  base (snd (parseResponse depth fuel id t)) = base t.
Proof.
  intros N; destruct depth as [|depth]; [reflexivity|].
  rewrite parseResponse_unfold.
  destruct (get_reader id t); [|reflexivity].
  now rewrite N.
Qed.

End Session.
End SessionFacts.

Module Session.
Import JS Base Codec Spec Views JSFacts TraceFacts HTTPFacts SessionFacts.
Import HTTP.

(** X8.  The end of the connect request.  When it ends with status 200,
    whatever the state of the tunnel (CLOSED included: [disconnect] does
    not give the connect request up), the timeouts are reset, the
    response text becomes the UUID and the [Guacamole-Tunnel-Token]
    header the session token.  With a token that is not empty the tunnel
    is then OPEN, the ping interval runs, and exactly one read request
    has been made, which [handleResponse] has taken over without parsing
    anything; nothing else is called than [onuuid], [onstatechange] and
    the request.  With no token, or an empty one, the tunnel is CLOSED
    and no read request is made, but the UUID has been assigned. *)
Theorem connect_completed {codes : StatusCode} (depth fuel : nat)
    (x : XMLHttpRequest) (t : HTTPTunnel) :
  readyState x = 4 -> status x = 200 ->
  let u := uuid_string (responseText x) in
  let t1 := on_base (setUUID u) (reset_timeout t) in
  let r := connect_readystatechange (S depth) fuel x t in
  fst r = Returned
  /\ uuid (base (snd r)) = u
  /\ tunnelSessionToken (snd r) = tunnel_token_header x
  /\ match tunnel_token_header x with
     | Some (c :: k) =>
         base (snd r)
         = emit (Ev_xhr_read (request_id t)) (setState OPEN (base t1))
         /\ state (base (snd r)) = OPEN
         /\ pingInterval (snd r) = true
         /\ requests (snd r) = requests t ++ [first_reader (pollingMode t)]
     | _ =>
         state (base (snd r)) = CLOSED
         /\ requests (snd r) = requests t
     end.
Proof.
  intros H4 H200; cbv zeta.
  unfold connect_readystatechange; rewrite H4, H200; cbn [Z.eqb negb Pos.eqb].
  cbn [tunnelSessionToken with_token].
  set (t1 := on_base (setUUID _) (reset_timeout t)).
  assert (U : uuid (base t1) = uuid_string (responseText x))
    by apply uuid_setUUID.
  assert (R : requests t1 = requests t).
  { unfold t1, reset_timeout; cbn. now destruct (State_eqb _ _). }
  assert (M : pollingMode t1 = pollingMode t).
  { unfold t1, reset_timeout; cbn. now destruct (State_eqb _ _). }
  clearbody t1.
  assert (C : forall k,
             let r := close_tunnel
                        {| code := Num UPSTREAM_NOT_FOUND; message := None |}
                        (with_token k t1) in
             uuid (base r) = uuid_string (responseText x)
             /\ tunnelSessionToken r = k
             /\ state (base r) = CLOSED /\ requests r = requests t).
  { intros k0; cbv zeta.
    destruct (close_tunnel_closed
                {| code := Num UPSTREAM_NOT_FOUND; message := None |}
                (with_token k0 t1)) as (C1 & C2 & C3 & C4).
    rewrite C1, C2, C3, C4; cbn; auto. }
  destruct (tunnel_token_header x) as [[|c k]|] eqn:Ek;
    try (cbn [fst snd]; split; [reflexivity|apply C]).
  set (t5 := with_pingInterval true _ _).
  assert (H5 : isConnected (base t5) = true).
  { unfold t5; cbn; unfold isConnected; now rewrite setState_state. }
  destruct (handleResponse_sent depth fuel t5 H5) as (A1 & A2 & A3 & A4 & A5).
  destruct (makeRequest t5) as [id t6] eqn:E6; cbn [fst snd] in *.
  rewrite A1, A2, A3, A4, A5.
  unfold t5, request_id; cbn.
  rewrite setState_state, uuid_setState, U, R, M; auto 10.
Qed.


(** X10.  A write request that ends after the tunnel was closed brings
    the tunnel back.  Its handler resets the timeouts without a look at
    the state: on a CLOSED tunnel a completion with status 200 changes
    nothing that the application sees but leaves both timeouts pending;
    when the instability timeout then fires, the tunnel goes from CLOSED
    to UNSTABLE, [onstatechange] is told so, and [isConnected] holds
    again. *)
Theorem late_write_completion {codes : StatusCode} (depth fuel : nat)
    (x : XMLHttpRequest) (t : HTTPTunnel) :
  state (base t) = CLOSED -> readyState x = 4 -> status x = 200 ->
  let t1 := snd (step depth fuel (WriteEvent x) t) in
  let t2 := snd (step depth fuel UnstableTimeout t1) in
  base t1 = base t
  /\ receive_timeout t1 = true /\ unstableTimeout t1 = true
  /\ state (base t2) = UNSTABLE
  /\ isConnected (base t2) = true
  /\ trace (base t2)
     = trace (base t)
       ++ (if onstatechange (base t) then [Ev_onstatechange UNSTABLE]
           else []).
Proof.
  intros Hs H4 H200; cbv zeta; cbn [step snd].
  unfold write_readystatechange; rewrite H4, H200; cbn [Z.eqb Pos.eqb negb].
  assert (N : isConnected (base t) = false)
    by (unfold isConnected; now rewrite Hs).
  assert (R : sendPendingMessages (reset_timeout t) = reset_timeout t).
  { unfold sendPendingMessages.
    now rewrite (reset_timeout_not_connected t N), N. }
  rewrite R.
  assert (B : base (reset_timeout t) = base t)
    by now apply reset_timeout_not_connected.
  assert (T : receive_timeout (reset_timeout t) = true
              /\ unstableTimeout (reset_timeout t) = true)
    by (unfold reset_timeout; cbn; auto).
  destruct T as [T1 T2]; rewrite T2; cbn [snd].
  unfold unstableTimeout_fired; cbn [base on_base with_timeouts].
  rewrite B, setState_state.
  repeat split; auto.
  - unfold isConnected; now rewrite setState_state.
  - unfold setState; rewrite Hs; cbn.
    destruct (onstatechange (base t)); cbn;
      [reflexivity|now rewrite app_nil_r].
Qed.

(** X11.  An HTTP tunnel that is not connected hands over no
    instruction: whatever the event (a call, data on any request, a
    timer), if the tunnel is neither OPEN nor UNSTABLE when the event
    arrives, the [oninstruction] handler is not called during it. *)
Theorem silent_unless_connected {codes : StatusCode} (depth fuel : nat)
    (i : input) (t : HTTPTunnel) :
  isConnected (base t) = false ->
  delivered (trace (base (snd (step depth fuel i t))))
  = delivered (trace (base t)).
Proof.
  intros N; destruct i; cbn [step snd].
  - unfold connect; cbn [base on_base trace emit].
    rewrite delivered_app, delivered_setState, delivered_reset_timeout.
    apply app_nil_r.
  - apply delivered_close_tunnel.
  - unfold sendMessage; now rewrite N.
  - unfold connect_readystatechange.
    destruct (negb _); [reflexivity|].
    destruct (negb _);
      [rewrite handleHTTPTunnelError_status; apply delivered_close_tunnel|].
    cbv zeta.
    assert (D : delivered (trace (base
                  (on_base (setUUID (uuid_string (responseText x)))
                           (reset_timeout t))))
                = delivered (trace (base t)))
      by (cbn [base on_base];
          now rewrite delivered_setUUID, delivered_reset_timeout).
    cbn [tunnelSessionToken with_token].
    destruct (tunnel_token_header x) as [[|c k]|]; cbn [snd];
      try (now rewrite delivered_close_tunnel).
    set (t5 := with_pingInterval true _ _).
    assert (D5 : delivered (trace (base t5)) = delivered (trace (base t)))
      by (unfold t5; cbn [base on_base with_pingInterval with_token];
          now rewrite delivered_setState).
    destruct depth as [|depth].
    + cbn; rewrite delivered_app; cbn [delivered]. now rewrite app_nil_r.
    + assert (H5 : isConnected (base t5) = true).
      { unfold t5; cbn; unfold isConnected; now rewrite setState_state. }
      destruct (handleResponse_sent depth fuel t5 H5) as (_ & A2 & _).
      destruct (makeRequest t5) as [id t6]; cbn [fst snd] in *.
      rewrite A2; cbn; rewrite delivered_app; cbn [delivered].
      now rewrite app_nil_r.
  - unfold write_readystatechange.
    destruct (readyState x =? 4); [|reflexivity].
    destruct (negb _).
    + rewrite handleHTTPTunnelError_status, delivered_close_tunnel.
      apply delivered_reset_timeout.
    + unfold sendPendingMessages.
      rewrite (reset_timeout_not_connected t N), N; cbn [negb].
      now rewrite reset_timeout_not_connected.
  - unfold read_readystatechange.
    destruct (get_reader id t) as [r|]; [|reflexivity].
    destruct (onreadystatechange r); [reflexivity| |].
    + destruct (readyState x =? 3);
        [destruct (2 <=? S (dataUpdateEvents r))%nat|];
        (rewrite parseResponse_not_connected; [reflexivity|exact N]).
    + rewrite parseResponse_not_connected; [reflexivity|exact N].
  - unfold poll.
    destruct (get_reader id t) as [r|]; [|reflexivity].
    destruct (interval r) as [[]|]; try reflexivity.
    now rewrite parseResponse_not_connected.
  - destruct (receive_timeout t); [|reflexivity].
    cbn [snd]; unfold receive_timeout_fired.
    now rewrite delivered_close_tunnel.
  - destruct (unstableTimeout t); [|reflexivity].
    cbn [snd]; unfold unstableTimeout_fired; cbn.
    apply delivered_setState.
  - destruct (_ || _); [|reflexivity].
    cbn [snd]; unfold sendPing, sendMessage; now rewrite N.
Qed.

Lemma connect_completed_witness :
  state (base (snd (@connect_readystatechange example_codes 1 1
                      (ok_response 4 "uuid")
                      (new_HTTPTunnel (new_Tunnel true true true true)))))
  = OPEN.
Proof.
  apply (@connect_completed example_codes 0 1 (ok_response 4 "uuid")
           (new_HTTPTunnel (new_Tunnel true true true true))
           eq_refl eq_refl).
Defined.


Lemma late_write_completion_witness :
  isConnected
    (base (snd (@step example_codes 3 12 UnstableTimeout
                  (snd (@step example_codes 3 12
                          (WriteEvent (ok_response 4 ""))
                          (snd (@run example_codes 3 12
                                  [Connect (str "id");
                                   ConnectEvent (ok_response 4 "uuid");
                                   SendMessage [str "key"]; Disconnect]
                                  (new_HTTPTunnel
                                     (new_Tunnel true true true true)))))))))
  = true.
Proof.
  refine (proj1 (proj2 (proj2 (proj2 (proj2
    (@late_write_completion example_codes 3 12 (ok_response 4 "")
       (snd (@run example_codes 3 12
               [Connect (str "id"); ConnectEvent (ok_response 4 "uuid");
                SendMessage [str "key"]; Disconnect]
               (new_HTTPTunnel (new_Tunnel true true true true))))
       eq_refl eq_refl eq_refl)))))).
Defined.

Lemma silent_unless_connected_witness :
  delivered
    (trace (base (snd (@step example_codes 3 12
                         (ReadEvent 0 (ok_response 4 "4.sync;"))
                         (snd (@run example_codes 3 12
                                 [Connect (str "id");
                                  ConnectEvent (ok_response 4 "uuid");
                                  Disconnect]
                                 (new_HTTPTunnel
                                    (new_Tunnel true true true true))))))))
  = [].
Proof.
  apply (@silent_unless_connected example_codes 3 12
           (ReadEvent 0 (ok_response 4 "4.sync;"))
           (snd (@run example_codes 3 12
                   [Connect (str "id"); ConnectEvent (ok_response 4 "uuid");
                    Disconnect]
                   (new_HTTPTunnel (new_Tunnel true true true true))))).
  reflexivity.
Defined.

End Session.

(** ** The WebSocket tunnel: what it receives and what it throws *)

Module SocketFacts.
Import JS Base Codec Spec Views JSFacts CodecFacts TraceFacts FrameFacts.
Import SessionFacts.
Import WS.

(** A loop whose hooks do not throw does not throw. *)
Lemma message_loop_safe {T : Type} (I : T -> Prop)
    (no_period : T -> outcome * T)
    (handle : jsstring -> list jsstring -> T -> outcome * T) :
  (forall t, I t -> fst (no_period t) <> TypeError /\ I (snd (no_period t))) ->
  (forall o e t, I t -> fst (handle o e t) <> TypeError
                        /\ I (snd (handle o e t))) ->
  forall fuel message startIndex elementEnd elements t,
    I t ->
    let r := message_loop no_period handle fuel message startIndex
                          elementEnd elements t in
    fst r <> TypeError /\ I (snd r).
Proof.
  intros Hno Hhandle; cbv zeta.
  induction fuel as [|fuel IH]; intros message si ee els t Ht;
    cbn [message_loop]; [split; [discriminate|exact Ht]|].
  destruct (negb (indexOf "."%char message si =? -1)).
  - match goal with
    | |- context [jsstring_eqb ?a ?b] => destruct (jsstring_eqb a b)
    end.
    + match goal with
      | |- context [match ?l with [] => _ | _ :: _ => _ end] =>
          destruct l as [|opcode rest]
      end.
      * destruct (lt _ _); [now apply IH|split; [discriminate|exact Ht]].
      * destruct (Hhandle opcode rest t Ht) as [A1 A2].
        destruct (handle opcode rest t) as [[] t']; cbn [fst snd] in *;
          try (split; [discriminate|exact A2]); [|congruence].
        destruct (lt _ _); [now apply IH|split; [discriminate|exact A2]].
    + destruct (lt _ _); [now apply IH|split; [discriminate|exact Ht]].
  - destruct (Hno t Ht) as [A1 A2].
    destruct (no_period t) as [[] t1]; cbn [fst snd] in *;
      try (split; [discriminate|exact A2]); [|congruence].
    match goal with
    | |- context [jsstring_eqb ?a ?b] => destruct (jsstring_eqb a b)
    end.
    + match goal with
      | |- context [match ?l with [] => _ | _ :: _ => _ end] =>
          destruct l as [|opcode rest]
      end.
      * destruct (lt _ _); [now apply IH|split; [discriminate|exact A2]].
      * destruct (Hhandle opcode rest t1 A2) as [B1 B2].
        destruct (handle opcode rest t1) as [[] t']; cbn [fst snd] in *;
          try (split; [discriminate|exact B2]); [|congruence].
        destruct (lt _ _); [now apply IH|split; [discriminate|exact B2]].
    + destruct (lt _ _); [now apply IH|split; [discriminate|exact A2]].
Qed.

Lemma substring_beyond (s : jsstring) (x y : Z) :
  jslength s <= x -> jslength s <= y -> substring s (Num x) (Num y) = [].
Proof.
  intros Hx Hy; unfold substring, clamp; cbn [toInteger].
  pose proof (jslength_nonneg s).
  replace (Z.max (Z.min (Z.max x 0) (jslength s))
                 (Z.min (Z.max y 0) (jslength s))
           - Z.min (Z.min (Z.max x 0) (jslength s))
                   (Z.min (Z.max y 0) (jslength s)))
    with 0 by lia.
  reflexivity.
Qed.

Lemma uuid_reset_timeout (t : WebSocketTunnel) :
  uuid (base (reset_timeout t)) = uuid (base t).
Proof.
  unfold reset_timeout; cbn.
  destruct (State_eqb _ _); cbn; [apply uuid_setState|reflexivity].
Qed.

Section Socket.
Context {codes : StatusCode}.

(** *** Once there is a socket *)

Lemma close_tunnel_safe (st : Status) (t : WebSocketTunnel) :
  has_socket t ->
  fst (close_tunnel st t) <> TypeError /\ has_socket (snd (close_tunnel st t)).
Proof.
  unfold has_socket, close_tunnel, socket_close; intros H; cbn.
  destruct (State_eqb _ _); cbn; [split; [discriminate|exact H]|].
  destruct (_ && _); cbn; destruct (socket t) eqn:E; cbn;
    rewrite ?E; try congruence; (split; [discriminate|congruence]).
Qed.

Lemma sendMessage_safe (arguments : list jsstring) (t : WebSocketTunnel) :
  has_socket t ->
  fst (sendMessage arguments t) <> TypeError
  /\ has_socket (snd (sendMessage arguments t)).
Proof.
  unfold has_socket, sendMessage; intros H.
  destruct (negb _); [split; [discriminate|exact H]|].
  destruct arguments; [split; [discriminate|exact H]|].
  destruct (socket t) eqn:E; cbn; [|congruence].
  split; congruence.
Qed.

Lemma reset_timeout_socket (t : WebSocketTunnel) :
  socket (reset_timeout t) = socket t.
Proof. unfold reset_timeout; cbn; now destruct (State_eqb _ _). Qed.

Lemma handle_instruction_safe (opcode : jsstring) (elements : list jsstring)
    (t : WebSocketTunnel) :
  has_socket t ->
  fst (handle_instruction opcode elements t) <> TypeError
  /\ has_socket (snd (handle_instruction opcode elements t)).
Proof.
  intros H; unfold handle_instruction, and_then, ret.
  set (t2 := if jsstring_eqb opcode (str "getCredentials") then _ else _).
  assert (H2 : has_socket t2).
  { subst t2; unfold has_socket, establish in *.
    destruct (jsstring_eqb opcode (str "getCredentials")), (uuid (base t));
      try destruct (jsstring_eqb opcode []); cbn; exact H. }
  clearbody t2.
  destruct (jsstring_eqb opcode (str "reauth")).
  - destruct (close_tunnel_safe server_timeout t2 H2) as [A1 A2].
    destruct (close_tunnel server_timeout t2) as [[] t3]; cbn [fst snd] in *;
      try (split; [discriminate|exact A2]); [|congruence].
    split; [discriminate|].
    unfold has_socket in *; now destruct (_ && _).
  - cbn [fst snd]; split; [discriminate|].
    unfold has_socket in *; now destruct (_ && _).
Qed.

Lemma step_safe (fuel : nat) (i : input) (t : WebSocketTunnel) :
  has_socket t ->
  fst (step fuel i t) <> TypeError /\ has_socket (snd (step fuel i t)).
Proof.
  intros H; destruct i; cbn [step].
  - split; [discriminate|unfold has_socket; cbn; discriminate].
  - now apply close_tunnel_safe.
  - now apply sendMessage_safe.
  - destruct (socket t) eqn:E; cbn [fst snd];
      (split; [discriminate|]); [|exact H].
    unfold has_socket, onopen; cbn [socket with_pingInterval].
    now rewrite reset_timeout_socket, E.
  - destruct (socket t) eqn:E; [|split; [discriminate|exact H]].
    unfold onclose.
    destruct reason; [destruct (negb _)|]; now apply close_tunnel_safe.
  - destruct (socket t) eqn:E; [|split; [discriminate|exact H]].
    unfold onmessage.
    apply (message_loop_safe has_socket).
    + intros; now apply close_tunnel_safe.
    + intros; now apply handle_instruction_safe.
    + unfold has_socket; now rewrite reset_timeout_socket.
  - destruct (receive_timeout t); [|split; [discriminate|exact H]].
    now apply close_tunnel_safe.
  - destruct (unstableTimeout t); cbn [fst snd];
      (split; [discriminate|]); exact H.
  - destruct (_ || _); [|split; [discriminate|exact H]].
    now apply sendMessage_safe.
Qed.

Lemma run_safe (fuel : nat) (inputs : list input) :
  forall t, has_socket t -> ~ In TypeError (fst (run fuel inputs t)).
Proof.
  induction inputs as [|i inputs IH]; intros t H; cbn [run]; [now cbn|].
  destruct (step_safe fuel i t H) as [A1 A2].
  destruct (step fuel i t) as [[] t1]; cbn [fst snd] in *;
    try congruence.
  - specialize (IH t1 A2).
    destruct (run fuel inputs t1) as [rs t2]; cbn [fst] in *.
    intros [E|E]; [discriminate|auto].
  - cbn; intros [E|[]]; discriminate.
Qed.

(** *** A tunnel that knows its UUID *)

Lemma settled_reset_timeout (u : uuid_value) (t : WebSocketTunnel) :
  settled u t -> base (reset_timeout t) = base t.
Proof.
  intros (_ & _ & H); unfold reset_timeout; cbn.
  destruct (state (base t)) eqn:E; cbn; try reflexivity.
  unfold isConnected in H; rewrite E in H; discriminate.
Qed.

Lemma settled_close_tunnel (u : uuid_value) (st : Status)
    (t : WebSocketTunnel) :
  settled u t -> settled u (snd (close_tunnel st t)).
Proof.
  intros (H0 & H1 & H2); unfold settled, close_tunnel, socket_close; cbn.
  destruct (State_eqb _ _); cbn; [now repeat split|].
  assert (C : forall b, uuid b = uuid (base t) ->
             uuid (setState CLOSED b) = u /\ u <> uuid_null
             /\ isConnected (setState CLOSED b) = false).
  { intros b E; rewrite uuid_setState, E; repeat split; auto.
    unfold isConnected; now rewrite setState_state. }
  destruct (_ && _); cbn; destruct (socket t); cbn; now apply C.
Qed.

Lemma settled_handle_instruction (u : uuid_value) (opcode : jsstring)
    (elements : list jsstring) (t : WebSocketTunnel) :
  settled u t -> settled u (snd (handle_instruction opcode elements t)).
Proof.
  intros H; unfold handle_instruction, and_then, ret.
  replace (establish opcode elements t) with t.
  2:{ unfold establish; destruct H as (H & H' & _).
      destruct (uuid (base t)); congruence. }
  set (t2 := if jsstring_eqb opcode (str "getCredentials") then _ else _).
  assert (H2 : settled u t2)
    by (subst t2; destruct (jsstring_eqb _ _); exact H).
  clearbody t2.
  destruct (jsstring_eqb opcode (str "reauth")).
  - pose proof (settled_close_tunnel u server_timeout t2 H2) as H3.
    destruct (close_tunnel server_timeout t2) as [[] t3]; cbn [snd] in *;
      auto.
    destruct (_ && _); exact H3.
  - cbn [snd]; destruct (_ && _); exact H2.
Qed.

Lemma settled_step (u : uuid_value) (fuel : nat) (i : input)
    (t : WebSocketTunnel) :
  settled u t -> i <> UnstableTimeout -> settled u (snd (step fuel i t)).
Proof.
  intros H N; pose proof H as (H0 & H1 & H2); destruct i; cbn [step].
  - unfold settled, connect, isConnected.
    cbn [snd base on_base with_socket emit uuid state].
    rewrite uuid_setState, uuid_reset_timeout, setState_state.
    repeat split; auto.
  - now apply settled_close_tunnel.
  - unfold sendMessage; now rewrite H2.
  - destruct (socket t); [|exact H]; cbn [snd].
    unfold settled, onopen; cbn [base with_pingInterval].
    now rewrite (settled_reset_timeout u).
  - destruct (socket t); [|exact H].
    unfold onclose.
    destruct reason; [destruct (negb _)|]; now apply settled_close_tunnel.
  - destruct (socket t); [|exact H].
    unfold onmessage.
    apply (message_loop_preserves (fun a b => settled u a -> settled u b));
      auto.
    + intros; now apply settled_close_tunnel.
    + intros; now apply settled_handle_instruction.
    + unfold settled; now rewrite (settled_reset_timeout u).
  - destruct (receive_timeout t); [|exact H].
    now apply settled_close_tunnel.
  - congruence.
  - destruct (_ || _); [|exact H].
    unfold sendPing, sendMessage; now rewrite H2.
Qed.

Lemma settled_run (u : uuid_value) (fuel : nat) (inputs : list input) :
  forall t,
    settled u t -> ~ In UnstableTimeout inputs ->
    settled u (snd (run fuel inputs t)).
Proof.
  induction inputs as [|i inputs IH]; intros t H N; cbn [run]; [exact H|].
  assert (H1 : settled u (snd (step fuel i t))).
  { apply settled_step; [exact H|].
    intros ->; apply N; now left. }
  assert (N1 : ~ In UnstableTimeout inputs)
    by (intros X; apply N; now right).
  destruct (step fuel i t) as [[] t1]; cbn [snd] in *; auto;
    specialize (IH t1 H1 N1);
    now destruct (run fuel inputs t1).
Qed.

(** *** An element cut short *)

Lemma message_loop_cut_short {T : Type} (no_period : T -> outcome * T)
    (handle : jsstring -> list jsstring -> T -> outcome * T)
    (n : nat) (payload : jsstring) (es : list jsstring) :
  forall (pre : jsstring) (ee : jsnum) (acc : list jsstring) (k : nat)
         (t : T),
    (List.length payload <= n)%nat ->
    toInteger (add ee (Num 1)) = jslength pre ->
    message_loop no_period handle (S (List.length es) + k)
                 (pre ++ cut_short es n payload) (Num (jslength pre)) ee
                 acc t
    = (Returned, t).
Proof.
  induction es as [|e es IH]; intros pre ee acc k t Hn Hee.
  - unfold cut_short; cbn [flat_map app List.length Nat.add message_loop].
    destruct (Number_toString_spec n) as (D1 & D2 & D3).
    set (ds := Number_toString n) in *.
    rewrite indexOf_skip
      by (eapply Forall_impl; [|exact D2]; apply decimal_not_period).
    pose proof (jslength_nonneg pre); pose proof (jslength_nonneg ds).
    replace (negb (jslength pre + jslength ds =? -1)) with true
      by (symmetry; apply negb_true_iff, Z.eqb_neq; lia).
    rewrite (substring_between pre ds _ _ _ (jslength pre + jslength ds))
      by auto.
    rewrite D3; cbn [add].
    assert (L : jslength (pre ++ ds ++ "."%char :: payload)
                <= jslength pre + jslength ds + 1 + Z.of_nat n).
    { change ("."%char :: payload) with (["."%char] ++ payload).
      rewrite !jslength_app; change (jslength ["."%char]) with 1.
      unfold jslength; lia. }
    rewrite substring_beyond by lia.
    rewrite jsstring_eqb_neq by discriminate.
    replace (lt _ _) with false; [reflexivity|].
    cbn [lt]; symmetry; apply Z.ltb_ge; lia.
  - unfold cut_short; cbn [flat_map List.length Nat.add].
    rewrite <- !app_assoc; cbn [app].
    rewrite SocketDecoder.message_loop_element by assumption.
    rewrite jsstring_eqb_neq by discriminate.
    fold (cut_short es n payload).
    replace (lt _ _) with true.
    2:{ cbn [lt]; symmetry; apply Z.ltb_lt.
        rewrite !jslength_app.
        change (jslength (","%char :: cut_short es n payload))
          with (Z.of_nat (S (List.length (cut_short es n payload)))).
        assert (0 < List.length (cut_short es n payload))%nat
          by (unfold cut_short; rewrite !length_app; cbn [List.length]; lia).
        lia. }
    replace (jslength pre + jslength (getElement e) + 1)
      with (jslength ((pre ++ getElement e ++ [","%char]))).
    2:{ rewrite !jslength_app; change (jslength [","%char]) with 1; lia. }
    replace (pre ++ getElement e ++ ","%char :: cut_short es n payload)
      with ((pre ++ getElement e ++ [","%char]) ++ cut_short es n payload)
      by (now rewrite <- !app_assoc).
    change (S (List.length es + k)) with (S (List.length es) + k)%nat.
    apply IH; [exact Hn|].
    cbn [add toInteger]; rewrite !jslength_app;
      change (jslength [","%char]) with 1; lia.
Qed.

End Socket.
End SocketFacts.

Module Socket.
Import JS Base Codec Spec Views JSFacts CodecFacts TraceFacts FrameFacts.
Import SessionFacts SocketFacts.
Import WS.

(** X12.  Once [connect] has been called, no method and no handler of
    the WebSocket tunnel throws: whatever follows the call (calls of
    methods, events of the socket, timers), there is a socket to close
    and to send on.  The one fault that throws, a close without socket,
    is confined to the time before the first [connect]. *)
Theorem no_throw_after_connect {codes : StatusCode} (fuel : nat)
    (data : jsstring) (inputs : list input) (t : WebSocketTunnel) :
  ~ In TypeError (fst (run fuel (Connect data :: inputs) t)).
Proof.
  cbn [run step].
  pose proof (run_safe fuel inputs (connect data t)) as H.
  destruct (run fuel inputs (connect data t)) as [rs t2]; cbn [fst] in *.
  intros [E|E]; [discriminate|].
  apply H; [|exact E].
  unfold has_socket; cbn; discriminate.
Qed.

(** X13.  A message whose last element is cut short is dropped in
    silence.  When the elements before it are complete and followed by
    commas, and the text after the last length is shorter than that
    length, or as long but with no terminator after it,
    [socket.onmessage] resets the timeouts and returns: no instruction
    is handed over, the tunnel is not closed and no error is reported. *)
Theorem truncated_message_dropped {codes : StatusCode} (fuel : nat)
    (es : list jsstring) (n : nat) (payload : jsstring)
    (t : WebSocketTunnel) :
  (List.length payload <= n)%nat -> (List.length es < fuel)%nat ->
  onmessage fuel (cut_short es n payload) t = (Returned, reset_timeout t).
Proof.
  intros Hn Hfuel; unfold onmessage.
  replace fuel with (S (List.length es) + (fuel - S (List.length es)))%nat
    by lia.
  change (cut_short es n payload) with ([] ++ cut_short es n payload).
  change (Num 0) with (Num (jslength [])).
  now apply message_loop_cut_short.
Qed.

Lemma truncated_message_dropped_witness :
  @onmessage example_codes 3 (str "4.size,2.10,5.abc;") open_socket_tunnel
  = (Returned, reset_timeout open_socket_tunnel).
Proof.
  apply (@truncated_message_dropped example_codes 3
           [str "size"; str "10"] 5 (str "abc;") open_socket_tunnel).
  - cbn; lia.
  - cbn; lia.
Defined.

(** X14.  A WebSocket tunnel that knows its UUID is not opened by what
    it receives.  The first instruction opens a tunnel only while the
    UUID is null, and nothing sets the UUID back to null: when [connect]
    is called on a tunnel whose UUID is known, then, as long as the
    instability timeout does not fire, whatever the socket delivers and
    whatever is called, the tunnel is never connected (it stays
    CONNECTING or CLOSED) and keeps its UUID. *)
Theorem known_uuid_never_opens {codes : StatusCode} (fuel : nat)
    (data : jsstring) (inputs : list input) (t : WebSocketTunnel) :
  uuid (base t) <> uuid_null -> ~ In UnstableTimeout inputs ->
  let t' := snd (run fuel (Connect data :: inputs) t) in
  isConnected (base t') = false /\ uuid (base t') = uuid (base t).
Proof.
  intros Hu Hi; cbv zeta.
  assert (H : settled (uuid (base t)) (connect data t)).
  { unfold settled, connect, isConnected.
    cbn [snd base on_base with_socket emit uuid state].
    rewrite uuid_setState, uuid_reset_timeout, setState_state.
    repeat split; auto. }
  pose proof (settled_run _ fuel inputs _ H Hi) as (H0 & _ & H2).
  cbn [run step].
  destruct (run fuel inputs (connect data t)) as [rs t2]; cbn [snd] in *.
  auto.
Qed.

Lemma known_uuid_never_opens_witness :
  isConnected
    (base (snd (@run example_codes 5
                  (Connect (str "id")
                   :: [SocketOpen; SocketMessage (str "0.,4.uuid;");
                       SocketMessage (str "4.sync;")])
                  open_socket_tunnel)))
  = false.
Proof.
  apply (@known_uuid_never_opens example_codes 5 (str "id")
           [SocketOpen; SocketMessage (str "0.,4.uuid;");
            SocketMessage (str "4.sync;")] open_socket_tunnel).
  - discriminate.
  - cbn; intros [H|[H|[H|[]]]]; discriminate.
Defined.

(** X15.  On a tunnel that knows its UUID, an instruction with the
    empty opcode, such as the answer to a ping, does nothing but reset
    the timeouts: the state and the UUID are not touched and no handler
    is called, whatever the arguments. *)
Theorem internal_instruction_ignored {codes : StatusCode} (fuel : nat)
    (args : list jsstring) (t : WebSocketTunnel) :
  uuid (base t) <> uuid_null -> (List.length args < fuel)%nat ->
  onmessage fuel (encode [] args) t = (Returned, reset_timeout t).
Proof.
  intros Hu Hfuel; unfold onmessage.
  change (encode [] args) with ([] ++ encode [] args).
  change (Num 0) with (Num (jslength [])).
  rewrite SocketDecoder.message_loop_elements by auto.
  cbn [app].
  unfold handle_instruction, establish, and_then, ret.
  rewrite uuid_reset_timeout.
  destruct (uuid (base t)); [congruence| |]; reflexivity.
Qed.

Lemma internal_instruction_ignored_witness :
  @onmessage example_codes 3 (encode [] [str "ping"; str "1700000000"])
             open_socket_tunnel
  = (Returned, reset_timeout open_socket_tunnel).
Proof.
  apply (@internal_instruction_ignored example_codes 3
           [str "ping"; str "1700000000"] open_socket_tunnel).
  - discriminate.
  - cbn; lia.
Defined.

(** X16.  The encoding of [sendMessage] is unambiguous: two lists of
    instructions with the same text are the same list.  In particular
    the commas, periods and semicolons inside an element are never taken
    for separators, and no two different instructions share a text. *)
Theorem wire_injective (l l' : list instruction) :
  wire l = wire l' -> l = l'.
Proof.
  intros E.
  destruct l as [|i l], l' as [|i' l']; auto.
  - symmetry in E; apply wire_not_nil in E; [contradiction|discriminate].
  - apply wire_not_nil in E; [contradiction|discriminate].
  - set (n := elements_count (i :: l)); set (n' := elements_count (i' :: l')).
    assert (D : forall m k, m <> [] ->
               message_loop (ret (fun acc => acc)) collect
                            (elements_count m + k) (wire m) (Num 0)
                            undefined [] []
               = (Returned, m)).
    { intros m k Hm.
      change (wire m) with ([] ++ wire m).
      change (Num 0) with (Num (jslength [])).
      rewrite message_loop_wire by auto.
      apply handle_all_collect. }
    pose proof (D (i :: l) n' ltac:(discriminate)) as D1.
    pose proof (D (i' :: l') n ltac:(discriminate)) as D2.
    fold n in D1; fold n' in D2.
    rewrite E, (Nat.add_comm n n'), D2 in D1.
    congruence.
Qed.

Lemma wire_injective_witness :
  wire [(str "4.a,b;", [str "c"])] = str "6.4.a,b;,1.c;"
  /\ [(str "4.a,b;", [str "c"])] = [(str "4.a,b;", [str "c"])].
Proof.
  split; [reflexivity|].
  apply (wire_injective [(str "4.a,b;", [str "c"])]
                        [(str "4.a,b;", [str "c"])]).
  reflexivity.
Defined.

End Socket.

(** ** The chained tunnel: trying the tunnels in turn *)

Module ChainFacts.
Import JS Base Codec Spec Views.
Import Chained.

Section Chain.
Context {codes : StatusCode}.
Variable st : nat -> Status.
Hypothesis st_not_timeout : forall i, code_is (st i) UPSTREAM_TIMEOUT = false.

(** What the failure of the attached tunnel does. *)
Lemma fails_next_eq (c : ChainedTunnel) (t next : nat) (rest : list nat) :
  attached c t -> tunnels c = next :: rest -> t <> next ->
  run (fails st t) c
  = attach next
      (on_object t
         (fun w => {| w_uuid := w_uuid w; w_onuuid := w_onuuid w;
                      w_onerror := cb_null; w_onstatechange := cb_null;
                      w_oninstruction := cb_null |})
         (with_tunnels rest c)).
Proof.
  intros (A1 & A2 & A3) Ht Hne.
  unfold run, fails; cbn [fold_left step].
  unfold tunnel_onerror; rewrite A1.
  unfold wrapper_onerror, failTunnel.
  rewrite st_not_timeout, Ht.
  set (c1 := attach next _).
  assert (O : w_onstatechange (objects c1 t) = cb_null).
  { unfold c1, attach; cbn.
    replace (t =? next)%nat with false
      by (symmetry; now apply Nat.eqb_neq).
    now rewrite Nat.eqb_refl. }
  unfold tunnel_onstatechange; now rewrite O.
Qed.

Lemma fails_next (c0 c : ChainedTunnel) (t next : nat) (rest : list nat)
    (tr : list event) :
  trying c0 c t (next :: rest) tr -> t <> next ->
  trying c0 (run (fails st t) c) next rest
         (tr ++ [Tunnel_connect next (connect_data c0)])
  /\ committedTunnel (run (fails st t) c) = committedTunnel c.
Proof.
  intros (A & Ht & Htr & Hd & He & Hs) Hne.
  rewrite (fails_next_eq c t next rest A Ht Hne).
  unfold attach, trying, attached; cbn.
  rewrite Nat.eqb_refl; cbn.
  rewrite Htr, Hd; repeat split; auto.
Qed.

Lemma fails_last_eq (c : ChainedTunnel) (t : nat) :
  attached c t -> tunnels c = [] ->
  run (fails st t) c
  = let c1 := match onerror c with
              | Some f => emit (App_onerror f (st t)) c
              | None => c
              end in
    match onstatechange c with
    | Some g => emit (App_onstatechange g CLOSED) c1
    | None => c1
    end.
Proof.
  intros (A1 & A2 & A3) Ht.
  unfold run, fails; cbn [fold_left step].
  unfold tunnel_onerror; rewrite A1.
  unfold wrapper_onerror, failTunnel.
  rewrite st_not_timeout, Ht.
  unfold tunnel_onstatechange.
  destruct (onerror c) as [f|]; cbn [objects emit]; rewrite A2;
    unfold wrapper_onstatechange, failTunnel; cbn [tunnels emit];
    rewrite Ht; cbn [onstatechange emit]; reflexivity.
Qed.

Lemma fails_last (c0 c : ChainedTunnel) (t : nat) (tr : list event) :
  trying c0 c t [] tr ->
  trace (run (fails st t) c)
  = tr ++ last_failure (onerror c0) (onstatechange c0) (st t)
  /\ tunnels (run (fails st t) c) = []
  /\ committedTunnel (run (fails st t) c) = committedTunnel c.
Proof.
  intros (A & Ht & Htr & Hd & He & Hs).
  rewrite (fails_last_eq c t A Ht); cbv zeta; unfold last_failure.
  rewrite He, Hs.
  destruct (onerror c0) as [f|], (onstatechange c0) as [g|]; cbn;
    rewrite Htr, ?Ht, <- ?app_assoc, ?app_nil_r; auto.
Qed.

Lemma last_shift {A : Type} (l : list A) :
  forall x d : A, last (x :: l) d = last l x.
Proof.
  induction l as [|y l IH]; intros x d; [reflexivity|].
  change (last (x :: y :: l) d) with (last (y :: l) d).
  now rewrite !IH.
Qed.

Lemma run_app (l l' : list input) (c : ChainedTunnel) :
  run (l ++ l') c = run l' (run l c).
Proof. unfold run; apply fold_left_app. Qed.

(** The tunnels left fail one after the other. *)
Lemma fails_all (c0 : ChainedTunnel) (rest : list nat) :
  forall (c : ChainedTunnel) (t : nat) (tr : list event),
    trying c0 c t rest tr -> NoDup (t :: rest) ->
    committedTunnel c = None ->
    let c' := run (flat_map (fails st) (t :: rest)) c in
    trace c'
    = tr ++ map (fun i => Tunnel_connect i (connect_data c0)) rest
         ++ last_failure (onerror c0) (onstatechange c0)
                         (st (last rest t))
    /\ tunnels c' = [] /\ committedTunnel c' = None.
Proof.
  induction rest as [|next rest IH]; intros c t tr H N Hc; cbv zeta.
  - cbn [flat_map]; rewrite app_nil_r.
    destruct (fails_last c0 c t tr H) as (E1 & E2 & E3).
    cbn [map app last]; rewrite E1, E2, E3; auto.
  - cbn [flat_map]; rewrite run_app.
    inversion N as [|? ? N1 N2]; subst.
    assert (Hne : t <> next) by (intros ->; apply N1; now left).
    destruct (fails_next c0 c t next rest tr H Hne) as [H' Hc'].
    rewrite Hc in Hc'.
    destruct (IH _ next _ H' N2 Hc') as (E1 & E2 & E3).
    cbn [flat_map] in E1, E2, E3.
    rewrite E1, E2, E3; repeat split; auto.
    rewrite <- app_assoc; cbn [map app].
    now rewrite (last_shift rest next t).
Qed.

(** *** The methods of the chain *)

Lemma last_connected_app (l l' : list event) :
  last_connected (l ++ l')
  = match last_connected l' with
    | Some t => Some t
    | None => last_connected l
    end.
Proof.
  induction l as [|e l IH]; cbn [app last_connected].
  - now destruct (last_connected l').
  - rewrite IH; destruct (last_connected l'); [reflexivity|].
    reflexivity.
Qed.

Lemma delegating_emit (e : event) (c : ChainedTunnel) :
  (forall t d, e <> Tunnel_connect t d) ->
  delegating c -> delegating (emit e c).
Proof.
  intros N [H1 H2]; unfold delegating; cbn.
  rewrite last_connected_app.
  assert (E : last_connected [e] = None)
    by (destruct e; try reflexivity; now elim (N t data)).
  now rewrite E.
Qed.

Lemma delegating_attach (t : nat) (c : ChainedTunnel) :
  delegating (attach t c).
Proof.
  unfold delegating, attach; cbn.
  now rewrite last_connected_app.
Qed.

Lemma delegating_commit_tunnel (t : nat) (c : ChainedTunnel) :
  delegating c -> delegating (commit_tunnel t c).
Proof.
  intros H; unfold commit_tunnel, setUUID.
  destruct (uuid_truthy _); [|exact H].
  cbn [onuuid with_uuid on_object].
  destruct (onuuid c); [|exact H].
  destruct H as [H1 H2]; unfold delegating; cbn.
  now rewrite last_connected_app.
Qed.

Lemma delegating_failTunnel (t : nat) (status : option Status)
    (c : ChainedTunnel) :
  delegating c -> delegating (snd (failTunnel t status c)).
Proof.
  intros H; unfold failTunnel.
  destruct (match status with Some _ => _ | None => _ end); [exact H|].
  destruct (tunnels c); [exact H|].
  cbn [snd]; apply delegating_attach.
Qed.

Lemma delegating_step (i : input) (c : ChainedTunnel) :
  delegating c -> delegating (step i c).
Proof.
  intros H; destruct i; cbn [step].
  - unfold connect; cbn [committedTunnel with_connect_data tunnels onerror].
    destruct (committedTunnel c); [apply delegating_attach|].
    destruct (tunnels c); [|apply delegating_attach].
    destruct (onerror c); [|exact H].
    apply delegating_emit; [discriminate|exact H].
  - unfold disconnect.
    destruct (disconnect_of c); [|exact H].
    apply delegating_emit; [discriminate|exact H].
  - unfold sendMessage.
    destruct (sendMessage_of c); [|exact H].
    apply delegating_emit; [discriminate|exact H].
  - unfold tunnel_onstatechange.
    destruct (w_onstatechange _); [exact H| |].
    + apply delegating_emit; [discriminate|exact H].
    + unfold wrapper_onstatechange.
      destruct s; try exact H.
      * pose proof (delegating_commit_tunnel t c H) as H1.
        destruct (onstatechange (commit_tunnel t c)); [|exact H1].
        apply delegating_emit; [discriminate|exact H1].
      * pose proof (delegating_failTunnel t None c H) as H1.
        destruct (failTunnel t None c) as [[next|] c1]; cbn [snd] in H1;
          [exact H1|].
        destruct (onstatechange c1); [|exact H1].
        apply delegating_emit; [discriminate|exact H1].
  - unfold tunnel_oninstruction.
    destruct (w_oninstruction _); [exact H| |].
    + apply delegating_emit; [discriminate|exact H].
    + unfold wrapper_oninstruction.
      pose proof (delegating_commit_tunnel t c H) as H1.
      destruct (oninstruction (commit_tunnel t c)); [|exact H1].
      apply delegating_emit; [discriminate|exact H1].
  - unfold tunnel_onerror.
    destruct (w_onerror _); [exact H| |].
    + apply delegating_emit; [discriminate|exact H].
    + unfold wrapper_onerror.
      pose proof (delegating_failTunnel t (Some status) c H) as H1.
      destruct (failTunnel t (Some status) c) as [[next|] c1];
        cbn [snd] in H1; [exact H1|].
      destruct (onerror c1); [|exact H1].
      apply delegating_emit; [discriminate|exact H1].
  - unfold tunnel_setUUID.
    cbn [objects on_object].
    destruct (w_onuuid _); try exact H.
    apply delegating_emit; [discriminate|exact H].
Qed.

Lemma seq_last (m : nat) : last (List.seq 1 m) 0%nat = m.
Proof.
  destruct m as [|m]; [reflexivity|].
  rewrite seq_S; apply last_last.
Qed.

End Chain.
End ChainFacts.

Module Chain.
Import JS Base Codec Spec Views ChainFacts.
Import Chained.

(** X17.  The chain tries its tunnels in the order of the constructor.
    When the tunnels fail one after the other before any of them has
    opened or delivered an instruction, each reporting an error other
    than UPSTREAM_TIMEOUT and then closing, the chain calls [connect] on
    each of them exactly once, in order and with the data given to its
    own [connect] (an error followed by CLOSED on the same tunnel moves
    the chain on by one tunnel only), and it tells the application
    nothing until the last tunnel has failed: then [onerror] gets the
    status of the last tunnel and [onstatechange] gets CLOSED.  With no
    tunnel at all, [connect] calls [onerror] with the code SERVER_ERROR
    and a text instead of a status object. *)
Theorem failover_order {codes : StatusCode} (n : nat)
    (data : option jsstring) (st : nat -> Status)
    (h_uuid h_error h_state h_instruction : option nat) :
  (forall i, code_is (st i) UPSTREAM_TIMEOUT = false) ->
  let c :=
    run (Connect data :: flat_map (fails st) (List.seq 0 n))
        (new_ChainedTunnel n h_uuid h_error h_state h_instruction) in
  trace c
  = map (fun i => Tunnel_connect i data) (List.seq 0 n)
    ++ match n with
       | O => no_tunnels h_error
       | S m => last_failure h_error h_state (st m)
       end
  /\ tunnels c = [] /\ committedTunnel c = None.
Proof.
  intros Hst; cbv zeta.
  destruct n as [|m].
  - unfold no_tunnels; cbn; destruct h_error; cbn; auto.
  - set (c0 := new_ChainedTunnel (S m) h_uuid h_error h_state h_instruction).
    change (run (Connect data :: flat_map (fails st) (List.seq 0 (S m))) c0)
      with (run (flat_map (fails st) (0%nat :: List.seq 1 m))
                (connect data c0)).
    set (c1 := connect data c0).
    assert (H : trying c1 c1 0%nat (List.seq 1 m) [Tunnel_connect 0 data]).
    { unfold c1, c0, trying, attached; cbn; auto 10. }
    destruct (fails_all st Hst c1 (List.seq 1 m) c1 0%nat _ H)
      as (E1 & E2 & E3).
    + apply (seq_NoDup (S m) 0).
    + reflexivity.
    + rewrite E1, E2, E3, seq_last; repeat split; auto.
Qed.

Lemma failover_order_witness :
  trace (@run example_codes
           (Connect (Some (str "id"))
            :: flat_map (fails (fun _ => {| code := Num 512;
                                            message := None |}))
                        (List.seq 0 3))
           (new_ChainedTunnel 3 None (Some 1%nat) (Some 2%nat) None))
  = map (fun i => Tunnel_connect i (Some (str "id"))) (List.seq 0 3)
    ++ last_failure (Some 1%nat) (Some 2%nat)
                    {| code := Num 512; message := None |}.
Proof.
  apply (@failover_order example_codes 3 (Some (str "id"))
           (fun _ => {| code := Num 512; message := None |})
           None (Some 1%nat) (Some 2%nat) None).
  reflexivity.
Defined.

(** X18.  The methods of the chain are those of the tunnel connected
    last.  Whatever has happened to a chain, [sendMessage] and
    [disconnect] call the method of the tunnel on which the chain has
    called [connect] last, with the same arguments, and do nothing while
    no tunnel has been connected: after a failover they reach the new
    tunnel, not the one that failed. *)
Theorem methods_follow_connect {codes : StatusCode} (n : nat)
    (h_uuid h_error h_state h_instruction : option nat)
    (inputs : list input) (arguments : list jsstring) :
  let c :=
    run inputs (new_ChainedTunnel n h_uuid h_error h_state h_instruction) in
  trace (sendMessage arguments c)
  = trace c
    ++ match last_connected (trace c) with
       | Some t => [Tunnel_sendMessage t arguments]
       | None => []
       end
  /\ trace (disconnect c)
     = trace c
       ++ match last_connected (trace c) with
          | Some t => [Tunnel_disconnect t]
          | None => []
          end.
Proof.
  cbv zeta.
  set (c0 := new_ChainedTunnel n h_uuid h_error h_state h_instruction).
  assert (D : delegating (run inputs c0)).
  { assert (D0 : delegating c0) by (split; reflexivity).
    clearbody c0; revert c0 D0; unfold run.
    induction inputs as [|i inputs IH]; intros c0 D0; cbn [fold_left];
      [exact D0|].
    now apply IH, delegating_step. }
  destruct D as [D1 D2].
  unfold sendMessage, disconnect; rewrite D1, D2.
  destruct (last_connected _); cbn; rewrite ?app_nil_r; auto.
Qed.

End Chain.

Module StaticFacts.
Import JS Base Codec Spec Views JSFacts TraceFacts ResumeFacts SessionFacts.
Import Static.

Lemma oninstruction_setState (s : State) (b : Tunnel) :
  oninstruction (setState s b) = oninstruction b.
Proof.
  unfold setState; destruct (negb _); [|reflexivity].
  cbn; now destruct (onstatechange b).
Qed.

Section Facts.
Context {codes : StatusCode} {P : Parser}.

(** [s.substring(n)] with [n] the length of a prefix of [s] is the rest
    of [s]. *)
Lemma substring_rest (a b : jsstring) :
  substring (a ++ b) (Num (jslength a)) undefined = b.
Proof.
  unfold substring, clamp; cbn [toInteger]; rewrite jslength_app.
  pose proof (jslength_nonneg a); pose proof (jslength_nonneg b).
  replace (Z.min (Z.min (Z.max (jslength a) 0) (jslength a + jslength b))
                 (Z.min (Z.max (jslength a + jslength b) 0)
                        (jslength a + jslength b)))
    with (jslength a) by lia.
  replace (Z.max (Z.min (Z.max (jslength a) 0) (jslength a + jslength b))
                 (Z.min (Z.max (jslength a + jslength b) 0)
                        (jslength a + jslength b)) - jslength a)
    with (jslength b) by lia.
  unfold jslength; rewrite !Nat2Z.id.
  rewrite skipn_app, skipn_all, Nat.sub_diag; cbn [app skipn].
  apply firstn_all.
Qed.

Lemma report_fields (l : list instruction) (t : StaticHTTPTunnel) :
  parser (report l t) = parser t /\ offset (report l t) = offset t
  /\ xhr (report l t) = xhr t /\ connects (report l t) = connects t
  /\ oninstruction (base (report l t)) = oninstruction (base t)
  /\ state (base (report l t)) = state (base t)
  /\ delivered (trace (base (report l t)))
     = delivered (trace (base t))
       ++ (if oninstruction (base t) then l else []).
Proof.
  unfold report; revert t.
  induction l as [|i l IH]; intros t; cbn [fold_left].
  - destruct (oninstruction (base t)); rewrite app_nil_r; auto 10.
  - destruct (IH (instructionReceived (fst i) (snd i) t))
      as (I1 & I2 & I3 & I4 & I5 & I6 & I7).
    rewrite I1, I2, I3, I4, I5, I6, I7.
    unfold instructionReceived; destruct i as [opcode args]; cbn [fst snd].
    destruct (oninstruction (base t)) eqn:E; cbn; rewrite ?E;
      repeat split; auto.
    now rewrite delivered_app, <- app_assoc.
Qed.

Lemma growing_snoc (seen : jsstring) (chunks : list jsstring)
    (c : jsstring) :
  growing seen (chunks ++ [c])
  = growing seen chunks ++ [seen ++ List.concat chunks ++ c].
Proof.
  revert seen; induction chunks as [|d chunks IH]; intros seen; cbn.
  - reflexivity.
  - now rewrite IH, <- !app_assoc.
Qed.

(** One event of a request that is still loading, when the text has grown
    by [c] since the event before. *)
Lemma chunk_step (seen c : jsstring) (t : StaticHTTPTunnel) :
  offset t = jslength seen ->
  let t' := readyStateChanged 3 (seen ++ c) t in
  (parser t', delivered (trace (base t')))
  = (fst (fed (parser t) [c]),
     delivered (trace (base t))
     ++ (if oninstruction (base t) then snd (fed (parser t) [c]) else []))
  /\ offset t' = jslength (seen ++ c) /\ xhr t' = xhr t
  /\ oninstruction (base t') = oninstruction (base t)
  /\ state (base t') = OPEN.
Proof.
  intros Ho; cbv zeta; unfold readyStateChanged.
  change ((3 =? 3) || (3 =? 4)) with true; change (3 =? 4) with false.
  cbv iota.
  change (offset (on_base (setState OPEN) t)) with (offset t).
  change (parser (on_base (setState OPEN) t)) with (parser t).
  rewrite Ho, jslength_app.
  destruct c as [|a c].
  - change (jslength []) with 0; rewrite Z.add_0_r, Z.ltb_irrefl.
    cbn.
    rewrite delivered_setState, oninstruction_setState, setState_state.
    destruct (oninstruction (base t)); rewrite app_nil_r; auto.
  - assert (L : (jslength seen <? jslength seen + jslength (a :: c)) = true).
    { apply Z.ltb_lt; unfold jslength; cbn [List.length]; lia. }
    rewrite L, substring_rest.
    cbn [fed].
    destruct (receive (parser t) (a :: c)) as [p l].
    destruct (report_fields l (on_base (setState OPEN) t))
      as (I1 & I2 & I3 & I4 & I5 & I6 & I7).
    cbn [fst snd parser offset xhr base with_parser].
    rewrite I3, I5, I6, I7, app_nil_r; cbn [base on_base xhr].
    rewrite delivered_setState, oninstruction_setState, setState_state.
    auto.
Qed.

Lemma fed_cons (p : parser_state) (c : jsstring) (chunks : list jsstring) :
  fed p (c :: chunks)
  = (fst (fed (fst (fed p [c])) chunks),
     snd (fed p [c]) ++ snd (fed (fst (fed p [c])) chunks)).
Proof.
  destruct c as [|a c]; cbn [fed fst snd].
  - now destruct (fed p chunks).
  - destruct (receive p (a :: c)) as [p1 l1]; cbn [fst snd].
    destruct (fed p1 chunks); now rewrite app_nil_r.
Qed.

(** The events of a request that is loading, while the text grows. *)
Lemma chunks_run (chunks : list jsstring) :
  forall (seen : jsstring) (t : StaticHTTPTunnel) (id : nat),
    offset t = jslength seen -> xhr t = Some id ->
    let t' := run (map (ReadyStateChange 3) (growing seen chunks)) t in
    (parser t', delivered (trace (base t')))
    = (fst (fed (parser t) chunks),
       delivered (trace (base t))
       ++ (if oninstruction (base t) then snd (fed (parser t) chunks)
           else []))
    /\ offset t' = jslength (seen ++ List.concat chunks) /\ xhr t' = Some id
    /\ (chunks <> [] -> state (base t') = OPEN).
Proof.
  unfold run.
  induction chunks as [|c chunks IH]; intros seen t id Ho Hx; cbv zeta.
  - cbn; rewrite !app_nil_r.
    destruct (oninstruction (base t)); rewrite ?app_nil_r;
      repeat split; auto; congruence.
  - cbn [growing map fold_left step List.concat]; rewrite Hx.
    destruct (chunk_step seen c t Ho) as (E & O & X & I & S).
    injection E as E1 E2.
    rewrite Hx in X.
    destruct (IH (seen ++ c) _ id O X) as (F & O' & X' & S').
    injection F as F1 F2.
    rewrite fed_cons; cbn [fst snd].
    rewrite F1, F2, O', X', E1, E2, I, app_assoc.
    repeat split.
    + f_equal; rewrite <- app_assoc; f_equal.
      now destruct (oninstruction (base t)).
    + intros _; destruct chunks as [|d chunks]; [exact S|].
      apply S'; discriminate.
Qed.

End Facts.
End StaticFacts.

Module StaticResponse.
Import JS Base Codec Spec Views JSFacts TraceFacts SessionFacts StaticFacts.
Import Static.

(** X19.  The static tunnel passes each part of the response to its
    parser exactly once and in order.  After [connect], when the request
    reports that it is loading each time its text has grown by one of the
    [chunks] (an empty chunk is an event without new text), the parser
    of this connection has received the chunks that are not empty, one
    [receive] each, nothing twice and nothing skipped; the instructions
    it has reported have been given to [oninstruction] in order; the
    offset is the length of the text, and the tunnel is OPEN from the
    first event on.  When the request then completes with a text grown by
    [final], the parser receives [final] as well, and the tunnel then
    aborts the request, forgets it and is CLOSED. *)
Theorem response_parsed_once {codes : StatusCode} {P : Parser}
    (data : jsstring) (chunks : list jsstring) (final : jsstring)
    (t : StaticHTTPTunnel) :
  let loading :=
    run (Connect data :: map (ReadyStateChange 3) (growing [] chunks)) t in
  let done := step (ReadyStateChange 4 (List.concat chunks ++ final)) loading in
  let reported (l : list jsstring) :=
    delivered (trace (base t))
    ++ (if oninstruction (base t) then snd (fed new_Parser l) else []) in
  (parser loading = fst (fed new_Parser chunks)
   /\ delivered (trace (base loading)) = reported chunks
   /\ offset loading = jslength (List.concat chunks)
   /\ xhr loading = Some (connects t)
   /\ state (base loading)
      = match chunks with [] => CONNECTING | _ => OPEN end)
  /\ (parser done = fst (fed new_Parser (chunks ++ [final]))
      /\ delivered (trace (base done)) = reported (chunks ++ [final])
      /\ xhr done = None /\ state (base done) = CLOSED).
Proof.
  cbv zeta.
  set (t0 := connect data t).
  assert (C : offset t0 = jslength [] /\ xhr t0 = Some (connects t)
              /\ parser t0 = new_Parser
              /\ oninstruction (base t0) = oninstruction (base t)
              /\ delivered (trace (base t0)) = delivered (trace (base t))
              /\ state (base t0) = CONNECTING).
  { unfold t0, connect, disconnect.
    destruct (xhr t); cbn;
      rewrite ?delivered_app, ?delivered_setState, ?oninstruction_setState,
        ?setState_state; cbn;
      rewrite ?delivered_app, ?delivered_setState, ?app_nil_r;
      repeat split; auto. }
  destruct C as (C1 & C2 & C3 & C4 & C5 & C6).
  assert (R : forall l,
             run (Connect data :: map (ReadyStateChange 3) (growing [] l)) t
             = run (map (ReadyStateChange 3) (growing [] l)) t0)
    by reflexivity.
  clearbody t0.
  split.
  - rewrite R.
    destruct (chunks_run chunks [] t0 _ C1 C2) as (F & O & X & S).
    injection F as F1 F2.
    rewrite F1, F2, O, X, C3, C4, C5; repeat split.
    destruct chunks; [exact C6|apply S; discriminate].
  - set (loading := run _ t).
    assert (D : step (ReadyStateChange 4 (List.concat chunks ++ final)) loading
                = disconnect
                    (run (map (ReadyStateChange 3)
                              (growing [] (chunks ++ [final]))) t0)).
    { rewrite growing_snoc, map_app; unfold run at 1.
      rewrite fold_left_app; cbn [map fold_left app step].
      unfold loading; rewrite R.
      destruct (chunks_run chunks [] t0 _ C1 C2) as (_ & _ & X & _).
      unfold run in X |- *; rewrite X.
      reflexivity. }
    rewrite D.
    destruct (chunks_run (chunks ++ [final]) [] t0 _ C1 C2)
      as (F & O & X & S).
    injection F as F1 F2.
    unfold disconnect; rewrite X; cbn.
    rewrite setState_state, delivered_setState; cbn.
    rewrite delivered_app, F1, F2, C3, C4, C5; cbn.
    rewrite app_nil_r; auto.
Qed.

End StaticResponse.

Module URLFacts.
Import JS Base Views JSFacts ResumeFacts URL.

Lemma substring_firstn (s : jsstring) (k : nat) :
  substring s (Num 0) (Num (Z.of_nat k)) = firstn k s.
Proof.
  unfold substring, clamp; cbn [toInteger].
  pose proof (jslength_nonneg s).
  replace (Z.min (Z.min (Z.max 0 0) (jslength s))
                 (Z.min (Z.max (Z.of_nat k) 0) (jslength s))) with 0 by lia.
  replace (Z.max (Z.min (Z.max 0 0) (jslength s))
                 (Z.min (Z.max (Z.of_nat k) 0) (jslength s)) - 0)
    with (Z.min (Z.of_nat k) (jslength s)) by lia.
  cbn [Z.to_nat skipn]; unfold jslength.
  rewrite <- Nat2Z.inj_min, Nat2Z.id.
  destruct (Nat.le_ge_cases k (List.length s)) as [L|L].
  - now rewrite Nat.min_l.
  - rewrite Nat.min_r by assumption.
    now rewrite !firstn_all2.
Qed.

Lemma resolve_eq (l : Location) (url : jsstring) :
  resolve l url
  = if websocket_url url then url
    else to_string (ws_protocol (protocol l)) ++ str "//" ++ host l
         ++ (if starts_with (str "/") url then []
             else firstn (Z.to_nat (lastIndexOf "/"%char (pathname l) + 1))
                         (pathname l))
         ++ url.
Proof.
  unfold resolve, websocket_url, starts_with.
  change 3 with (Z.of_nat 3); change 4 with (Z.of_nat 4).
  change 1 with (Z.of_nat 1) at 1.
  rewrite !substring_firstn.
  change (List.length (str "ws:")) with 3%nat.
  change (List.length (str "wss:")) with 4%nat.
  change (List.length (str "/")) with 1%nat.
  destruct (jsstring_eqb (firstn 3 url) (str "ws:")); [reflexivity|].
  destruct (jsstring_eqb (firstn 4 url) (str "wss:")); [reflexivity|].
  cbn [negb andb orb].
  destruct (jsstring_eqb (firstn 1 url) (str "/")); [reflexivity|].
  cbv zeta.
  set (k := lastIndexOf "/"%char (pathname l) + 1).
  destruct (Z.le_gt_cases 0 k) as [K|K].
  - rewrite <- (Z2Nat.id k K) at 1; now rewrite substring_firstn.
  - replace (Z.to_nat k) with 0%nat by lia.
    unfold substring, clamp; cbn [toInteger].
    pose proof (jslength_nonneg (pathname l)).
    replace (Z.max _ _ - Z.min _ _) with 0 by lia.
    reflexivity.
Qed.

(** The last [c] of a text splits it into a part that ends with [c] and a
    part without [c]. *)
Lemma last_from_split (c : ascii) (s : jsstring) :
  forall i found : Z,
    (last_from c s i found = found /\ ~ In c s)
    \/ (exists a b, s = a ++ c :: b /\ ~ In c b
                    /\ last_from c s i found = i + jslength a).
Proof.
  induction s as [|x s IH]; intros i found; cbn [last_from].
  - left; split; auto.
  - destruct (Ascii.eqb_spec x c) as [E|E].
    + subst x; right.
      destruct (IH (i + 1) i) as [[H N]|(a & b & H & N & L)].
      * exists [], s; rewrite H; cbn; repeat split; auto; lia.
      * exists (c :: a), b; subst s; rewrite L; repeat split; auto.
        unfold jslength; cbn [List.length]; lia.
    + destruct (IH (i + 1) found) as [[H N]|(a & b & H & N & L)].
      * left; split; [exact H|].
        intros [F|F]; [now elim E|now elim N].
      * right; exists (x :: a), b; subst s; rewrite L; repeat split; auto.
        unfold jslength; cbn [List.length]; lia.
Qed.

(** The path taken from [pathname]: all of it up to its last slash. *)
Lemma directory_split (p : jsstring) :
  exists dir file,
    p = dir ++ file /\ ~ In "/"%char file
    /\ (dir = [] \/ exists d, dir = d ++ str "/")
    /\ firstn (Z.to_nat (lastIndexOf "/"%char p + 1)) p = dir.
Proof.
  unfold lastIndexOf.
  destruct (last_from_split "/"%char p 0 (-1)) as [[H N]|(a & b & H & N & L)].
  - exists [], p; rewrite H; cbn; auto.
  - exists (a ++ str "/"), b; rewrite L; subst p.
    repeat split; auto.
    + now rewrite <- app_assoc.
    + right; now exists a.
    + replace (Z.to_nat (0 + jslength a + 1))
        with (List.length (a ++ str "/") + 0)%nat
        by (rewrite length_app; change (List.length (str "/")) with 1%nat;
            unfold jslength; lia).
      change ("/"%char :: b) with (str "/" ++ b); rewrite app_assoc.
      rewrite firstn_app_2; cbn; apply app_nil_r.
Qed.

Lemma ws_protocol_known (l : Location) :
  scheme l = str "http" \/ scheme l = str "https" ->
  to_string (ws_protocol (protocol l)) = str "ws:"
  \/ to_string (ws_protocol (protocol l)) = str "wss:".
Proof.
  unfold protocol; intros [E|E]; rewrite E; cbn; auto.
Qed.

Lemma ws_protocol_unknown (l : Location) :
  scheme l <> str "http" -> scheme l <> str "https" ->
  to_string (ws_protocol (protocol l)) = str "undefined".
Proof.
  intros H1 H2; unfold ws_protocol, protocol.
  rewrite !jsstring_eqb_neq; [reflexivity| |].
  - change (str "https:") with (str "https" ++ str ":").
    intros E; now apply app_inv_tail in E.
  - change (str "http:") with (str "http" ++ str ":").
    intros E; now apply app_inv_tail in E.
Qed.

End URLFacts.

Module SocketURL.
Import JS Base Views JSFacts URL URLFacts.

(** X20.  The URL that the WebSocket tunnel uses.  A URL that begins with
    [ws:] or [wss:] is used as it is.  Any other URL is put behind the
    scheme found for the protocol of the page, [//] and the host of the
    page; when it does not begin with a slash, the pathname of the page up
    to and including its last slash comes before it (nothing when the
    pathname has no slash), the rest of the pathname being dropped.  The
    scheme is [ws:] on a page of scheme http and [wss:] on one of scheme
    https; on any other page nothing is found and the URL begins with the
    text [undefined]. *)
Theorem tunnel_url_resolution (l : Location) (url : jsstring) :
  exists dir file : jsstring,
    pathname l = dir ++ file /\ ~ In "/"%char file
    /\ (dir = [] \/ exists d, dir = d ++ str "/")
    /\ resolve l url
       = (if websocket_url url then url
          else to_string (ws_protocol (protocol l)) ++ str "//" ++ host l
               ++ (if starts_with (str "/") url then [] else dir) ++ url)
    /\ to_string (ws_protocol (protocol l))
       = if jsstring_eqb (scheme l) (str "http") then str "ws:"
         else if jsstring_eqb (scheme l) (str "https") then str "wss:"
         else str "undefined".
Proof.
  destruct (directory_split (pathname l)) as (dir & file & H1 & H2 & H3 & H4).
  exists dir, file; repeat split; auto.
  - now rewrite resolve_eq, H4.
  - destruct (jsstring_eqb (scheme l) (str "http")) eqn:E1.
    + apply jsstring_eqb_eq in E1; unfold protocol; now rewrite E1.
    + destruct (jsstring_eqb (scheme l) (str "https")) eqn:E2.
      * apply jsstring_eqb_eq in E2; unfold protocol; now rewrite E2.
      * apply ws_protocol_unknown; intros E; rewrite E in *; discriminate.
Qed.

(** X21.  On a page of scheme http or https the URL of the tunnel is a
    WebSocket URL, and a WebSocket tunnel made with that URL uses the same
    URL: resolving is idempotent, so the URL of one tunnel can be given to
    another. *)
Theorem resolved_url_kept (l : Location) (url : jsstring) :
  scheme l = str "http" \/ scheme l = str "https" ->
  websocket_url (resolve l url) = true
  /\ resolve l (resolve l url) = resolve l url.
Proof.
  intros H.
  assert (W : websocket_url (resolve l url) = true).
  { rewrite resolve_eq.
    destruct (websocket_url url) eqn:E; [exact E|].
    destruct (ws_protocol_known l H) as [P|P]; rewrite P; reflexivity. }
  split; [exact W|].
  now rewrite (resolve_eq l (resolve l url)), W.
Qed.

Lemma resolved_url_kept_witness :
  resolve {| scheme := str "https"; host := str "example.com";
             pathname := str "/app/index.html" |}
          (str "websocket-tunnel")
  = str "wss://example.com/app/websocket-tunnel"
  /\ resolve {| scheme := str "https"; host := str "example.com";
                pathname := str "/app/index.html" |}
             (str "wss://example.com/app/websocket-tunnel")
     = str "wss://example.com/app/websocket-tunnel".
Proof.
  split; [reflexivity|].
  apply (resolved_url_kept
           {| scheme := str "https"; host := str "example.com";
              pathname := str "/app/index.html" |}
           (str "websocket-tunnel")).
  right; reflexivity.
Defined.

End SocketURL.
